(** * kitty/tabs.py: window and tab grouping, focus management

    A shallow embedding of [Tab] and [TabManager] from [kitty/tabs.py].

    Python objects live in stores indexed by object references ([nat]); the
    [is] operator is equality of references.  The methods are written in a
    small state-and-exception monad that also collects, in order, the calls
    made to the external collaborators (windows, borders, native layer,
    layout strategy).  An exception leaves the mutations made so far in
    place, as in Python.  The string methods that follow the Unicode
    character database, [str.lower] and [str.strip], are kept abstract, with
    their effect on ASCII text fixed. *)

From Stdlib Require Import String Ascii ZArith Bool Lia PeanoNat List.
Import ListNotations.
Local Open Scope Z_scope.

Set Implicit Arguments.

(** ** Python primitives *)

(** Position addressed by a Python index in a sequence of length [n]:
    negative indices count from the end, anything else is an [IndexError]. *)
Definition py_pos (n : nat) (i : Z) : option nat :=
  if (0 <=? i) && (i <? Z.of_nat n) then Some (Z.to_nat i)
  else if (i <? 0) && (- Z.of_nat n <=? i) then Some (Z.to_nat (Z.of_nat n + i))
  else None.

(** [seq[i]] *)
Definition py_index {A} (l : list A) (i : Z) : option A :=
  match py_pos (length l) i with
  | Some k => nth_error l k
  | None => None
  end.

(** [seq[k] = x] for a position already resolved. *)
Fixpoint list_set {A} (l : list A) (k : nat) (x : A) : list A :=
  match l, k with
  | [], _ => []
  | _ :: r, O => x :: r
  | a :: r, S k' => a :: list_set r k' x
  end.

(** [max(0, min(val, n - 1))] *)
Definition clamp (val : Z) (n : nat) : Z :=
  Z.max 0 (Z.min val (Z.of_nat n - 1)).

(** [a is b] on optional object references ([None] is Python's [None]). *)
Definition is_ (a b : option nat) : bool :=
  match a, b with
  | Some x, Some y => Nat.eqb x y
  | None, None => true
  | _, _ => false
  end.

(** [seq.index(x)] on a sequence of object references. *)
Fixpoint index_of (x : nat) (l : list nat) : option nat :=
  match l with
  | [] => None
  | y :: r => if Nat.eqb y x then Some O
              else match index_of x r with
                   | Some k => Some (S k)
                   | None => None
                   end
  end.

(** [list.remove(x)] once its presence is known: drops the first occurrence. *)
Fixpoint remove_first (x : nat) (l : list nat) : list nat :=
  match l with
  | [] => []
  | y :: r => if Nat.eqb y x then r else y :: remove_first x r
  end.

(** ** Text

    A [str] is kept as the bytes of its UTF-8 encoding, so ASCII text is
    text whose bytes are all below 128. *)

Definition is_ascii_char (c : ascii) : bool := Nat.ltb (nat_of_ascii c) 128.

Fixpoint is_ascii (s : string) : bool :=
  match s with
  | EmptyString => true
  | String c r => is_ascii_char c && is_ascii r
  end.

(** The small letter of a capital letter [A]..[Z]; other bytes are kept. *)
Definition ascii_lower_char (c : ascii) : ascii :=
  let n := nat_of_ascii c in
  if (Nat.leb 65 n && Nat.leb n 90)%bool then ascii_of_nat (n + 32) else c.

Fixpoint ascii_lower (s : string) : string :=
  match s with
  | EmptyString => EmptyString
  | String c r => String (ascii_lower_char c) (ascii_lower r)
  end.

(** The ASCII characters for which [str.isspace()] holds. *)
Definition is_space (c : ascii) : bool :=
  let n := nat_of_ascii c in
  (Nat.eqb n 32 || (Nat.leb 9 n && Nat.leb n 13) || (Nat.leb 28 n && Nat.leb n 31))%bool.

Fixpoint ascii_lstrip (s : string) : string :=
  match s with
  | String c r => if is_space c then ascii_lstrip r else s
  | EmptyString => EmptyString
  end.

(** A character is kept when it is not a space or when something is kept
    after it. *)
Fixpoint ascii_rstrip (s : string) : string :=
  match s with
  | String c r =>
      match ascii_rstrip r with
      | EmptyString => if is_space c then EmptyString else String c EmptyString
      | r' => String c r'
      end
  | EmptyString => EmptyString
  end.

Definition ascii_strip (s : string) : string := ascii_rstrip (ascii_lstrip s).

(** [str.lower()] and [str.strip()].  Both follow the Unicode character
    database, which is not reproduced here: the methods are kept abstract,
    and what is fixed is their result on ASCII text, where [lower] maps the
    capital letters to the small ones and [strip] removes the leading and
    trailing characters that satisfy [isspace]. *)
Class PyStr := {
  str_lower : string -> string;
  str_strip : string -> string;
  str_lower_ascii : forall s, is_ascii s = true -> str_lower s = ascii_lower s;
  str_strip_ascii : forall s, is_ascii s = true -> str_strip s = ascii_strip s
}.

(** [x in seq] for strings *)
Definition str_in (s : string) (l : list string) : bool :=
  existsb (String.eqb s) l.

(** ** Exceptions, events and the monad *)

Inductive Exc := IndexError | StopIteration | ValueError | AttributeError.

Inductive Result (A : Type) :=
| Ok (a : A)
| Raise (e : Exc).
Arguments Ok {A} a.
Arguments Raise {A} e.

(** Methods of [LayoutStrategy] that the core calls. *)
Inductive LayoutOp :=
| LCall | LAddWindow | LRemoveWindow | LSetActiveWindow | LNthWindow
| LNextWindow | LMoveWindow | LModifySize | LRemoveAllBiases | LBiasIncrement.

(** Calls to external collaborators, in the order they are made. *)
Inductive Event :=
| EFocusChanged (w : nat) (focused : bool)      (* w.focus_changed(focused) *)
| EBorders (tab_id : Z) (active : option nat)   (* self.borders(...) *)
| EChangeTitlebarColor (w : nat)
| EMarkTabBarDirty                              (* native mark_tab_bar_dirty *)
| EPostEmptyEvent                               (* glfw_post_empty_event *)
| ELogError (msg : string)
| ELayout (op : LayoutOp)
| ECreateLayout (name : string)
| ELaunchChild
| EAddChild (w : nat)                           (* get_boss().add_child *)
| ERemoveWindow (tab_id win_id : Z)             (* native remove_window *)
| EEvictCachedLayouts (tab_id : Z)
| EWindowDestroy (w : nat)
| ETabBarLayout                                 (* self.tab_bar.layout() *)
| ESetActiveTab (idx : Z)                       (* native set_active_tab *)
| ESwapTabs (i j : Z)                           (* native swap_tabs *)
| ERemoveTab (tab_id : Z).                      (* native remove_tab *)

Definition M (S A : Type) : Type := S -> Result A * S * list Event.

Definition ret {S A} (a : A) : M S A := fun s => (Ok a, s, []).

Definition bind {S A B} (m : M S A) (f : A -> M S B) : M S B :=
  fun s =>
    match m s with
    | (Ok a, s1, e1) =>
        match f a s1 with
        | (r, s2, e2) => (r, s2, e1 ++ e2)
        end
    | (Raise x, s1, e1) => (Raise x, s1, e1)
    end.

Definition raise {S A} (x : Exc) : M S A := fun s => (Raise x, s, []).
Definition get {S} : M S S := fun s => (Ok s, s, []).
Definition gets {S A} (f : S -> A) : M S A := fun s => (Ok (f s), s, []).
Definition modify {S} (f : S -> S) : M S unit := fun s => (Ok tt, f s, []).
Definition emit {S} (e : Event) : M S unit := fun s => (Ok tt, s, [e]).

Declare Scope monad_scope.
Delimit Scope monad_scope with monad.
Notation "x <- m ;; k" := (bind m (fun x => k))
  (at level 61, m at next level, right associativity) : monad_scope.
Notation "m ;; k" := (bind m (fun _ => k))
  (at level 61, right associativity) : monad_scope.
Local Open Scope monad_scope.

Definition when {S} (b : bool) (m : M S unit) : M S unit :=
  if b then m else ret tt.

(** [for x in xs: body(x)] *)
Fixpoint for_each {S A} (xs : list A) (body : A -> M S unit) : M S unit :=
  match xs with
  | [] => ret tt
  | x :: r => body x ;; for_each r body
  end.

Definition result_of {S A} (o : Result A * S * list Event) : Result A := fst (fst o).
Definition state_of {S A} (o : Result A * S * list Event) : S := snd (fst o).
Definition events_of {S A} (o : Result A * S * list Event) : list Event := snd o.

(** ** Window objects and the layout strategy *)

(** The attributes of a [Window] that this module reads or writes. *)
Record WindowObj := mkWindow {
  win_id : Z;
  overlay_for : option Z;
  overlay_window_id : option Z
}.

Record Heap := mkHeap {
  objs : nat -> WindowObj;
  next_ref : nat
}.

Definition heap_set (h : Heap) (r : nat) (o : WindowObj) : Heap :=
  mkHeap (fun r' => if Nat.eqb r' r then o else objs h r') (next_ref h).

(** The external layout strategy.  Every method receives the window deque
    (which it may reorder, extend or shrink in place) and returns the new
    active index; the strategy object may update its own state. *)
Class LayoutStrategy (L : Type) := {
  full_name : L -> string;
  needs_window_borders : L -> bool;
  create_layout_object_for : string -> Z -> L;
  layout_call : L -> Heap -> list nat -> Z -> L * list nat * Z;
  layout_add_window : L -> Heap -> list nat -> nat -> Z -> L * list nat * Z;
  layout_remove_window : L -> Heap -> list nat -> nat -> Z -> L * list nat * Z;
  layout_set_active_window : L -> Heap -> list nat -> Z -> L * list nat * Z;
  layout_nth_window : L -> Heap -> list nat -> Z -> L * list nat * Z;
  layout_next_window : L -> Heap -> list nat -> Z -> Z -> L * list nat * Z;
  layout_move_window : L -> Heap -> list nat -> Z -> Z -> L * list nat * Z;
  bias_increment_for_cell : L -> bool -> Z;
  modify_size_of_window : L -> Heap -> list nat -> Z -> Z -> bool -> L * bool;
  remove_all_biases : L -> L * bool
}.

(** ** Tab *)

(** The state of a [Tab] object.  [tab_id] is [Tab.id], the identifier the
    native layer returned at construction. *)
Record TabObj (L : Type) := mkTab {
  tab_id : Z;
  enabled_layouts : list string;
  windows : list nat;
  _active_window_idx : Z;
  current_layout : L
}.

(** What a [Tab] method can reach: the tab itself, the window objects, and
    the manager behind its weak reference ([None] once the manager is gone,
    otherwise the manager's current number of tabs). *)
Record TabWorld (L : Type) := mkTabWorld {
  self : TabObj L;
  heap : Heap;
  tab_manager_ref : option nat
}.

(** [enabled_layouts] as [Tab.__init__] computes it from the session tab's
    list, or from the options when that is missing or empty. *)
Definition init_enabled_layouts {text : PyStr} (session_layouts opts_layouts : list string)
  : list string :=
  map str_lower (match session_layouts with [] => opts_layouts | _ => session_layouts end).

(** [tab.active_window]: [self.windows[self.active_window_idx] if self.windows else None] *)
Definition active_window_of {L} (t : TabObj L) : Result (option nat) :=
  match windows t with
  | [] => Ok None
  | _ => match py_index (windows t) (_active_window_idx t) with
         | Some r => Ok (Some r)
         | None => Raise IndexError
         end
  end.

Definition lift_result {S A} (r : Result A) : M S A :=
  match r with Ok a => ret a | Raise x => raise x end.

(** [if w is not None: w.focus_changed(b)] *)
Definition focus_changed {S} (w : option nat) (b : bool) : M S unit :=
  match w with
  | Some r => emit (EFocusChanged r b)
  | None => ret tt
  end.

Module Tab.
Section WithLayout.
Context {L : Type} `{LayoutStrategy L} {text : PyStr}.

Local Abbreviation T := (M (TabWorld L)).

Definition set_self (f : TabObj L -> TabObj L) : T unit :=
  modify (fun w => mkTabWorld (f (self w)) (heap w) (tab_manager_ref w)).

Definition set_heap (f : Heap -> Heap) : T unit :=
  modify (fun w => mkTabWorld (self w) (f (heap w)) (tab_manager_ref w)).

Definition with_idx (i : Z) (t : TabObj L) : TabObj L :=
  mkTab (tab_id t) (enabled_layouts t) (windows t) i (current_layout t).

Definition with_windows (ws : list nat) (t : TabObj L) : TabObj L :=
  mkTab (tab_id t) (enabled_layouts t) ws (_active_window_idx t) (current_layout t).

Definition with_layout (l : L) (t : TabObj L) : TabObj L :=
  mkTab (tab_id t) (enabled_layouts t) (windows t) (_active_window_idx t) l.

Definition active_window_idx : T Z := gets (fun w => _active_window_idx (self w)).

Definition active_window : T (option nat) :=
  t <- gets (@self L);; lift_result (active_window_of t).

(** [tm.mark_tab_bar_dirty()] on a live manager with [n] tabs. *)
Definition tm_mark_tab_bar_dirty (n : nat) : T unit :=
  when (1 <? Z.of_nat n) (emit EMarkTabBarDirty).

Definition relayout_borders : T unit :=
  tm <- gets (@tab_manager_ref L);;
  match tm with
  | Some _ =>
      w <- active_window;;
      t <- gets (@self L);;
      emit (EBorders (tab_id t) w);;
      match w with
      | Some r => emit (EChangeTitlebarColor r)
      | None => ret tt
      end
  | None => ret tt
  end.

(** The setter of the [active_window_idx] property. *)
Definition active_window_idx_setter (val : Z) : T unit :=
  t <- gets (@self L);;
  let old_active_window := py_index (windows t) (_active_window_idx t) in
  set_self (with_idx (clamp val (length (windows t))));;
  t' <- gets (@self L);;
  let new_active_window := py_index (windows t') (_active_window_idx t') in
  if negb (is_ old_active_window new_active_window) then
    focus_changed old_active_window false;;
    focus_changed new_active_window true;;
    tm <- gets (@tab_manager_ref L);;
    match tm with
    | Some n => relayout_borders;; tm_mark_tab_bar_dirty n
    | None => ret tt
    end
  else ret tt.

(** A call [self.current_layout.op(self.windows, ...)]: the strategy sees
    the deque and the window objects, may change the deque and itself, and
    returns an index. *)
Definition call_layout (op : LayoutOp)
    (f : L -> Heap -> list nat -> L * list nat * Z) : T Z :=
  w <- get;;
  match f (current_layout (self w)) (heap w) (windows (self w)) with
  | (l', ws', i) =>
      set_self (fun t => with_windows ws' (with_layout l' t));;
      emit (ELayout op);;
      ret i
  end.

Definition relayout : T unit :=
  t <- gets (@self L);;
  match windows t with
  | [] => ret tt
  | _ =>
      i <- call_layout LCall (fun l h ws => layout_call l h ws (_active_window_idx t));;
      active_window_idx_setter i
  end;;
  relayout_borders.

Definition create_layout_object (name : string) : T L :=
  t <- gets (@self L);;
  emit (ECreateLayout name);;
  ret (create_layout_object_for name (tab_id t)).

(** The [for ... else] search of [next_layout]: position of the current
    layout's name among the enabled ones, [-1] when absent. *)
Fixpoint layout_position (names : list string) (cur : string) (i : Z) : Z :=
  match names with
  | [] => -1
  | n :: r => if String.eqb n cur then i else layout_position r cur (i + 1)
  end.

Definition next_layout : T unit :=
  t <- gets (@self L);;
  if 1 <? Z.of_nat (length (enabled_layouts t)) then
    let idx := layout_position (enabled_layouts t) (full_name (current_layout t)) 0 in
    match py_index (enabled_layouts t)
            ((idx + 1) mod Z.of_nat (length (enabled_layouts t))) with
    | Some nl =>
        l <- create_layout_object nl;;
        set_self (with_layout l);;
        relayout
    | None => raise IndexError
    end
  else ret tt.

Definition goto_layout (layout_name : string) : T unit :=
  let layout_name := str_lower layout_name in
  t <- gets (@self L);;
  if negb (str_in layout_name (enabled_layouts t)) then
    emit (ELogError ("Unknown or disabled layout: " ++ layout_name)%string)
  else
    l <- create_layout_object layout_name;;
    set_self (with_layout l);;
    relayout.

Definition resize_window_by (window_id increment : Z) (is_horizontal : bool)
  : T (option string) :=
  w <- get;;
  emit (ELayout LBiasIncrement);;
  let increment_as_percent :=
    bias_increment_for_cell (current_layout (self w)) is_horizontal * increment in
  match modify_size_of_window (current_layout (self w)) (heap w) (windows (self w))
          window_id increment_as_percent is_horizontal with
  | (l', ok) =>
      set_self (with_layout l');;
      emit (ELayout LModifySize);;
      if ok then relayout;; ret None
      else ret (Some "Could not resize"%string)
  end.

Definition reset_window_sizes : T unit :=
  w <- get;;
  match remove_all_biases (current_layout (self w)) with
  | (l', changed) =>
      set_self (with_layout l');;
      emit (ELayout LRemoveAllBiases);;
      when changed relayout
  end.
(** [launch_child]: builds the environment and forks the child process;
    nothing of the tab changes. *)
Definition launch_child : T unit := emit ELaunchChild.

(** [Window(self, child, ...)]: a new window object whose [id] is the one
    the native layer hands out, with no overlay relation yet. *)
Definition new_Window (new_id : Z) : T nat :=
  h <- gets (@heap L);;
  let r := next_ref h in
  set_heap (fun h => mkHeap (fun r' => if Nat.eqb r' r then mkWindow new_id None None
                                      else objs h r') (S (next_ref h)));;
  ret r.

Definition new_window (overlay_for_arg : option Z) (new_id : Z) : T nat :=
  launch_child;;
  window <- new_Window new_id;;
  match overlay_for_arg with
  | Some ov =>
      w <- get;;
      match find (fun r => win_id (objs (heap w) r) =? ov) (windows (self w)) with
      | Some overlaid =>
          set_heap (fun h =>
            heap_set h window
              (mkWindow (win_id (objs h window)) (Some ov)
                        (overlay_window_id (objs h window))));;
          set_heap (fun h =>
            heap_set h overlaid
              (mkWindow (win_id (objs h overlaid)) (overlay_for (objs h overlaid))
                        (Some (win_id (objs h window)))))
      | None => raise StopIteration
      end
  | None => ret tt
  end;;
  emit (EAddChild window);;
  idx <- active_window_idx;;
  i <- call_layout LAddWindow (fun l h ws => layout_add_window l h ws window idx);;
  active_window_idx_setter i;;
  relayout_borders;;
  emit EPostEmptyEvent;;
  ret window.

Definition remove_window (window : nat) : T unit :=
  idx <- active_window_idx;;
  i <- call_layout LRemoveWindow (fun l h ws => layout_remove_window l h ws window idx);;
  active_window_idx_setter i;;
  w <- get;;
  emit (ERemoveWindow (tab_id (self w)) (win_id (objs (heap w) window)));;
  relayout_borders;;
  emit EPostEmptyEvent.

Definition close_window : T unit :=
  t <- gets (@self L);;
  match windows t with
  | [] => ret tt
  | _ => match py_index (windows t) (_active_window_idx t) with
         | Some window => remove_window window
         | None => raise IndexError
         end
  end.

Definition set_active_window_idx (idx : Z) : T unit :=
  cur <- active_window_idx;;
  if negb (idx =? cur) then
    i <- call_layout LSetActiveWindow (fun l h ws => layout_set_active_window l h ws idx);;
    active_window_idx_setter i;;
    relayout_borders;;
    emit EPostEmptyEvent
  else ret tt.

Definition set_active_window (window : nat) : T unit :=
  t <- gets (@self L);;
  match index_of window (windows t) with
  | Some k => set_active_window_idx (Z.of_nat k)
  | None => ret tt
  end.

Definition nth_window (num : Z) : T unit :=
  t <- gets (@self L);;
  match windows t with
  | [] => ret tt
  | _ =>
      i <- call_layout LNthWindow (fun l h ws => layout_nth_window l h ws num);;
      active_window_idx_setter i;;
      relayout_borders;;
      emit EPostEmptyEvent
  end.

Definition _next_window (delta : Z) : T unit :=
  t <- gets (@self L);;
  if 1 <? Z.of_nat (length (windows t)) then
    i <- call_layout LNextWindow
           (fun l h ws => layout_next_window l h ws (_active_window_idx t) delta);;
    active_window_idx_setter i;;
    relayout_borders;;
    emit EPostEmptyEvent
  else ret tt.

Definition next_window : T unit := _next_window 1.
Definition previous_window : T unit := _next_window (-1).

Definition move_window (delta : Z) : T unit :=
  idx <- active_window_idx;;
  i <- call_layout LMoveWindow (fun l h ws => layout_move_window l h ws idx delta);;
  active_window_idx_setter i;;
  relayout;;
  emit EPostEmptyEvent.

Definition move_window_to_top : T unit :=
  idx <- active_window_idx;; move_window (- idx).
Definition move_window_forward : T unit := move_window 1.
Definition move_window_backward : T unit := move_window (-1).

Definition destroy : T unit :=
  t <- gets (@self L);;
  emit (EEvictCachedLayouts (tab_id t));;
  for_each (windows t) (fun w => emit (EWindowDestroy w));;
  set_self (with_windows []).

(** [on_bell(window)]: redraw the borders and the tab bar, when the manager
    is still there. *)
Definition on_bell (window : nat) : T unit :=
  tm <- gets (@tab_manager_ref L);;
  match tm with
  | Some n => relayout_borders;; tm_mark_tab_bar_dirty n
  | None => ret tt
  end.

(** [title_changed(window)]: only the active window's title shows in the
    tab bar. *)
Definition title_changed (window : nat) : T unit :=
  aw <- active_window;;
  if is_ (Some window) aw then
    tm <- gets (@tab_manager_ref L);;
    match tm with
    | Some n => tm_mark_tab_bar_dirty n
    | None => ret tt
    end
  else ret tt.

(** [startup(session_tab)]: the session's windows, each an optional overlay
    target with the id the new window gets, then the session's active
    window. *)
Definition startup (session_windows : list (option Z * Z))
    (session_active_window_idx : Z) : T unit :=
  for_each session_windows (fun c => _ <- new_window (fst c) (snd c);; ret tt);;
  set_active_window_idx session_active_window_idx.

End WithLayout.
End Tab.

(** ** TabManager *)

Record TabManagerObj := mkTabManager {
  tabs : list nat;                 (* references to tab objects *)
  active_tab_history : list Z;     (* deque of tab ids, most recent last *)
  _active_tab_idx : Z
}.

Record World (L : Type) := mkWorld {
  tm : TabManagerObj;
  tab_objs : nat -> TabObj L;
  wheap : Heap
}.

(** [self.active_tab_history.append(x)] followed by
    [if len(self.active_tab_history) > 64: self.active_tab_history.popleft()] *)
Definition push_history (x : Z) (h : list Z) : list Z :=
  let h' := h ++ [x] in
  if 64 <? Z.of_nat (length h') then tl h' else h'.

(** [for idx, qtab in enumerate(self.tabs): if qtab.id == tab_id: ...; break] *)
Fixpoint position_of_id (tab_id : Z) (ids : list Z) (idx : Z) : option Z :=
  match ids with
  | [] => None
  | q :: r => if q =? tab_id then Some idx else position_of_id tab_id r (idx + 1)
  end.

(** The [while] loop of [remove], on the history read from its most recent
    end: returns what is left of the history (same orientation) and
    [next_active_tab]. *)
Fixpoint reactivation_loop (ids : list Z) (removed : Z) (recent_first : list Z)
  : list Z * Z :=
  match recent_first with
  | [] => ([], -1)
  | tab_id :: rest =>
      if tab_id =? removed then reactivation_loop ids removed rest
      else match position_of_id tab_id ids 0 with
           | Some idx => (rest, idx)
           | None => reactivation_loop ids removed rest
           end
  end.

Module TabManager.
Section WithLayout.
Context {L : Type} `{LayoutStrategy L}.

Local Abbreviation T := (M (World L)).

Definition init (objs0 : nat -> TabObj L) (h : Heap) : World L :=
  mkWorld (mkTabManager [] [] 0) objs0 h.

Definition set_tm (f : TabManagerObj -> TabManagerObj) : T unit :=
  modify (fun w => mkWorld (f (tm w)) (tab_objs w) (wheap w)).

Definition with_tabs (ts : list nat) (m : TabManagerObj) : TabManagerObj :=
  mkTabManager ts (active_tab_history m) (_active_tab_idx m).

Definition with_history (h : list Z) (m : TabManagerObj) : TabManagerObj :=
  mkTabManager (tabs m) h (_active_tab_idx m).

Definition with_idx (i : Z) (m : TabManagerObj) : TabManagerObj :=
  mkTabManager (tabs m) (active_tab_history m) i.

(** A method called on the tab object [r] while the manager is alive: the
    tab's weak reference resolves to this manager. *)
Definition on_tab {A} (r : nat) (m : M (TabWorld L) A) : T A :=
  fun w =>
    match m (mkTabWorld (tab_objs w r) (wheap w) (Some (length (tabs (tm w))))) with
    | (res, tw, ev) =>
        (res,
         mkWorld (tm w) (fun r' => if Nat.eqb r' r then self tw else tab_objs w r') (heap tw),
         ev)
    end.

Definition active_tab_idx : T Z := gets (fun w => _active_tab_idx (tm w)).

(** [if t is not None: w = t.active_window; if w is not None: w.focus_changed(b)] *)
Definition focus_tab (t : option nat) (b : bool) : T unit :=
  match t with
  | Some r =>
      w <- get;;
      aw <- lift_result (active_window_of (tab_objs w r));;
      focus_changed aw b
  | None => ret tt
  end.

(** The setter of the [active_tab_idx] property. *)
Definition active_tab_idx_setter (val : Z) : T unit :=
  w <- get;;
  let old_active_tab := py_index (tabs (tm w)) (_active_tab_idx (tm w)) in
  match old_active_tab with
  | Some r => set_tm (fun m => with_history
                        (push_history (tab_id (tab_objs w r)) (active_tab_history m)) m)
  | None => ret tt
  end;;
  set_tm (with_idx (clamp val (length (tabs (tm w)))));;
  w' <- get;;
  let new_active_tab := py_index (tabs (tm w')) (_active_tab_idx (tm w')) in
  if negb (is_ old_active_tab new_active_tab) then
    focus_tab old_active_tab false;;
    focus_tab new_active_tab true
  else ret tt.

Definition mark_tab_bar_dirty : T unit :=
  w <- get;;
  when (1 <? Z.of_nat (length (tabs (tm w)))) (emit EMarkTabBarDirty).

Definition resize (only_tabs : bool) : T unit :=
  (if negb only_tabs then emit ETabBarLayout;; mark_tab_bar_dirty else ret tt);;
  w <- get;;
  for_each (tabs (tm w)) (fun tab => on_tab tab Tab.relayout).

Definition tabbar_visibility_changed : T unit :=
  emit ETabBarLayout;;
  resize true;;
  emit EPostEmptyEvent.

Definition _add_tab (tab : nat) : T unit :=
  w <- get;;
  let before := Z.of_nat (length (tabs (tm w))) in
  set_tm (fun m => with_tabs (tabs m ++ [tab]) m);;
  w' <- get;;
  when ((1 <? Z.of_nat (length (tabs (tm w')))) && (before <? 2))
       tabbar_visibility_changed.

Definition _remove_tab (tab : nat) : T unit :=
  w <- get;;
  let before := Z.of_nat (length (tabs (tm w))) in
  emit (ERemoveTab (tab_id (tab_objs w tab)));;
  match index_of tab (tabs (tm w)) with
  | Some _ => set_tm (fun m => with_tabs (remove_first tab (tabs m)) m)
  | None => raise ValueError
  end;;
  w' <- get;;
  when ((Z.of_nat (length (tabs (tm w'))) <? 2) && (1 <? before))
       tabbar_visibility_changed.

Definition _set_active_tab (idx : Z) : T unit :=
  active_tab_idx_setter idx;;
  emit (ESetActiveTab idx).

(** [self.tabs[self.active_tab_idx] if self.tabs else None] *)
Definition active_tab : T (option nat) :=
  w <- get;;
  match tabs (tm w) with
  | [] => ret None
  | _ => match py_index (tabs (tm w)) (_active_tab_idx (tm w)) with
         | Some r => ret (Some r)
         | None => raise IndexError
         end
  end.

Definition set_active_tab_idx (idx : Z) : T unit :=
  _set_active_tab idx;;
  t <- active_tab;;
  match t with
  | Some r => on_tab r Tab.relayout_borders
  | None => raise AttributeError
  end;;
  mark_tab_bar_dirty.

Definition set_active_tab (tab : nat) : T unit :=
  w <- get;;
  match index_of tab (tabs (tm w)) with
  | Some k => set_active_tab_idx (Z.of_nat k)
  | None => ret tt
  end.

Definition next_tab (delta : Z) : T unit :=
  w <- get;;
  let n := Z.of_nat (length (tabs (tm w))) in
  if 1 <? n then set_active_tab_idx ((_active_tab_idx (tm w) + n + delta) mod n)
  else ret tt.

Definition goto_tab (tab_num : Z) : T unit :=
  w <- get;;
  if (tab_num <? Z.of_nat (length (tabs (tm w)))) && (0 <=? tab_num)
  then set_active_tab_idx tab_num
  else ret tt.

(** [self.tabs[i]] as an expression *)
Definition tabs_get (i : Z) : T nat :=
  w <- get;;
  match py_index (tabs (tm w)) i with
  | Some r => ret r
  | None => raise IndexError
  end.

(** [self.tabs[i] = r] *)
Definition tabs_set (i : Z) (r : nat) : T unit :=
  w <- get;;
  match py_pos (length (tabs (tm w))) i with
  | Some k => set_tm (fun m => with_tabs (list_set (tabs m) k r) m)
  | None => raise IndexError
  end.

Definition move_tab (delta : Z) : T unit :=
  w <- get;;
  let n := Z.of_nat (length (tabs (tm w))) in
  if 1 <? n then
    let idx := _active_tab_idx (tm w) in
    let nidx := (idx + n + delta) mod n in
    a <- tabs_get nidx;;
    b <- tabs_get idx;;
    tabs_set idx a;;
    tabs_set nidx b;;
    emit (ESwapTabs idx nidx);;
    _set_active_tab nidx;;
    mark_tab_bar_dirty
  else ret tt.

(** [new_tab], given the object that the [Tab(...)] constructor returns. *)
Definition new_tab (tab : nat) : T nat :=
  w <- get;;
  let idx := Z.of_nat (length (tabs (tm w))) in
  _add_tab tab;;
  _set_active_tab idx;;
  mark_tab_bar_dirty;;
  tabs_get idx.

Definition remove (tab : nat) : T unit :=
  _remove_tab tab;;
  w <- get;;
  let ids := map (fun r => tab_id (tab_objs w r)) (tabs (tm w)) in
  match reactivation_loop ids (tab_id (tab_objs w tab))
          (rev (active_tab_history (tm w))) with
  | (rest, found) =>
      set_tm (with_history (rev rest));;
      let next_active_tab :=
        if found <? 0
        then clamp (_active_tab_idx (tm w)) (length (tabs (tm w)))
        else found in
      _set_active_tab next_active_tab;;
      mark_tab_bar_dirty;;
      on_tab tab Tab.destroy
  end.

(** [activate_tab_at(x)], given what [self.tab_bar.tab_at(x)] returns. *)
Definition activate_tab_at (i : option Z) : T unit :=
  match i with
  | Some i => set_active_tab_idx i
  | None => ret tt
  end.

(** [tab_for_id(tab_id)]: the first tab with that id, else [None]. *)
Definition tab_for_id (wanted : Z) : T (option nat) :=
  w <- get;;
  ret (find (fun t => tab_id (tab_objs w t) =? wanted) (tabs (tm w))).

(** The [active_window] property of the manager. *)
Definition active_window : T (option nat) :=
  t <- active_tab;;
  match t with
  | Some r => w <- get;; lift_result (active_window_of (tab_objs w r))
  | None => ret None
  end.

(** [__init__], given the tab objects that [Tab(self, session_tab=t)]
    returns for the session's tabs and the session's [active_tab_idx]. *)
Definition __init__ (session_tabs : list nat) (session_active_tab_idx : Z) : T unit :=
  set_tm (fun _ => mkTabManager [] [] 0);;
  for_each session_tabs _add_tab;;
  w <- get;;
  _set_active_tab (clamp session_active_tab_idx (length (tabs (tm w)))).

End WithLayout.
End TabManager.

(** ** The tab bar's summary of the tabs *)

(** Attributes that only [tab_bar_data] reads: a tab's [name], a window's
    [title] and [needs_attention], and the constant [appname]. *)
Record Labels := mkLabels {
  tab_name : nat -> string;
  window_title : nat -> string;
  window_needs_attention : nat -> bool;
  appname : string
}.

(** [TabBarData(title, is_active, is_last, needs_attention)] *)
Record TabBarData := mkTabBarData {
  tbd_title : string;
  tbd_is_active : bool;
  tbd_is_last : bool;
  tbd_needs_attention : bool
}.

(** [x or y] on strings *)
Definition str_or (x y : string) : string :=
  match x with EmptyString => y | _ => x end.

(** The [title] property of a tab:
    [getattr(self.active_window, 'title', appname)] *)
Definition tab_title {L} (lb : Labels) (t : TabObj L) : Result string :=
  match active_window_of t with
  | Ok (Some w) => Ok (window_title lb w)
  | Ok None => Ok (appname lb)
  | Raise x => Raise x
  end.

(** [(t.name or t.title or appname).strip()]; the title is not read when
    the tab has a name. *)
Definition tab_bar_title {L} {text : PyStr} (lb : Labels) (w : World L) (t : nat) : Result string :=
  match tab_name lb t with
  | EmptyString =>
      match tab_title lb (tab_objs w t) with
      | Ok ti => Ok (str_strip (str_or ti (appname lb)))
      | Raise x => Raise x
      end
  | name => Ok (str_strip name)
  end.

(** The body of the loop of [tab_bar_data] for the tab [t]. *)
Definition tab_bar_entry {L} {text : PyStr} (lb : Labels) (w : World L) (at_ : option nat) (t : nat)
  : Result TabBarData :=
  match tab_bar_title lb w t with
  | Ok title =>
      Ok (mkTabBarData title
            (is_ (Some t) at_)
            (is_ (Some t) (py_index (tabs (tm w)) (-1)))
            (existsb (window_needs_attention lb) (windows (tab_objs w t))))
  | Raise x => Raise x
  end.

Fixpoint tab_bar_entries {L} {text : PyStr} (lb : Labels) (w : World L) (at_ : option nat)
    (ts : list nat) : Result (list TabBarData) :=
  match ts with
  | [] => Ok []
  | t :: r =>
      match tab_bar_entry lb w at_ t with
      | Ok d => match tab_bar_entries lb w at_ r with
                | Ok ds => Ok (d :: ds)
                | Raise x => Raise x
                end
      | Raise x => Raise x
      end
  end.

(** The [tab_bar_data] property of the manager. *)
Definition tab_bar_data {L} {text : PyStr} (lb : Labels) (w : World L) : Result (list TabBarData) :=
  match tabs (tm w) with
  | [] => Ok []
  | _ =>
      match py_index (tabs (tm w)) (_active_tab_idx (tm w)) with
      | Some at_ => tab_bar_entries lb w (Some at_) (tabs (tm w))
      | None => Raise IndexError
      end
  end.

(** ** Operation sequences *)

(** The public operations of a [Tab] that insert, remove, move or select
    windows, or switch and reapply the layout. *)
Inductive TabOp :=
| OpNewWindow (overlay_for_arg : option Z) (new_id : Z)
| OpRemoveWindow (window : nat)
| OpCloseWindow
| OpSetActiveWindowIdx (idx : Z)
| OpSetActiveWindow (window : nat)
| OpNthWindow (num : Z)
| OpNextWindow
| OpPreviousWindow
| OpMoveWindow (delta : Z)
| OpMoveWindowToTop
| OpMoveWindowForward
| OpMoveWindowBackward
| OpRelayout
| OpNextLayout
| OpGotoLayout (name : string)
| OpResizeWindowBy (window_id increment : Z) (is_horizontal : bool)
| OpResetWindowSizes
| OpDestroy.

Inductive ManagerOp :=
| OpSetActiveTabIdx (idx : Z)
| OpSetActiveTab (tab : nat)
| OpNextTab (delta : Z)
| OpGotoTab (tab_num : Z)
| OpMoveTab (delta : Z)
| OpNewTab (tab : nat)
| OpRemove (tab : nat)
| OpActivateTabAt (i : option Z)
| OpResize (only_tabs : bool).

(** The states a caller observes after each operation of a sequence; an
    operation that raises leaves the state it had reached. *)
Fixpoint states_after {S Op} (run : Op -> M S unit) (ops : list Op) (s : S) : list S :=
  match ops with
  | [] => []
  | op :: r => let s' := state_of (run op s) in s' :: states_after run r s'
  end.

Definition void {S A} (m : M S A) : M S unit := _ <- m;; ret tt.

Definition run_tab_op {L} `{LayoutStrategy L} {text : PyStr} (op : TabOp) : M (TabWorld L) unit :=
  match op with
  | OpNewWindow ov new_id => void (Tab.new_window ov new_id)
  | OpRemoveWindow w => Tab.remove_window w
  | OpCloseWindow => Tab.close_window
  | OpSetActiveWindowIdx i => Tab.set_active_window_idx i
  | OpSetActiveWindow w => Tab.set_active_window w
  | OpNthWindow n => Tab.nth_window n
  | OpNextWindow => Tab.next_window
  | OpPreviousWindow => Tab.previous_window
  | OpMoveWindow d => Tab.move_window d
  | OpMoveWindowToTop => Tab.move_window_to_top
  | OpMoveWindowForward => Tab.move_window_forward
  | OpMoveWindowBackward => Tab.move_window_backward
  | OpRelayout => Tab.relayout
  | OpNextLayout => Tab.next_layout
  | OpGotoLayout name => Tab.goto_layout name
  | OpResizeWindowBy wid inc hz => void (Tab.resize_window_by wid inc hz)
  | OpResetWindowSizes => Tab.reset_window_sizes
  | OpDestroy => Tab.destroy
  end.

Definition run_manager_op {L} `{LayoutStrategy L} (op : ManagerOp) : M (World L) unit :=
  match op with
  | OpSetActiveTabIdx i => TabManager.set_active_tab_idx i
  | OpSetActiveTab t => TabManager.set_active_tab t
  | OpNextTab d => TabManager.next_tab d
  | OpGotoTab n => TabManager.goto_tab n
  | OpMoveTab d => TabManager.move_tab d
  | OpNewTab t => void (TabManager.new_tab t)
  | OpRemove t => TabManager.remove t
  | OpActivateTabAt i => TabManager.activate_tab_at i
  | OpResize b => TabManager.resize b
  end.

(** ** Properties named by the specification *)

(** Invariant I1 of a tab. *)
Definition I1 {L} (t : TabObj L) : Prop :=
  windows t = [] \/ 0 <= _active_window_idx t < Z.of_nat (length (windows t)).

(** Invariant I1' of a manager. *)
Definition I1' (m : TabManagerObj) : Prop :=
  tabs m = [] \/ 0 <= _active_tab_idx m < Z.of_nat (length (tabs m)).

Definition is_focus_call (e : Event) : bool :=
  match e with EFocusChanged _ _ => true | _ => false end.

Definition focus_calls (ev : list Event) : list Event := filter is_focus_call ev.

Definition is_layout_call (e : Event) : bool :=
  match e with ELayout _ | ECreateLayout _ => true | _ => false end.

Definition is_tab_bar_layout (e : Event) : bool :=
  match e with ETabBarLayout => true | _ => false end.

Definition is_swap_tabs (e : Event) : bool :=
  match e with ESwapTabs _ _ => true | _ => false end.

Definition notify (w : option nat) (b : bool) : list Event :=
  match w with Some r => [EFocusChanged r b] | None => [] end.

(** The notifications the specification prescribes for a switch from
    [old] to [new]. *)
Definition spec_focus_calls (old new : option nat) : list Event :=
  if is_ old new then [] else notify old false ++ notify new true.

(** The window a tab reference resolves to, for the manager's setter. *)
Definition tab_window {L} (w : World L) (t : option nat) : option nat :=
  match t with
  | Some r => match active_window_of (tab_objs w r) with
              | Ok aw => aw
              | Raise _ => None
              end
  | None => None
  end.

(** Every tab of the manager satisfies I1, and two different tab objects
    share no window. *)
Definition tabs_wf {L} (w : World L) : Prop :=
  (forall r, In r (tabs (tm w)) -> I1 (tab_objs w r)) /\
  (forall r1 r2 x, In r1 (tabs (tm w)) -> In r2 (tabs (tm w)) -> r1 <> r2 ->
     In x (windows (tab_objs w r1)) -> ~ In x (windows (tab_objs w r2))).

(** Only allocated window objects are in the deque. *)
Definition heap_wf {L} (w : TabWorld L) : Prop :=
  forall r, In r (windows (self w)) -> (r < next_ref (heap w))%nat.

(** Case-insensitive comparison of ASCII names, character by character:
    two characters agree when they are equal or when one is a capital
    letter and the other the small letter 32 places further. *)
Definition is_capital (c : ascii) : bool :=
  (Nat.leb 65 (nat_of_ascii c) && Nat.leb (nat_of_ascii c) 90)%bool.

Definition same_letter (a b : ascii) : bool :=
  (Nat.eqb (nat_of_ascii a) (nat_of_ascii b)
   || (is_capital a && Nat.eqb (nat_of_ascii b) (nat_of_ascii a + 32))
   || (is_capital b && Nat.eqb (nat_of_ascii a) (nat_of_ascii b + 32)))%bool.

Fixpoint equal_ignoring_case (s1 s2 : string) : bool :=
  match s1, s2 with
  | EmptyString, EmptyString => true
  | String a r1, String b r2 => same_letter a b && equal_ignoring_case r1 r2
  | _, _ => false
  end.

Fixpoint has_no_capital (s : string) : bool :=
  match s with
  | EmptyString => true
  | String c r => negb (is_capital c) && has_no_capital r
  end.

(** [t] is [s] without its leading and trailing white space: what is cut
    off at either end is white space only, and [t] neither starts nor ends
    with white space. *)
Fixpoint all_space (s : string) : bool :=
  match s with
  | EmptyString => true
  | String c r => is_space c && all_space r
  end.

Definition starts_with_space (s : string) : bool :=
  match s with
  | String c _ => is_space c
  | EmptyString => false
  end.

Fixpoint ends_with_space (s : string) : bool :=
  match s with
  | EmptyString => false
  | String c EmptyString => is_space c
  | String _ r => ends_with_space r
  end.

Definition stripped_of (s t : string) : Prop :=
  exists pre post,
    s = (pre ++ t ++ post)%string /\
    all_space pre = true /\ all_space post = true /\
    starts_with_space t = false /\ ends_with_space t = false.

(** The string [tab_bar_data] strips for the tab [t]:
    [t.name or t.title or appname], where [t.title] is the title of the
    active window, or [appname] for a tab without windows. *)
Definition title_source {L} (lb : Labels) (w : World L) (t : nat) (src : string) : Prop :=
  (tab_name lb t <> EmptyString -> src = tab_name lb t) /\
  (tab_name lb t = EmptyString -> windows (tab_objs w t) = [] -> src = appname lb) /\
  (tab_name lb t = EmptyString -> windows (tab_objs w t) <> [] ->
   exists aw,
     py_index (windows (tab_objs w t)) (_active_window_idx (tab_objs w t)) = Some aw /\
     src = match window_title lb aw with
           | EmptyString => appname lb
           | title => title
           end).


(** The specification's reading of reactivation after a removal: the most
    recent history entry that is not the removed tab's id and is the id of a
    tab that still exists; the result is that tab's position. *)
Definition survives (ids : list Z) (removed : Z) (x : Z) : bool :=
  negb (x =? removed) && existsb (Z.eqb x) ids.

Definition spec_reactivation_target (ids : list Z) (removed : Z) (history : list Z)
  : option Z :=
  match find (survives ids removed) (rev history) with
  | Some x => position_of_id x ids 0
  | None => None
  end.

(** The [n] most recent entries of a history. *)
Definition most_recent (n : nat) (h : list Z) : list Z :=
  skipn (length h - n) h.

(** ** Weakest preconditions and Hoare triples for the monad

    [wp m Q E V s]: run from [s], [m] ends in a state satisfying [Q] when it
    returns and [E] when it raises, and every external call it makes
    satisfies [V]. *)
Definition wp {S A} (m : M S A) (Q : A -> S -> Prop) (E : S -> Prop)
    (V : Event -> Prop) (s : S) : Prop :=
  match m s with
  | (Ok a, s', ev) => Q a s' /\ Forall V ev
  | (Raise _, s', ev) => E s' /\ Forall V ev
  end.

Definition hoare {S A} (P : S -> Prop) (m : M S A)
    (Q : A -> S -> Prop) (E : S -> Prop) (V : Event -> Prop) : Prop :=
  forall s, P s -> wp m Q E V s.

(** The external calls a [Tab] method can make. *)
Definition is_tab_event (e : Event) : bool :=
  match e with
  | ETabBarLayout | ESetActiveTab _ | ESwapTabs _ _ | ERemoveTab _ => false
  | _ => true
  end.

Definition tab_event (e : Event) : Prop := is_tab_event e = true.

(** The external calls that are not [swap_tabs]. *)
Definition not_swap (e : Event) : Prop := is_swap_tabs e = false.

(** ** A small layout strategy, for concrete runs *)

#[export] Instance stack_layout : LayoutStrategy unit := {
  full_name := fun _ => "stack"%string;
  needs_window_borders := fun _ => false;
  create_layout_object_for := fun _ _ => tt;
  layout_call := fun l _ ws i => (l, ws, i);
  layout_add_window := fun l _ ws r _ => (l, ws ++ [r], Z.of_nat (length ws));
  layout_remove_window := fun l _ ws r i => (l, remove_first r ws, i);
  layout_set_active_window := fun l _ ws i => (l, ws, i);
  layout_nth_window := fun l _ ws n => (l, ws, n);
  layout_next_window := fun l _ ws i d => (l, ws, (i + d) mod Z.of_nat (length ws));
  layout_move_window := fun l _ ws i d => (l, ws, i + d);
  bias_increment_for_cell := fun _ _ => 1;
  modify_size_of_window := fun l _ _ _ _ _ => (l, false);
  remove_all_biases := fun l => (l, false)
}.

(** Text handling for concrete runs on ASCII text. *)
Definition ascii_text : PyStr :=
  {| str_lower := ascii_lower;
     str_strip := ascii_strip;
     str_lower_ascii := fun s _ => eq_refl;
     str_strip_ascii := fun s _ => eq_refl |}.

(** Window objects [0], [1], ... with ids [10], [11], ... *)
Definition demo_heap (n : nat) : Heap :=
  mkHeap (fun r => mkWindow (Z.of_nat r + 10) None None) n.

(** A tab with id 1 holding windows [0] and [1], the first one active. *)
Definition demo_tab_world : TabWorld unit :=
  mkTabWorld (mkTab 1 ["stack"%string; "tall"%string] [0%nat; 1%nat] 0 tt)
             (demo_heap 2) (Some 2%nat).

(** Tab objects [r] with id [r + 1], each holding the single window [r]. *)
Definition demo_tabs (r : nat) : TabObj unit :=
  mkTab (Z.of_nat r + 1) ["stack"%string] [r] 0 tt.

(** A manager over the first [n] tab objects, the first one active. *)
Definition demo_world (n : nat) : World unit :=
  mkWorld (mkTabManager (seq 0 n) [] 0) demo_tabs (demo_heap n).

(** The state the [active_window_idx] setter leaves. *)
Definition clamped {L} (val : Z) (s : TabWorld L) : TabWorld L :=
  mkTabWorld (Tab.with_idx (clamp val (length (windows (self s)))) (self s))
             (heap s) (tab_manager_ref s).

(** I1 for the tab of a tab-level state. *)
Definition I1w {L} (s : TabWorld L) : Prop := I1 (self s).

(** What no [Tab] method other than [new_window] changes: the tab's id, its
    enabled layouts, the window objects and the manager behind the weak
    reference. *)
Definition tab_frame {L} (s s' : TabWorld L) : Prop :=
  tab_id (self s') = tab_id (self s) /\
  enabled_layouts (self s') = enabled_layouts (self s) /\
  heap s' = heap s /\
  tab_manager_ref s' = tab_manager_ref s.

(** The tab-level state a method of tab object [r] starts from when the
    manager calls it. *)
Definition tab_view {L} (w : World L) (r : nat) : TabWorld L :=
  mkTabWorld (tab_objs w r) (wheap w) (Some (length (tabs (tm w)))).

(** The manager-level state once that method has ended in [tw]. *)
Definition put_tab {L} (w : World L) (r : nat) (tw : TabWorld L) : World L :=
  mkWorld (tm w) (fun r' => if Nat.eqb r' r then self tw else tab_objs w r') (heap tw).

(** The identifier pushed by the manager's setter: that of the tab at the
    stored index, when there is one. *)
Definition outgoing_id {L} (w : World L) : option Z :=
  match py_index (tabs (tm w)) (_active_tab_idx (tm w)) with
  | Some r => Some (tab_id (tab_objs w r))
  | None => None
  end.

(** The state the [active_tab_idx] setter leaves. *)
Definition after_setter {L} (val : Z) (w : World L) : World L :=
  mkWorld
    (mkTabManager (tabs (tm w))
       (match outgoing_id w with
        | Some x => push_history x (active_tab_history (tm w))
        | None => active_tab_history (tm w)
        end)
       (clamp val (length (tabs (tm w)))))
    (tab_objs w) (wheap w).

(** No tab object changed its id. *)
Definition same_ids {L} (w w' : World L) : Prop :=
  forall r, tab_id (tab_objs w' r) = tab_id (tab_objs w r).

Definition history_bounded (m : TabManagerObj) : Prop :=
  (length (active_tab_history m) <= 64)%nat.

Definition focus_event (e : Event) : Prop := is_focus_call e = true.

(** What the relayout of tabs leaves alone: the manager object, the ids of
    the tab objects and the window objects. *)
Definition mgr_frame {L} (w w' : World L) : Prop :=
  tm w' = tm w /\ same_ids w w' /\ wheap w' = wheap w.

(** The stored tab index is what clamping it gives: it is 0 for a manager
    without tabs and a valid position otherwise. *)
Definition idx_clamped (m : TabManagerObj) : Prop :=
  clamp (_active_tab_idx m) (length (tabs m)) = _active_tab_idx m.

(** What every public operation of the manager maintains. *)
Definition manager_inv (m : TabManagerObj) : Prop :=
  history_bounded m /\ idx_clamped m.

Definition any_event (e : Event) : Prop := True.

(** The manager once [self.tabs.append(tab)] has run. *)
Definition appended {L} (tab : nat) (w : World L) : World L :=
  mkWorld (TabManager.with_tabs (tabs (tm w) ++ [tab]) (tm w)) (tab_objs w) (wheap w).

(** The manager once [self.tabs.remove(tab)] has run. *)
Definition removed {L} (tab : nat) (w : World L) : World L :=
  mkWorld (TabManager.with_tabs (remove_first tab (tabs (tm w))) (tm w))
          (tab_objs w) (wheap w).

(** The manager once [move_tab] has exchanged the tabs at [idx] and [nidx]. *)
Definition swapped {L} (idx nidx : Z) (w : World L) : World L :=
  match py_index (tabs (tm w)) nidx, py_index (tabs (tm w)) idx with
  | Some a, Some b =>
      mkWorld (TabManager.with_tabs
                 (list_set (list_set (tabs (tm w)) (Z.to_nat idx) a) (Z.to_nat nidx) b)
                 (tm w))
              (tab_objs w) (wheap w)
  | _, _ => w
  end.

(** The index [remove] selects, from the state before the call. *)
Definition reactivated_idx {L} (tab : nat) (w : World L) : Z :=
  let tabs' := remove_first tab (tabs (tm w)) in
  let ids := map (fun r => tab_id (tab_objs w r)) tabs' in
  match spec_reactivation_target ids (tab_id (tab_objs w tab))
          (active_tab_history (tm w)) with
  | Some i => i
  | None => clamp (_active_tab_idx (tm w)) (length tabs')
  end.

(** [new_window] with an overlay target is the one window operation whose
    lookup can fail. *)
Definition has_overlay_target (op : TabOp) : bool :=
  match op with
  | OpNewWindow (Some _) _ => true
  | _ => false
  end.

(** The calls a tab may make given what its weak reference resolves to:
    borders and title bars are touched only while the manager is alive, and
    the tab bar is marked dirty only when the manager has several tabs. *)
Definition chrome_ok (tm_ref : option nat) (e : Event) : bool :=
  match e with
  | EBorders _ _ | EChangeTitlebarColor _ =>
      match tm_ref with Some _ => true | None => false end
  | EMarkTabBarDirty =>
      match tm_ref with Some n => 1 <? Z.of_nat n | None => false end
  | ETabBarLayout | ESetActiveTab _ | ESwapTabs _ _ | ERemoveTab _ => false
  | _ => true
  end.

Definition chrome (tm_ref : option nat) (e : Event) : Prop := chrome_ok tm_ref e = true.

(** The weak reference of the tab resolves to [tm_ref]. *)
Definition manager_is {L} (tm_ref : option nat) (s : TabWorld L) : Prop :=
  tab_manager_ref s = tm_ref.

(** How often [tab_bar.layout()] was called. *)
Definition tab_bar_layouts (ev : list Event) : nat :=
  length (filter is_tab_bar_layout ev).

(** Labels for concrete runs: the second tab is named, and only window [1]
    asks for attention. *)
Definition demo_labels : Labels :=
  mkLabels (fun t => if Nat.eqb t 1 then "  logs "%string else EmptyString)
           (fun w => if Nat.eqb w 0 then "vim"%string else EmptyString)
           (fun w => Nat.eqb w 1)
           "kitty"%string.

(** What a relayout of some tabs achieves: the manager object, the ids and
    the window objects are as before, and no tab object lost I1. *)
Definition relaid {L} (w w' : World L) : Prop :=
  mgr_frame w w' /\ (forall t, I1 (tab_objs w t) -> I1 (tab_objs w' t)).

Arguments clamp : simpl never.
Arguments py_index : simpl never.
Arguments py_pos : simpl never.
Arguments push_history : simpl never.

(** * Proofs *)

(** ** Text *)

Lemma nat_of_ascii_inj (a b : ascii) : nat_of_ascii a = nat_of_ascii b -> a = b.
Proof.
  intros E. rewrite <- (ascii_nat_embedding a), <- (ascii_nat_embedding b). now rewrite E.
Qed.

Lemma nat_of_ascii_lower_char (c : ascii) :
  nat_of_ascii (ascii_lower_char c)
  = (if is_capital c then nat_of_ascii c + 32 else nat_of_ascii c)%nat.
Proof.
  unfold ascii_lower_char, is_capital.
  destruct (Nat.leb 65 (nat_of_ascii c) && Nat.leb (nat_of_ascii c) 90)%bool eqn:E;
    [| reflexivity].
  apply andb_true_iff in E. destruct E as [_ E]. apply Nat.leb_le in E.
  apply nat_ascii_embedding. lia.
Qed.

Lemma same_letter_lower (a b : ascii) :
  ascii_lower_char a = ascii_lower_char b <-> same_letter a b = true.
Proof.
  split.
  - intros E. apply (f_equal nat_of_ascii) in E.
    rewrite !nat_of_ascii_lower_char in E. unfold same_letter.
    unfold is_capital in *.
    destruct (Nat.leb_spec 65 (nat_of_ascii a)), (Nat.leb_spec (nat_of_ascii a) 90),
             (Nat.leb_spec 65 (nat_of_ascii b)), (Nat.leb_spec (nat_of_ascii b) 90);
      cbn [andb orb] in *;
      repeat match goal with
             | |- context [Nat.eqb ?x ?y] => destruct (Nat.eqb_spec x y)
             end; cbn [andb orb]; try reflexivity; lia.
  - intros E. apply nat_of_ascii_inj. rewrite !nat_of_ascii_lower_char.
    unfold same_letter, is_capital in *.
    destruct (Nat.leb_spec 65 (nat_of_ascii a)), (Nat.leb_spec (nat_of_ascii a) 90),
             (Nat.leb_spec 65 (nat_of_ascii b)), (Nat.leb_spec (nat_of_ascii b) 90);
      cbn [andb orb] in *;
      repeat match type of E with
             | context [Nat.eqb ?x ?y] => destruct (Nat.eqb_spec x y)
             end; cbn [andb orb] in E; try discriminate; lia.
Qed.

(** Two names have the same lower-case form exactly when they are equal up
    to the case of their letters. *)
Lemma ascii_lower_eq (s1 s2 : string) :
  ascii_lower s1 = ascii_lower s2 <-> equal_ignoring_case s1 s2 = true.
Proof.
  revert s2. induction s1 as [| a r1 IH]; intros [| b r2]; simpl;
    try (split; [discriminate | discriminate]); [split; reflexivity |].
  rewrite andb_true_iff, <- same_letter_lower, <- IH.
  split; [intros [= E1 E2]; auto | intros [-> ->]; reflexivity].
Qed.

Lemma has_no_capital_lower (s : string) :
  has_no_capital s = true -> ascii_lower s = s.
Proof.
  induction s as [| c r IH]; simpl; [reflexivity |].
  rewrite andb_true_iff, negb_true_iff. intros [Hc Hr].
  rewrite (IH Hr). f_equal. unfold ascii_lower_char. unfold is_capital in Hc.
  now rewrite Hc.
Qed.

Lemma ascii_lower_has_no_capital (s : string) : has_no_capital (ascii_lower s) = true.
Proof.
  induction s as [| c r IH]; simpl; [reflexivity |]. rewrite IH, andb_true_r.
  apply negb_true_iff. unfold is_capital. rewrite nat_of_ascii_lower_char.
  unfold is_capital.
  destruct (Nat.leb_spec 65 (nat_of_ascii c)), (Nat.leb_spec (nat_of_ascii c) 90);
    cbn [andb];
    repeat match goal with
           | |- context [Nat.leb ?x ?y] => destruct (Nat.leb_spec x y)
           end; cbn [andb]; try reflexivity; lia.
Qed.

Lemma ascii_lower_idem (s : string) : ascii_lower (ascii_lower s) = ascii_lower s.
Proof. apply has_no_capital_lower, ascii_lower_has_no_capital. Qed.

Lemma equal_ignoring_case_lower (s : string) :
  equal_ignoring_case s (ascii_lower s) = true.
Proof. apply ascii_lower_eq. symmetry. apply ascii_lower_idem. Qed.

Lemma ascii_lstrip_spec (s : string) :
  exists pre, s = (pre ++ ascii_lstrip s)%string /\ all_space pre = true /\
              starts_with_space (ascii_lstrip s) = false.
Proof.
  induction s as [| c r IH]; simpl.
  - exists EmptyString. auto.
  - destruct (is_space c) eqn:Ec.
    + destruct IH as (pre & Hs & Hp & Hst). exists (String c pre). simpl.
      rewrite Ec, Hp. repeat split; [now rewrite <- Hs | exact Hst].
    + exists EmptyString. simpl. auto.
Qed.

Lemma ascii_rstrip_split (s : string) :
  exists post, s = (ascii_rstrip s ++ post)%string /\ all_space post = true /\
               ends_with_space (ascii_rstrip s) = false.
Proof.
  induction s as [| c r IH]; simpl.
  - exists EmptyString. auto.
  - destruct IH as (post & Hs & Hp & He).
    destruct (ascii_rstrip r) as [| c' r'] eqn:Er.
    + simpl in Hs. subst r. destruct (is_space c) eqn:Ec.
      * exists (String c post). simpl. rewrite Ec, Hp. auto.
      * exists post. simpl. rewrite Ec. auto.
    + exists post. simpl in *. rewrite <- Hs. auto.
Qed.

Lemma ascii_rstrip_start (s : string) :
  starts_with_space s = false -> starts_with_space (ascii_rstrip s) = false.
Proof.
  destruct s as [| c r]; simpl; [reflexivity |]. intros Hc.
  destruct (ascii_rstrip r); [rewrite Hc |]; simpl; auto.
Qed.

(** [ascii_strip] cuts off white space only, and all of it. *)
Lemma ascii_strip_spec (s : string) : stripped_of s (ascii_strip s).
Proof.
  unfold ascii_strip. destruct (ascii_lstrip_spec s) as (pre & Hs & Hp & Hst).
  destruct (ascii_rstrip_split (ascii_lstrip s)) as (post & Hs' & Hq & He).
  exists pre, post. repeat split; auto.
  - now rewrite <- Hs'.
  - now apply ascii_rstrip_start.
Qed.


(** ** Python indexing and clamping *)

Lemma clamp_range (val : Z) (n : nat) :
  (0 < n)%nat -> 0 <= clamp val n < Z.of_nat n.
Proof. unfold clamp. lia. Qed.

Lemma clamp_zero (val : Z) : clamp val 0 = 0.
Proof. unfold clamp. simpl. lia. Qed.

Lemma clamp_id (i : Z) (n : nat) : 0 <= i < Z.of_nat n -> clamp i n = i.
Proof. unfold clamp. lia. Qed.

Lemma py_pos_in_range (n : nat) (i : Z) :
  0 <= i < Z.of_nat n -> py_pos n i = Some (Z.to_nat i).
Proof.
  intros Hi. unfold py_pos.
  destruct (0 <=? i) eqn:E1; [| apply Z.leb_gt in E1; lia].
  destruct (i <? Z.of_nat n) eqn:E2; [| apply Z.ltb_ge in E2; lia].
  reflexivity.
Qed.

Lemma py_pos_lt (n : nat) (i : Z) (k : nat) :
  py_pos n i = Some k -> (k < n)%nat.
Proof.
  unfold py_pos.
  destruct (0 <=? i) eqn:E1, (i <? Z.of_nat n) eqn:E2; simpl;
    try (apply Z.leb_le in E1); try (apply Z.ltb_lt in E2);
    try (intros [= <-]; lia);
    destruct (i <? 0) eqn:E3, (- Z.of_nat n <=? i) eqn:E4; simpl;
    try discriminate;
    apply Z.ltb_lt in E3; apply Z.leb_le in E4; intros [= <-]; lia.
Qed.

Lemma py_index_in_range {A} (l : list A) (i : Z) :
  0 <= i < Z.of_nat (length l) -> py_index l i = nth_error l (Z.to_nat i).
Proof. intros Hi. unfold py_index. now rewrite py_pos_in_range. Qed.

Lemma py_index_some {A} (l : list A) (i : Z) :
  0 <= i < Z.of_nat (length l) -> exists x, py_index l i = Some x.
Proof.
  intros Hi. rewrite py_index_in_range by assumption.
  destruct (nth_error l (Z.to_nat i)) eqn:E; [eauto |].
  apply nth_error_None in E. lia.
Qed.

Lemma py_index_In {A} (l : list A) (i : Z) (x : A) :
  py_index l i = Some x -> In x l.
Proof.
  unfold py_index. destruct (py_pos (length l) i); [| discriminate].
  apply nth_error_In.
Qed.

Lemma py_index_nil {A} (i : Z) : py_index (@nil A) i = None.
Proof.
  unfold py_index. destruct (py_pos (length (@nil A)) i) eqn:E; [| reflexivity].
  apply py_pos_lt in E. simpl in E. lia.
Qed.

Lemma py_index_clamp {A} (l : list A) (val : Z) :
  l <> [] -> exists x, py_index l (clamp val (length l)) = Some x.
Proof.
  intros Hl. apply py_index_some. apply clamp_range.
  destruct l; [congruence | simpl; lia].
Qed.

Lemma is_refl (a : option nat) : is_ a a = true.
Proof. destruct a; simpl; [apply Nat.eqb_refl | reflexivity]. Qed.

Lemma is_true_eq (a b : option nat) : is_ a b = true -> a = b.
Proof.
  destruct a, b; simpl; try discriminate; try reflexivity.
  intros E. apply Nat.eqb_eq in E. now subst.
Qed.

(** ** Rules for [wp] *)

Section WpRules.
Context {S : Type}.
Variables (E : S -> Prop) (V : Event -> Prop).

Lemma wp_ret {A} (a : A) (Q : A -> S -> Prop) s :
  Q a s -> wp (ret a) Q E V s.
Proof. intros HQ. unfold wp, ret. auto. Qed.

Lemma wp_raise {A} x (Q : A -> S -> Prop) s :
  E s -> wp (raise x) Q E V s.
Proof. intros HE. unfold wp, raise. auto. Qed.

Lemma wp_bind {A B} (m : M S A) (f : A -> M S B) (Q : B -> S -> Prop) s :
  wp m (fun a s' => wp (f a) Q E V s') E V s -> wp (bind m f) Q E V s.
Proof.
  unfold wp, bind. destruct (m s) as [[[a | x] s1] e1].
  - intros [Hf He1]. destruct (f a s1) as [[[b | y] s2] e2];
      destruct Hf as [Hq He2]; split; auto; apply Forall_app; auto.
  - auto.
Qed.

Lemma wp_get (Q : S -> S -> Prop) s : Q s s -> wp get Q E V s.
Proof. intros HQ. unfold wp, get. auto. Qed.

Lemma wp_gets {A} (f : S -> A) (Q : A -> S -> Prop) s :
  Q (f s) s -> wp (gets f) Q E V s.
Proof. intros HQ. unfold wp, gets. auto. Qed.

Lemma wp_modify (f : S -> S) (Q : unit -> S -> Prop) s :
  Q tt (f s) -> wp (modify f) Q E V s.
Proof. intros HQ. unfold wp, modify. auto. Qed.

Lemma wp_emit (e : Event) (Q : unit -> S -> Prop) s :
  V e -> Q tt s -> wp (emit e) Q E V s.
Proof. intros HV HQ. unfold wp, emit. auto. Qed.

Lemma wp_when (b : bool) (m : M S unit) (Q : unit -> S -> Prop) s :
  (b = true -> wp m Q E V s) -> (b = false -> Q tt s) -> wp (when b m) Q E V s.
Proof. destruct b; simpl; intros H1 H2; [auto | apply wp_ret; auto]. Qed.

Lemma wp_lift_result {A} (r : Result A) (Q : A -> S -> Prop) s :
  match r with Ok a => Q a s | Raise _ => E s end -> wp (lift_result r) Q E V s.
Proof. destruct r; simpl; [apply wp_ret | apply wp_raise]. Qed.

Lemma wp_for_each {A} (xs : list A) (body : A -> M S unit) (I : S -> Prop) s :
  (forall x s', In x xs -> I s' -> wp (body x) (fun _ => I) E V s') ->
  I s -> wp (for_each xs body) (fun _ => I) E V s.
Proof.
  revert s. induction xs as [| x r IH]; intros s Hb Hs; simpl.
  - now apply wp_ret.
  - apply wp_bind. unfold wp.
    specialize (Hb x s (or_introl eq_refl) Hs) as Hx. unfold wp in Hx.
    destruct (body x s) as [[[[] | y] s1] e1]; [| exact Hx].
    destruct Hx as [Hi He]. split; [| exact He].
    apply IH; [| exact Hi]. intros x' s' Hin. apply Hb. now right.
Qed.

End WpRules.

Lemma wp_mono {S A} (m : M S A) (Q Q' : A -> S -> Prop) (E E' : S -> Prop)
    (V V' : Event -> Prop) s :
  wp m Q E V s ->
  (forall a s', Q a s' -> Q' a s') -> (forall s', E s' -> E' s') ->
  (forall e, V e -> V' e) ->
  wp m Q' E' V' s.
Proof.
  unfold wp. destruct (m s) as [[[a | x] s1] e1]; intros [H1 H2] HQ HE HV;
    (split; [auto | eapply Forall_impl; eauto]).
Qed.

(** What [wp] says about the three components of a run. *)
Lemma wp_run {S A} (m : M S A) Q E V (s : S) :
  wp m Q E V s ->
  match result_of (m s) with
  | Ok a => Q a (state_of (m s))
  | Raise _ => E (state_of (m s))
  end /\ Forall V (events_of (m s)).
Proof.
  unfold wp, result_of, state_of, events_of.
  destruct (m s) as [[[a | x] s1] e1]; simpl; auto.
Qed.

(** ** The primitives of [Tab] *)

Section TabPrimitives.
Context {L : Type} `{LayoutStrategy L}.

Lemma focus_changed_run {S} (w : option nat) (b : bool) (s : S) :
  focus_changed w b s = (Ok tt, s, notify w b).
Proof. destruct w; reflexivity. Qed.

Lemma active_window_of_clamped (val : Z) (t : TabObj L) :
  active_window_of (Tab.with_idx (clamp val (length (windows t))) t)
  = Ok (py_index (windows t) (clamp val (length (windows t)))).
Proof.
  unfold active_window_of. simpl.
  destruct (windows t) as [| a r] eqn:E.
  - now rewrite py_index_nil.
  - destruct (py_index_clamp (l := a :: r) val) as [x Hx]; [discriminate |].
    now rewrite Hx.
Qed.

(** The setter never raises, leaves the clamped index and nothing else
    changed, and its focus notifications are those of [spec_focus_calls]. *)
Lemma setter_run val (s : TabWorld L) :
  exists ev,
    Tab.active_window_idx_setter val s = (Ok tt, clamped val s, ev) /\
    Forall tab_event ev /\
    focus_calls ev =
      spec_focus_calls (py_index (windows (self s)) (_active_window_idx (self s)))
                       (py_index (windows (self s)) (clamp val (length (windows (self s))))).
Proof.
  unfold Tab.active_window_idx_setter, bind, gets, Tab.set_self, modify, spec_focus_calls.
  simpl.
  destruct (is_ _ _); simpl.
  - eexists; repeat split; constructor.
  - rewrite !focus_changed_run.
    destruct (tab_manager_ref s) as [n |] eqn:Etm.
    + unfold Tab.relayout_borders, Tab.active_window, bind, gets. simpl.
      rewrite active_window_of_clamped. simpl.
      unfold Tab.tm_mark_tab_bar_dirty, when.
      destruct (py_index (windows (self s)) (clamp val _)) as [b |];
        destruct (py_index (windows (self s)) (_active_window_idx (self s))) as [a |];
        destruct (1 <? Z.of_nat n); simpl;
        (eexists; split; [unfold clamped; rewrite Etm; reflexivity |];
         split; [repeat constructor | reflexivity]).
    + destruct (py_index (windows (self s)) (clamp val _)) as [b |];
        destruct (py_index (windows (self s)) (_active_window_idx (self s))) as [a |];
        simpl;
        (eexists; split; [unfold clamped; rewrite Etm; reflexivity |];
         split; [repeat constructor | reflexivity]).
Qed.

Lemma I1_clamped val (s : TabWorld L) : I1w (clamped val s).
Proof.
  unfold I1w, I1, clamped. simpl.
  destruct (windows (self s)) as [| a r]; [now left | right].
  apply clamp_range. simpl. lia.
Qed.

Lemma I1_active_window (t : TabObj L) :
  I1 t -> exists aw, active_window_of t = Ok aw.
Proof.
  unfold I1, active_window_of. intros [Hn | Hr].
  - rewrite Hn. eauto.
  - destruct (windows t) as [| a r] eqn:E; [eauto |].
    destruct (py_index_some (a :: r) Hr) as [x Hx]. rewrite Hx. eauto.
Qed.

Lemma tab_frame_refl (s : TabWorld L) : tab_frame s s.
Proof. unfold tab_frame. auto. Qed.

Lemma tab_frame_trans (s1 s2 s3 : TabWorld L) :
  tab_frame s1 s2 -> tab_frame s2 s3 -> tab_frame s1 s3.
Proof. unfold tab_frame. intuition congruence. Qed.

Lemma tab_frame_clamped val (s : TabWorld L) : tab_frame s (clamped val s).
Proof. unfold tab_frame, clamped. simpl. auto. Qed.

Lemma wp_setter val (Q : unit -> TabWorld L -> Prop) E s :
  Q tt (clamped val s) -> wp (Tab.active_window_idx_setter val) Q E tab_event s.
Proof.
  intros HQ. destruct (setter_run val s) as (ev & Hrun & Hev & _).
  unfold wp. rewrite Hrun. auto.
Qed.

Lemma wp_relayout_borders (Q : unit -> TabWorld L -> Prop) (E : TabWorld L -> Prop) s :
  Q tt s -> (forall x, active_window_of (self s) = Raise x -> E s) ->
  wp Tab.relayout_borders Q E tab_event s.
Proof.
  intros HQ HE. unfold wp, Tab.relayout_borders, Tab.active_window, bind, gets. simpl.
  destruct (tab_manager_ref s); simpl; [| auto].
  destruct (active_window_of (self s)) as [[r |] | x] eqn:Eaw; simpl;
    try (split; [assumption | repeat constructor]).
  split; [eauto | constructor].
Qed.

Lemma wp_call_layout op f (Q : Z -> TabWorld L -> Prop) E s :
  (forall l' ws' i,
     Q i (mkTabWorld (Tab.with_windows ws' (Tab.with_layout l' (self s)))
                     (heap s) (tab_manager_ref s))) ->
  wp (Tab.call_layout op f) Q E tab_event s.
Proof.
  intros HQ. unfold wp, Tab.call_layout, bind, get. simpl.
  destruct (f _ _ _) as [[l' ws'] i]. simpl.
  split; [apply HQ | repeat constructor].
Qed.

End TabPrimitives.

Ltac wp_step :=
  lazymatch goal with
  | |- wp (bind _ _) _ _ _ _ => apply wp_bind
  | |- wp (gets _) _ _ _ _ => apply wp_gets
  | |- wp get _ _ _ _ => apply wp_get
  | |- wp (modify _) _ _ _ _ => apply wp_modify
  | |- wp (ret _) _ _ _ _ => apply wp_ret
  | |- wp (raise _) _ _ _ _ => apply wp_raise
  | |- wp (emit _) _ _ _ _ => apply wp_emit; [reflexivity |]
  | |- wp (void _) _ _ _ _ => unfold void
  | |- wp (Tab.set_self _) _ _ _ _ => apply wp_modify
  | |- wp (Tab.set_heap _) _ _ _ _ => apply wp_modify
  | |- wp Tab.active_window_idx _ _ _ _ => apply wp_gets
  | |- wp Tab.launch_child _ _ _ _ => apply wp_emit; [reflexivity |]
  | |- wp (Tab.active_window_idx_setter _) _ _ _ _ => apply wp_setter
  | |- wp (Tab.call_layout _ _) _ _ _ _ => apply wp_call_layout; intros ? ? ?
  | |- wp (match ?x with _ => _ end) _ _ _ _ => destruct x eqn:?
  end; cbv beta.

Ltac wp_steps := repeat wp_step.

(** ** Index validity of a tab *)

Section TabInvariant.
Context {L : Type} `{LayoutStrategy L}.

Lemma wp_relayout_borders_I1 (Q : unit -> TabWorld L -> Prop) E s :
  I1w s -> Q tt s -> wp Tab.relayout_borders Q E tab_event s.
Proof.
  intros Hi HQ. apply wp_relayout_borders; [assumption |].
  intros x Hx. destruct (I1_active_window Hi) as [aw Haw]. congruence.
Qed.

Lemma I1w_empty (s : TabWorld L) : windows (self s) = [] -> I1w s.
Proof. intros E. now left. Qed.

Lemma wp_relayout (Q : unit -> TabWorld L -> Prop) E s :
  (forall s', I1w s' -> tab_frame s s' -> Q tt s') ->
  wp Tab.relayout Q E tab_event s.
Proof.
  intros HQ. unfold Tab.relayout. wp_steps.
  - apply wp_relayout_borders_I1; [now apply I1w_empty |].
    apply HQ; [now apply I1w_empty | apply tab_frame_refl].
  - apply wp_relayout_borders_I1; [apply I1_clamped |].
    apply HQ; [apply I1_clamped |].
    eapply tab_frame_trans; [| apply tab_frame_clamped].
    unfold tab_frame; simpl; auto.
Qed.

End TabInvariant.

Ltac i1_done :=
  first [ apply I1_clamped
        | assumption
        | match goal with H : I1w _ |- I1w _ => exact H end
        | (apply I1w_empty; reflexivity) ].

Ltac tab_step :=
  first [ wp_step
        | apply wp_relayout; intros ? ? ?
        | apply wp_relayout_borders_I1; [i1_done |] ].

Section TabOperations.
Context {L : Type} `{LayoutStrategy L} {text : PyStr}.

Lemma run_tab_op_I1 (op : TabOp) (s : TabWorld L) :
  I1w s -> wp (run_tab_op op) (fun _ => I1w) I1w tab_event s.
Proof.
  intros Hs. destruct op; simpl;
    unfold Tab.new_window, Tab.new_Window, Tab.remove_window, Tab.close_window,
      Tab.set_active_window, Tab.set_active_window_idx, Tab.nth_window,
      Tab.next_window, Tab.previous_window, Tab._next_window,
      Tab.move_window_to_top, Tab.move_window_forward, Tab.move_window_backward,
      Tab.move_window, Tab.next_layout, Tab.goto_layout, Tab.create_layout_object,
      Tab.resize_window_by, Tab.reset_window_sizes, Tab.destroy, Tab.remove_window, when;
    repeat tab_step; try i1_done.
  eapply wp_mono with (Q := fun _ => I1w) (E := I1w) (V := tab_event).
  - apply wp_for_each.
    + intros x s' _ Hi. apply wp_emit. reflexivity. exact Hi.
    + exact Hs.
  - intros _ s' _. apply wp_modify. now apply I1w_empty.
  - auto.
  - auto.
Qed.

Lemma tab_index_validity (ops : list TabOp) (s : TabWorld L) :
  I1w s -> Forall I1w (states_after run_tab_op ops s).
Proof.
  revert s. induction ops as [| op r IH]; intros s Hs; simpl; constructor.
  - pose proof (run_tab_op_I1 op Hs) as Hw. apply wp_run in Hw. destruct Hw as [Hr _].
    destruct (result_of (run_tab_op op s)); exact Hr.
  - apply IH.
    pose proof (run_tab_op_I1 op Hs) as Hw. apply wp_run in Hw. destruct Hw as [Hr _].
    destruct (result_of (run_tab_op op s)); exact Hr.
Qed.
End TabOperations.

(** ** Overlay linkage, the idle setter call and layout names *)

Section TabFacts.
Context {L : Type} `{LayoutStrategy L} {text : PyStr}.

Lemma find_ext_in {A} (p q : A -> bool) (l : list A) :
  (forall x, In x l -> p x = q x) -> find p l = find q l.
Proof.
  induction l as [| a r IH]; intros Hpq; simpl; [reflexivity |].
  rewrite (Hpq a (or_introl eq_refl)). destruct (q a); [reflexivity |].
  apply IH. intros x Hx. apply Hpq. now right.
Qed.

(** The lookup of the overlaid window is not disturbed by the allocation of
    the new window object. *)
Lemma find_after_alloc (s : TabWorld L) (ov : Z) (o : WindowObj) :
  heap_wf s ->
  find (fun r => win_id (if Nat.eqb r (next_ref (heap s)) then o
                         else objs (heap s) r) =? ov) (windows (self s))
  = find (fun r => win_id (objs (heap s) r) =? ov) (windows (self s)).
Proof.
  intros Hwf. apply find_ext_in. intros r Hr.
  specialize (Hwf r Hr). destruct (Nat.eqb_spec r (next_ref (heap s))); [lia | reflexivity].
Qed.

Lemma new_window_overlay_wp (s : TabWorld L) (ov new_id : Z) (r1 : nat) :
  heap_wf s ->
  In r1 (windows (self s)) ->
  win_id (objs (heap s) r1) = ov ->
  (forall r, In r (windows (self s)) -> win_id (objs (heap s) r) = ov -> r = r1) ->
  wp (Tab.new_window (Some ov) new_id)
     (fun w2 s' =>
        w2 = next_ref (heap s) /\
        win_id (objs (heap s') w2) = new_id /\
        overlay_for (objs (heap s') w2) = Some ov /\
        win_id (objs (heap s') r1) = ov /\
        overlay_window_id (objs (heap s') r1) = Some new_id)
     (fun _ => False) tab_event s.
Proof.
  intros Hwf Hin Hid Huniq.
  assert (Hne : Nat.eqb r1 (next_ref (heap s)) = false).
  { apply Nat.eqb_neq. specialize (Hwf r1 Hin). lia. }
  unfold Tab.new_window, Tab.new_Window. wp_steps.
  - simpl in Heqo. rewrite find_after_alloc in Heqo by assumption.
    apply find_some in Heqo. destruct Heqo as [Hn Hnid].
    apply Z.eqb_eq in Hnid. apply (Huniq _ Hn) in Hnid. subst n.
    apply wp_relayout_borders_I1; [apply I1_clamped |]. wp_steps.
    unfold clamped, heap_set. simpl.
    rewrite !Nat.eqb_refl, !Hne. simpl.
    rewrite (Nat.eqb_sym (next_ref (heap s)) r1), Hne. simpl. auto.
  - simpl in Heqo. rewrite find_after_alloc in Heqo by assumption.
    apply (find_none _ _ Heqo) in Hin. simpl in Hin.
    apply Z.eqb_neq in Hin. congruence.
Qed.

Lemma new_window_missing_overlay (s : TabWorld L) (ov new_id : Z) :
  heap_wf s ->
  (forall r, In r (windows (self s)) -> win_id (objs (heap s) r) <> ov) ->
  exists h',
    Tab.new_window (Some ov) new_id s
    = (Raise StopIteration, mkTabWorld (self s) h' (tab_manager_ref s), [ELaunchChild]).
Proof.
  intros Hwf Hno.
  unfold Tab.new_window, Tab.new_Window, Tab.launch_child, bind, gets, get, emit,
    Tab.set_heap, modify, ret. simpl.
  rewrite find_after_alloc by assumption.
  destruct (find _ _) as [r |] eqn:Ef.
  - apply find_some in Ef. destruct Ef as [Hr Hid]. apply Z.eqb_eq in Hid.
    exfalso. exact (Hno r Hr Hid).
  - simpl. eexists. reflexivity.
Qed.

Lemma set_active_window_idx_same (s : TabWorld L) :
  Tab.set_active_window_idx (_active_window_idx (self s)) s = (Ok tt, s, []).
Proof.
  unfold Tab.set_active_window_idx, Tab.active_window_idx, bind, gets.
  rewrite Z.eqb_refl. reflexivity.
Qed.

Lemma str_in_In (x : string) (l : list string) : str_in x l = true <-> In x l.
Proof.
  unfold str_in. rewrite existsb_exists. split.
  - intros (y & Hy & E). apply String.eqb_eq in E. now subst.
  - intros Hx. exists x. split; [exact Hx | apply String.eqb_refl].
Qed.

(** On ASCII names, [lower] identifies exactly the names that are equal up
    to the case of their letters. *)
Lemma str_lower_ignoring_case (n1 n2 : string) :
  is_ascii n1 = true -> is_ascii n2 = true ->
  (str_lower n1 = str_lower n2 <-> equal_ignoring_case n1 n2 = true).
Proof.
  intros H1 H2. rewrite (str_lower_ascii n1 H1), (str_lower_ascii n2 H2).
  apply ascii_lower_eq.
Qed.

Lemma str_lower_small (name l : string) :
  is_ascii name = true -> has_no_capital l = true ->
  equal_ignoring_case name l = true -> str_lower name = l.
Proof.
  intros Hn Hl E. rewrite (str_lower_ascii name Hn).
  apply ascii_lower_eq in E. rewrite E. now apply has_no_capital_lower.
Qed.

Lemma goto_layout_case (n1 n2 : string) (s : TabWorld L) :
  str_lower n1 = str_lower n2 -> Tab.goto_layout n1 s = Tab.goto_layout n2 s.
Proof. intros E. unfold Tab.goto_layout. now rewrite E. Qed.

Lemma goto_layout_unknown (name : string) (s : TabWorld L) :
  str_in (str_lower name) (enabled_layouts (self s)) = false ->
  Tab.goto_layout name s
  = (Ok tt, s, [ELogError ("Unknown or disabled layout: " ++ str_lower name)%string]).
Proof.
  intros Hn. unfold Tab.goto_layout, bind, gets. rewrite Hn. reflexivity.
Qed.

(** An enabled layout is created, installed and laid out. *)
Lemma goto_layout_known (name : string) (s : TabWorld L) :
  str_in (str_lower name) (enabled_layouts (self s)) = true ->
  exists s' ev,
    Tab.goto_layout name s = (Ok tt, s', ECreateLayout (str_lower name) :: ev).
Proof.
  intros Hn.
  pose proof (@wp_relayout L _ (fun _ _ => True) (fun _ => False)
                (mkTabWorld (Tab.with_layout
                               (create_layout_object_for (str_lower name) (tab_id (self s)))
                               (self s)) (heap s) (tab_manager_ref s))
                (fun _ _ _ => I)) as Hw.
  unfold wp in Hw.
  unfold Tab.goto_layout, Tab.create_layout_object, Tab.set_self, bind, gets, modify, emit, ret.
  simpl. rewrite Hn. simpl.
  destruct (Tab.relayout _) as [[[[] | x] s'] ev]; [| destruct Hw as [[] _]].
  exists s', ev. reflexivity.
Qed.

Lemma goto_layout_never_raises (name : string) (s : TabWorld L) :
  wp (Tab.goto_layout name) (fun _ s' => I1w s' \/ s' = s) (fun _ => False) tab_event s.
Proof.
  unfold Tab.goto_layout, Tab.create_layout_object. wp_steps.
  - now right.
  - apply wp_relayout. intros s' Hi _. now left.
Qed.
End TabFacts.

(** ** The primitives of [TabManager] *)

Section ManagerPrimitives.
Context {L : Type} `{LayoutStrategy L}.

Lemma wp_on_tab {A} (r : nat) (m : M (TabWorld L) A)
    (Qt : A -> TabWorld L -> Prop) (Et : TabWorld L -> Prop)
    (Q : A -> World L -> Prop) (E : World L -> Prop) (V : Event -> Prop) w :
  wp m Qt Et tab_event (tab_view w r) ->
  (forall a tw, Qt a tw -> Q a (put_tab w r tw)) ->
  (forall tw, Et tw -> E (put_tab w r tw)) ->
  (forall e, tab_event e -> V e) ->
  wp (TabManager.on_tab r m) Q E V w.
Proof.
  unfold wp, TabManager.on_tab, tab_view, put_tab.
  destruct (m _) as [[[a | x] tw] ev]; intros [H1 H2] HQ HE HV;
    (split; [auto | eapply Forall_impl; eauto]).
Qed.

Lemma on_tab_tm {A} (r : nat) (m : M (TabWorld L) A) w :
  tm (state_of (TabManager.on_tab r m w)) = tm w.
Proof.
  unfold TabManager.on_tab, state_of. destruct (m _) as [[res tw] ev]. reflexivity.
Qed.

Lemma focus_tab_run (t : option nat) (b : bool) (w : World L) :
  exists res ev,
    TabManager.focus_tab t b w = (res, w, ev) /\ Forall focus_event ev /\
    (forall aw, match t with
                | Some r => active_window_of (tab_objs w r) = Ok aw
                | None => aw = None
                end -> res = Ok tt /\ ev = notify aw b).
Proof.
  unfold TabManager.focus_tab. destruct t as [r |].
  - unfold bind, get. simpl.
    destruct (active_window_of (tab_objs w r)) as [[a |] | x]; simpl.
    + do 2 eexists. split; [reflexivity |]. split; [repeat constructor |].
      intros aw [= <-]. auto.
    + do 2 eexists. split; [reflexivity |]. split; [repeat constructor |].
      intros aw [= <-]. auto.
    + do 2 eexists. split; [reflexivity |]. split; [constructor |].
      intros aw Haw. discriminate.
  - do 2 eexists. split; [reflexivity |]. split; [constructor |].
    intros aw ->. auto.
Qed.

(** The manager's setter always ends in [after_setter], also when reading a
    tab's active window raises; it only makes focus calls, and when the
    active windows of the two tabs can be read these calls are the ones for
    switching between the two tabs. *)
Lemma mgr_setter_run (val : Z) (w : World L) :
  let old := py_index (tabs (tm w)) (_active_tab_idx (tm w)) in
  let new := py_index (tabs (tm w)) (clamp val (length (tabs (tm w)))) in
  exists res ev,
    TabManager.active_tab_idx_setter val w = (res, after_setter val w, ev) /\
    Forall focus_event ev /\
    ((forall t, old = Some t -> exists aw, active_window_of (tab_objs w t) = Ok aw) ->
     (forall t, new = Some t -> exists aw, active_window_of (tab_objs w t) = Ok aw) ->
     res = Ok tt /\
     ev = if is_ old new then []
          else notify (tab_window w old) false ++ notify (tab_window w new) true).
Proof.
  unfold TabManager.active_tab_idx_setter, TabManager.focus_tab, after_setter,
    outgoing_id, tab_window.
  unfold bind, get, TabManager.set_tm, modify, ret, lift_result; simpl.
  destruct (py_index (tabs (tm w)) (_active_tab_idx (tm w))) as [o |] eqn:Eo; simpl;
  destruct (py_index (tabs (tm w)) (clamp val (length (tabs (tm w))))) as [n |] eqn:En; simpl;
  try (destruct (Nat.eqb o n); simpl);
  try (do 2 eexists; split; [reflexivity | split; [constructor | auto]]).
  - destruct (active_window_of (tab_objs w o)) as [[a |] | x] eqn:Ea; simpl;
      destruct (active_window_of (tab_objs w n)) as [[b |] | y] eqn:Eb; simpl;
      (do 2 eexists; split; [reflexivity | split; [repeat constructor |]]);
      intros Ho Hn; try (split; reflexivity);
      try (destruct (Ho o eq_refl) as [? ?]; congruence);
      try (destruct (Hn n eq_refl) as [? ?]; congruence).
  - destruct (active_window_of (tab_objs w o)) as [[a |] | x] eqn:Ea; simpl;
      (do 2 eexists; split; [reflexivity | split; [repeat constructor |]]);
      intros Ho Hn; try (split; reflexivity);
      try (destruct (Ho o eq_refl) as [? ?]; congruence).
  - destruct (active_window_of (tab_objs w n)) as [[b |] | y] eqn:Eb; simpl;
      (do 2 eexists; split; [reflexivity | split; [repeat constructor |]]);
      intros Ho Hn; try (split; reflexivity);
      try (destruct (Hn n eq_refl) as [? ?]; congruence).
Qed.

Lemma focus_event_tab_event e : focus_event e -> tab_event e.
Proof. destruct e; simpl; intros E; try discriminate E; reflexivity. Qed.

Lemma wp_mgr_setter val (Q : unit -> World L -> Prop) E (V : Event -> Prop) w :
  (forall e, focus_event e -> V e) ->
  Q tt (after_setter val w) -> E (after_setter val w) ->
  wp (TabManager.active_tab_idx_setter val) Q E V w.
Proof.
  intros HV HQ HE. destruct (mgr_setter_run val w) as (res & ev & Hrun & Hev & _).
  unfold wp. rewrite Hrun.
  destruct res as [[] | x]; (split; [assumption | eapply Forall_impl; eauto]).
Qed.
End ManagerPrimitives.

(** ** Steps of the manager's methods *)

Section ManagerSteps.
Context {L : Type} `{LayoutStrategy L}.

Lemma mgr_frame_refl (w : World L) : mgr_frame w w.
Proof. unfold mgr_frame, same_ids. auto. Qed.

Lemma mgr_frame_trans (w1 w2 w3 : World L) :
  mgr_frame w1 w2 -> mgr_frame w2 w3 -> mgr_frame w1 w3.
Proof.
  unfold mgr_frame, same_ids. intros (A1 & B1 & C1) (A2 & B2 & C2).
  repeat split; try congruence; intros r; now rewrite B2.
Qed.

Lemma mgr_frame_put_tab (w : World L) (r : nat) (tw : TabWorld L) :
  tab_frame (tab_view w r) tw -> mgr_frame w (put_tab w r tw).
Proof.
  unfold tab_frame, mgr_frame, same_ids, put_tab, tab_view. simpl.
  intros (Hid & _ & Hh & _). repeat split; [| assumption].
  intros r'. destruct (Nat.eqb_spec r' r); [now subst | reflexivity].
Qed.

(** A relayout requested by the manager never raises. *)
Lemma wp_on_tab_relayout (r : nat) (Q : unit -> World L -> Prop) E V w :
  (forall e, tab_event e -> V e) ->
  (forall w', mgr_frame w w' -> Q tt w') ->
  wp (TabManager.on_tab r Tab.relayout) Q E V w.
Proof.
  intros HV HQ.
  eapply wp_on_tab with (Qt := fun _ tw => tab_frame (tab_view w r) tw)
                        (Et := fun _ => False); [| | | exact HV].
  - apply wp_relayout. auto.
  - intros [] tw Hf. apply HQ. now apply mgr_frame_put_tab.
  - intros tw [].
Qed.

Lemma wp_mark_tab_bar_dirty (Q : unit -> World L -> Prop) E (V : Event -> Prop) w :
  V EMarkTabBarDirty -> Q tt w -> wp TabManager.mark_tab_bar_dirty Q E V w.
Proof.
  intros HV HQ. unfold TabManager.mark_tab_bar_dirty, when.
  apply wp_bind, wp_get. destruct (1 <? _); [now apply wp_emit | now apply wp_ret].
Qed.

Lemma wp_relayout_all (ts : list nat) (Q : unit -> World L -> Prop) E V w :
  (forall e, tab_event e -> V e) ->
  (forall w', mgr_frame w w' -> Q tt w') ->
  wp (for_each ts (fun tab => TabManager.on_tab tab Tab.relayout)) Q E V w.
Proof.
  intros HV HQ.
  eapply wp_mono with (Q := fun _ w' => mgr_frame w w') (E := fun _ => False) (V := V);
    [| intros [] w' Hf; now apply HQ | intros w' [] | auto].
  apply wp_for_each with (I := fun w' => mgr_frame w w').
  - intros x w' _ Hf. apply wp_on_tab_relayout; [exact HV |].
    intros w'' Hf'. eapply mgr_frame_trans; eauto.
  - apply mgr_frame_refl.
Qed.

Lemma wp_resize (only_tabs : bool) (Q : unit -> World L -> Prop) E (V : Event -> Prop) w :
  (forall e, tab_event e -> V e) ->
  (only_tabs = false -> V ETabBarLayout) ->
  (forall w', mgr_frame w w' -> Q tt w') ->
  wp (TabManager.resize only_tabs) Q E V w.
Proof.
  intros HV HT HQ. unfold TabManager.resize. apply wp_bind.
  destruct only_tabs; simpl.
  - apply wp_ret. apply wp_bind, wp_get. now apply wp_relayout_all.
  - apply wp_bind, wp_emit; [auto |].
    apply wp_mark_tab_bar_dirty; [now apply HV |].
    apply wp_bind, wp_get. now apply wp_relayout_all.
Qed.

Lemma wp_tabbar_visibility_changed (Q : unit -> World L -> Prop) E (V : Event -> Prop) w :
  (forall e, tab_event e -> V e) -> V ETabBarLayout ->
  (forall w', mgr_frame w w' -> Q tt w') ->
  wp TabManager.tabbar_visibility_changed Q E V w.
Proof.
  intros HV HT HQ. unfold TabManager.tabbar_visibility_changed.
  apply wp_bind, wp_emit; [assumption |].
  apply wp_bind, wp_resize; [assumption | discriminate |].
  intros w' Hf. apply wp_emit; [now apply HV | now apply HQ].
Qed.

Lemma wp_set_active_tab_ idx (Q : unit -> World L -> Prop) E (V : Event -> Prop) w :
  (forall e, focus_event e -> V e) -> V (ESetActiveTab idx) ->
  Q tt (after_setter idx w) -> E (after_setter idx w) ->
  wp (TabManager._set_active_tab idx) Q E V w.
Proof.
  intros HV HS HQ HE. unfold TabManager._set_active_tab.
  apply wp_bind, wp_mgr_setter; [assumption | | assumption].
  now apply wp_emit.
Qed.

End ManagerSteps.

(** ** The recency history and the manager's invariant *)

Lemma push_history_length (x : Z) (h : list Z) :
  (length h <= 64)%nat -> (length (push_history x h) <= 64)%nat.
Proof.
  intros Hh. unfold push_history.
  destruct (64 <? Z.of_nat (length (h ++ [x]))) eqn:E.
  - rewrite length_app in E. simpl in E. apply Z.ltb_lt in E.
    destruct h as [| a r]; simpl in *; [lia |].
    rewrite length_app. simpl. lia.
  - apply Z.ltb_ge in E. lia.
Qed.

Lemma push_history_most_recent (x : Z) (h : list Z) :
  (length h <= 64)%nat -> push_history x h = most_recent 64 (h ++ [x]).
Proof.
  intros Hh. unfold push_history, most_recent.
  destruct (64 <? Z.of_nat (length (h ++ [x]))) eqn:E.
  - apply Z.ltb_lt in E. rewrite length_app in *. simpl in *.
    replace (length h + 1 - 64)%nat with 1%nat by lia.
    destruct h; reflexivity.
  - apply Z.ltb_ge in E. rewrite length_app in *. simpl in *.
    replace (length h + 1 - 64)%nat with 0%nat by lia. reflexivity.
Qed.

Lemma push_history_rev (x : Z) (h : list Z) :
  exists r, rev (push_history x h) = x :: r.
Proof.
  unfold push_history.
  destruct (64 <? Z.of_nat (length (h ++ [x]))) eqn:E.
  - apply Z.ltb_lt in E. rewrite length_app in E. simpl in E.
    destruct h as [| a r]; simpl in *; [lia |].
    rewrite rev_app_distr. simpl. eauto.
  - rewrite rev_app_distr. simpl. eauto.
Qed.



Lemma clamp_idem (val : Z) (n : nat) : clamp (clamp val n) n = clamp val n.
Proof. unfold clamp. lia. Qed.

Lemma idx_clamped_I1' (m : TabManagerObj) : idx_clamped m -> I1' m.
Proof.
  unfold idx_clamped, I1', clamp. destruct (tabs m) as [| a r]; [now left | right].
  simpl length in *. lia.
Qed.

Lemma list_set_length {A} (l : list A) (k : nat) (x : A) :
  length (list_set l k x) = length l.
Proof.
  revert k. induction l as [| a r IH]; intros [| k]; simpl; auto.
Qed.

Lemma reactivation_loop_length (ids : list Z) (removed : Z) (l : list Z) :
  (length (fst (reactivation_loop ids removed l)) <= length l)%nat.
Proof.
  induction l as [| x r IH]; simpl; [lia |].
  destruct (x =? removed); [lia |].
  destruct (position_of_id x ids 0); simpl; lia.
Qed.

Section ManagerInvariant.
Context {L : Type} `{LayoutStrategy L}.

Lemma wp_on_tab_tm {A} (r : nat) (m : M (TabWorld L) A)
    (Q : A -> World L -> Prop) (E : World L -> Prop) w :
  (forall a w', tm w' = tm w -> Q a w') ->
  (forall w', tm w' = tm w -> E w') ->
  wp (TabManager.on_tab r m) Q E any_event w.
Proof.
  intros HQ HE. unfold wp, TabManager.on_tab.
  destruct (m _) as [[[a | x] tw] ev];
    (split; [auto | apply Forall_forall; intros; exact I]).
Qed.

Lemma manager_inv_after_setter val (w : World L) :
  history_bounded (tm w) -> manager_inv (tm (after_setter val w)).
Proof.
  intros Hh. unfold manager_inv, after_setter, history_bounded, idx_clamped. simpl.
  split; [| apply clamp_idem].
  destruct (outgoing_id w); [now apply push_history_length | assumption].
Qed.

End ManagerInvariant.

Ltac any_ev := first [exact I | (intros; exact I)].

Ltac mgr_step :=
  lazymatch goal with
  | |- wp (TabManager.set_tm _) _ _ _ _ => apply wp_modify
  | |- wp TabManager.active_tab_idx _ _ _ _ => apply wp_gets
  | |- wp (TabManager._set_active_tab _) _ _ _ _ =>
      apply wp_set_active_tab_; [any_ev | any_ev | |]
  | |- wp TabManager.mark_tab_bar_dirty _ _ _ _ =>
      apply wp_mark_tab_bar_dirty; [any_ev |]
  | |- wp (TabManager.on_tab _ _) _ _ _ _ =>
      apply wp_on_tab_tm; [intros ? ? ? | intros ? ?]
  | |- wp TabManager.tabbar_visibility_changed _ _ _ _ =>
      apply wp_tabbar_visibility_changed; [any_ev | any_ev | intros ? (? & ? & ?)]
  | |- wp (TabManager.resize _) _ _ _ _ =>
      apply wp_resize; [any_ev | any_ev | intros ? (? & ? & ?)]
  | |- wp (when _ _) _ _ _ _ => apply wp_when; intros ?
  | |- wp (emit _) _ _ _ _ => apply wp_emit; [exact I |]
  | _ => wp_step
  end; cbv beta.

Section ManagerOperations.
Context {L : Type} `{LayoutStrategy L}.

Lemma run_manager_op_inv (op : ManagerOp) (w : World L) :
  manager_inv (tm w) ->
  wp (run_manager_op op) (fun _ w' => manager_inv (tm w'))
     (fun w' => manager_inv (tm w')) any_event w.
Proof.
  intros Hw. destruct op; simpl;
    unfold TabManager.set_active_tab, TabManager.next_tab, TabManager.goto_tab,
      TabManager.activate_tab_at, TabManager.set_active_tab_idx,
      TabManager.move_tab, TabManager.new_tab, TabManager.remove,
      TabManager._add_tab, TabManager._remove_tab, TabManager.active_tab,
      TabManager.tabs_get, TabManager.tabs_set;
    repeat mgr_step.
  all: repeat match goal with
       | Hx : tm ?w' = _ |- context [tm ?w'] => rewrite Hx
       end.
  all: try exact Hw.
  all: try (apply manager_inv_after_setter).
  all: repeat match goal with
       | Hx : tm ?w' = _ |- context [tm ?w'] => rewrite Hx
       end.
  all: try (destruct Hw as [Hh Hc]; simpl; exact Hh).
  1: { destruct Hw as [Hh Hc]. split; [exact Hh |].
       unfold idx_clamped in *. simpl. now rewrite list_set_length. }
  all: destruct Hw as [Hh Hc]; unfold history_bounded in *; simpl;
    rewrite length_rev;
    match goal with
    | Hp : reactivation_loop ?ids ?rm ?l0 = (?l, _) |- _ =>
        pose proof (reactivation_loop_length ids rm l0) as Hlen;
        rewrite Hp in Hlen; simpl in Hlen; rewrite ?length_rev in Hlen;
        repeat match goal with
               | Hx : tm ?w' = _ |- _ => rewrite Hx in Hlen
               end;
        simpl in Hlen; lia
    end.
Qed.

Lemma manager_invariant (ops : list ManagerOp) (w : World L) :
  manager_inv (tm w) ->
  Forall (fun w' => manager_inv (tm w')) (states_after run_manager_op ops w).
Proof.
  revert w. induction ops as [| op r IH]; intros w Hw; simpl; constructor.
  - pose proof (run_manager_op_inv op w Hw) as Hr. apply wp_run in Hr.
    destruct Hr as [Hr _]. destruct (result_of (run_manager_op op w)); exact Hr.
  - apply IH.
    pose proof (run_manager_op_inv op w Hw) as Hr. apply wp_run in Hr.
    destruct Hr as [Hr _]. destruct (result_of (run_manager_op op w)); exact Hr.
Qed.
End ManagerOperations.

(** ** Tab-bar boundary, moving and removing tabs *)

Lemma index_of_In (x : nat) (l : list nat) :
  In x l <-> exists k, index_of x l = Some k.
Proof.
  induction l as [| y r IH]; simpl.
  - split; [intros [] | intros [k Hk]; discriminate].
  - destruct (Nat.eqb_spec y x) as [-> | Hne].
    + split; eauto.
    + rewrite IH. split.
      * intros [Hyx | [k Hk]]; [contradiction | rewrite Hk; eauto].
      * intros [k Hk]. right. destruct (index_of x r); [eauto | discriminate].
Qed.

Lemma index_of_not_In (x : nat) (l : list nat) :
  ~ In x l -> index_of x l = None.
Proof.
  intros Hn. destruct (index_of x l) as [k |] eqn:E; [| reflexivity].
  exfalso. apply Hn. apply index_of_In. eauto.
Qed.

Lemma remove_first_length (x : nat) (l : list nat) :
  In x l -> S (length (remove_first x l)) = length l.
Proof.
  induction l as [| y r IH]; simpl; [intros [] |].
  destruct (Nat.eqb_spec y x) as [-> | Hne]; [reflexivity |].
  intros [Hyx | Hin]; [contradiction |]. simpl. now rewrite IH.
Qed.

Lemma tab_event_not_tab_bar_layout (ev : list Event) :
  Forall tab_event ev -> ~ In ETabBarLayout ev.
Proof.
  intros Hev Hin. rewrite Forall_forall in Hev. specialize (Hev _ Hin). discriminate.
Qed.

Section TabBarBoundary.
Context {L : Type} `{LayoutStrategy L}.

(** Recomputing the tab bar: one [tab_bar.layout()], then a relayout of
    every tab and nothing else, then a wake-up; it never raises. *)
Lemma tabbar_visibility_changed_run (w : World L) :
  exists w' ev,
    TabManager.tabbar_visibility_changed w
      = (Ok tt, w', ETabBarLayout :: ev ++ [EPostEmptyEvent]) /\
    for_each (tabs (tm w)) (fun t => TabManager.on_tab t Tab.relayout) w = (Ok tt, w', ev) /\
    Forall tab_event ev /\ mgr_frame w w'.
Proof.
  pose proof (@wp_relayout_all L _ (tabs (tm w))
                (fun _ w' => mgr_frame w w') (fun _ => False) tab_event w
                (fun e He => He) (fun w' Hf => Hf)) as Hwp.
  unfold wp in Hwp.
  unfold TabManager.tabbar_visibility_changed, TabManager.resize, bind, emit, get, ret.
  simpl.
  destruct (for_each _ _ w) as [[[[] | x] w'] ev]; [| destruct Hwp as [[] _]].
  destruct Hwp as [Hf Hev]. exists w', ev. simpl.
  split; [reflexivity | split; [reflexivity | split; assumption]].
Qed.

Lemma add_tab_quiet (tab : nat) (w : World L) :
  length (tabs (tm w)) <> 1%nat ->
  TabManager._add_tab tab w = (Ok tt, appended tab w, []).
Proof.
  intros Hn. unfold TabManager._add_tab, bind, get, TabManager.set_tm, modify, when. simpl.
  rewrite length_app. simpl.
  destruct ((1 <? Z.of_nat (length (tabs (tm w)) + 1)) && (Z.of_nat (length (tabs (tm w))) <? 2)) eqn:E.
  - apply andb_true_iff in E. destruct E as [E1 E2].
    apply Z.ltb_lt in E1, E2. lia.
  - reflexivity.
Qed.

Lemma add_tab_crossing (tab : nat) (w : World L) :
  length (tabs (tm w)) = 1%nat ->
  TabManager._add_tab tab w = TabManager.tabbar_visibility_changed (appended tab w).
Proof.
  intros Hn. unfold TabManager._add_tab, bind, get, TabManager.set_tm, modify, when. simpl.
  rewrite length_app, Hn. simpl. fold (appended tab w).
  destruct (TabManager.tabbar_visibility_changed (appended tab w)) as [[r s] e]. reflexivity.
Qed.

Lemma remove_tab_absent (tab : nat) (w : World L) :
  ~ In tab (tabs (tm w)) ->
  TabManager._remove_tab tab w
    = (Raise ValueError, w, [ERemoveTab (tab_id (tab_objs w tab))]).
Proof.
  intros Hn. unfold TabManager._remove_tab, bind, get, emit. simpl.
  rewrite (index_of_not_In _ _ Hn). reflexivity.
Qed.

Lemma remove_tab_quiet (tab : nat) (w : World L) :
  In tab (tabs (tm w)) -> length (tabs (tm w)) <> 2%nat ->
  TabManager._remove_tab tab w
    = (Ok tt, removed tab w, [ERemoveTab (tab_id (tab_objs w tab))]).
Proof.
  intros Hin Hn. pose proof (remove_first_length _ _ Hin) as Hlen.
  apply index_of_In in Hin. destruct Hin as [k Hk].
  unfold TabManager._remove_tab, bind, get, emit, TabManager.set_tm, modify, when. simpl.
  rewrite Hk. simpl.
  destruct ((Z.of_nat (length (remove_first tab (tabs (tm w)))) <? 2)
            && (1 <? Z.of_nat (length (tabs (tm w))))) eqn:E.
  - apply andb_true_iff in E. destruct E as [E1 E2].
    apply Z.ltb_lt in E1, E2. lia.
  - reflexivity.
Qed.

Lemma remove_tab_crossing (tab : nat) (w : World L) :
  In tab (tabs (tm w)) -> length (tabs (tm w)) = 2%nat ->
  TabManager._remove_tab tab w
    = match TabManager.tabbar_visibility_changed (removed tab w) with
      | (r, w', ev) => (r, w', ERemoveTab (tab_id (tab_objs w tab)) :: ev)
      end.
Proof.
  intros Hin Hn. pose proof (remove_first_length _ _ Hin) as Hlen.
  apply index_of_In in Hin. destruct Hin as [k Hk].
  unfold TabManager._remove_tab, bind, get, emit, TabManager.set_tm, modify, when. simpl.
  rewrite Hk. simpl. fold (removed tab w).
  replace ((Z.of_nat (length (remove_first tab (tabs (tm w)))) <? 2)
           && (1 <? Z.of_nat (length (tabs (tm w))))) with true.
  - destruct (TabManager.tabbar_visibility_changed (removed tab w)) as [[r s] e]. reflexivity.
  - symmetry. apply andb_true_iff. split; apply Z.ltb_lt; lia.
Qed.

End TabBarBoundary.

Lemma nth_error_list_set_eq {A} (l : list A) (k : nat) (x : A) :
  (k < length l)%nat -> nth_error (list_set l k x) k = Some x.
Proof.
  revert k. induction l as [| a r IH]; intros [| k] Hk; simpl in *; try lia; auto.
  apply IH. lia.
Qed.

Lemma nth_error_list_set_neq {A} (l : list A) (k j : nat) (x : A) :
  k <> j -> nth_error (list_set l k x) j = nth_error l j.
Proof.
  revert k j. induction l as [| a r IH]; intros [| k] [| j] Hkj; simpl; auto.
  - congruence.
Qed.

Lemma focus_event_not_swap e : focus_event e -> not_swap e.
Proof. destruct e; simpl; intros E; try discriminate E; reflexivity. Qed.

Lemma tab_event_not_swap e : tab_event e -> not_swap e.
Proof. destruct e; simpl; intros E; try discriminate E; reflexivity. Qed.

Section MoveTab.
Context {L : Type} `{LayoutStrategy L}.

Lemma move_tab_single (delta : Z) (w : World L) :
  (length (tabs (tm w)) <= 1)%nat -> TabManager.move_tab delta w = (Ok tt, w, []).
Proof.
  intros Hn. unfold TabManager.move_tab, bind, get. simpl.
  destruct (1 <? Z.of_nat (length (tabs (tm w)))) eqn:E; [| reflexivity].
  apply Z.ltb_lt in E. lia.
Qed.

Lemma move_tab_run (delta : Z) (w : World L) :
  let n := Z.of_nat (length (tabs (tm w))) in
  let idx := _active_tab_idx (tm w) in
  let nidx := (idx + n + delta) mod n in
  1 < n -> 0 <= idx < n ->
  exists a b res ev,
    py_index (tabs (tm w)) nidx = Some a /\
    py_index (tabs (tm w)) idx = Some b /\
    0 <= nidx < n /\
    TabManager.move_tab delta w
      = (res, after_setter nidx (swapped idx nidx w), ESwapTabs idx nidx :: ev) /\
    Forall not_swap ev.
Proof.
  intros n idx nidx Hn Hidx.
  assert (Hnidx : 0 <= nidx < n) by (apply Z.mod_pos_bound; lia).
  destruct (py_index_some (tabs (tm w)) Hnidx) as [a Ha].
  destruct (py_index_some (tabs (tm w)) Hidx) as [b Hb].
  pose proof (@wp_set_active_tab_ L nidx
                (fun _ w' => w' = after_setter nidx (swapped idx nidx w))
                (fun w' => w' = after_setter nidx (swapped idx nidx w))
                not_swap (swapped idx nidx w)
                focus_event_not_swap eq_refl eq_refl eq_refl) as Hset.
  unfold wp in Hset.
  exists a, b.
  unfold TabManager.move_tab, TabManager.tabs_get, TabManager.tabs_set,
    bind, get, emit, TabManager.set_tm, modify, ret. simpl.
  fold n. fold idx. fold nidx.
  apply Z.ltb_lt in Hn as Hn'. rewrite Hn'.
  rewrite Ha, Hb. simpl.
  rewrite (py_pos_in_range _ Hidx). simpl.
  rewrite list_set_length. fold n. rewrite (py_pos_in_range _ Hnidx). simpl.
  assert (Esw : swapped idx nidx w
                = mkWorld (TabManager.with_tabs
                             (list_set (list_set (tabs (tm w)) (Z.to_nat idx) a)
                                       (Z.to_nat nidx) b) (tm w))
                          (tab_objs w) (wheap w)).
  { unfold swapped. fold n idx nidx. now rewrite Ha, Hb. }
  match goal with
  | |- context [TabManager._set_active_tab nidx ?s] =>
      replace s with (swapped idx nidx w) by (rewrite Esw; reflexivity)
  end.
  destruct (TabManager._set_active_tab nidx (swapped idx nidx w)) as [[[[] | x] w1] e1];
    destruct Hset as [-> He1]; simpl.
  - unfold TabManager.mark_tab_bar_dirty, when, bind, get, emit, ret. simpl.
    match goal with |- context [if ?c then _ else _] => destruct c end;
      simpl; do 2 eexists;
      (repeat split; try reflexivity; try lia;
       apply Forall_app; split; [assumption | repeat constructor]).
  - do 2 eexists. repeat split; try reflexivity; try lia. assumption.
Qed.

End MoveTab.


Lemma position_of_id_bounds (x : Z) (ids : list Z) (k i : Z) :
  position_of_id x ids k = Some i -> k <= i < k + Z.of_nat (length ids).
Proof.
  revert k. induction ids as [| q r IH]; intros k; simpl; [discriminate |].
  destruct (q =? x).
  - intros [= <-]. lia.
  - intros Hi. apply IH in Hi. lia.
Qed.

Lemma position_of_id_found (x : Z) (ids : list Z) (k : Z) :
  existsb (Z.eqb x) ids = true <-> exists i, position_of_id x ids k = Some i.
Proof.
  revert k. induction ids as [| q r IH]; intros k; simpl.
  - split; [discriminate | intros [i Hi]; discriminate].
  - rewrite (Z.eqb_sym x q). destruct (q =? x); simpl; [split; eauto |]. apply IH.
Qed.

Lemma position_of_id_nth (x : Z) (ids : list Z) (k i : Z) :
  position_of_id x ids k = Some i -> nth_error ids (Z.to_nat (i - k)) = Some x.
Proof.
  revert k. induction ids as [| q r IH]; intros k; simpl; [discriminate |].
  destruct (q =? x) eqn:E.
  - intros [= <-]. apply Z.eqb_eq in E. subst. now rewrite Z.sub_diag.
  - intros Hi. pose proof (position_of_id_bounds _ _ _ Hi) as Hb.
    apply IH in Hi. replace (Z.to_nat (i - k)) with (S (Z.to_nat (i - (k + 1)))) by lia.
    exact Hi.
Qed.

(** The loop of [remove] computes the specification's target; [-1] stands
    for an exhausted history. *)
Lemma reactivation_loop_spec (ids : list Z) (removed_id : Z) (h : list Z) :
  snd (reactivation_loop ids removed_id (rev h))
  = match spec_reactivation_target ids removed_id h with
    | Some i => i
    | None => -1
    end.
Proof.
  unfold spec_reactivation_target. induction (rev h) as [| x r IH]; simpl; [reflexivity |].
  unfold survives at 1. destruct (x =? removed_id); simpl; [exact IH |].
  destruct (position_of_id x ids 0) as [i |] eqn:Ei.
  - assert (Hex : existsb (Z.eqb x) ids = true) by (apply (position_of_id_found x ids 0); eauto).
    rewrite Hex, Ei. reflexivity.
  - destruct (existsb (Z.eqb x) ids) eqn:Hex; [| exact IH].
    apply (position_of_id_found x ids 0) in Hex. destruct Hex as [i Hi]. congruence.
Qed.

Lemma spec_target_bounds (ids : list Z) (removed_id : Z) (h : list Z) (i : Z) :
  spec_reactivation_target ids removed_id h = Some i ->
  0 <= i < Z.of_nat (length ids).
Proof.
  unfold spec_reactivation_target. destruct (find _ _); [| discriminate].
  intros Hi. apply position_of_id_bounds in Hi. lia.
Qed.

Section Remove.
Context {L : Type} `{LayoutStrategy L}.

Lemma wp_remove_tab_ (tab : nat) (Q : unit -> World L -> Prop) E w :
  In tab (tabs (tm w)) ->
  (forall w1, mgr_frame (removed tab w) w1 -> Q tt w1) ->
  wp (TabManager._remove_tab tab) Q E any_event w.
Proof.
  intros Hin HQ. unfold wp.
  destruct (Nat.eq_dec (length (tabs (tm w))) 2) as [H2 | H2].
  - rewrite (remove_tab_crossing _ _ Hin H2).
    destruct (tabbar_visibility_changed_run (removed tab w)) as (w' & ev & Hrun & _ & _ & Hf).
    rewrite Hrun. split; [now apply HQ |]. apply Forall_forall. intros; exact I.
  - rewrite (remove_tab_quiet _ _ Hin H2). split; [| repeat constructor].
    apply HQ, mgr_frame_refl.
Qed.

Lemma remove_selects (tab : nat) (w : World L) :
  In tab (tabs (tm w)) ->
  wp (TabManager.remove tab)
     (fun _ w' => tabs (tm w') = remove_first tab (tabs (tm w)) /\
                  _active_tab_idx (tm w') = reactivated_idx tab w)
     (fun w' => tabs (tm w') = remove_first tab (tabs (tm w)) /\
                _active_tab_idx (tm w') = reactivated_idx tab w)
     any_event w.
Proof.
  intros Hin. unfold TabManager.remove.
  apply wp_bind, wp_remove_tab_; [assumption |]. intros w1 (Htm & Hids & _).
  apply wp_bind, wp_get.
  assert (Eids : map (fun r => tab_id (tab_objs w1 r)) (tabs (tm w1))
                 = map (fun r => tab_id (tab_objs w r)) (remove_first tab (tabs (tm w)))).
  { rewrite Htm. simpl. apply map_ext. intros r. apply Hids. }
  rewrite Eids, (Hids tab), Htm. simpl.
  pose proof (reactivation_loop_spec
                (map (fun r => tab_id (tab_objs w r)) (remove_first tab (tabs (tm w))))
                (tab_id (tab_objs w tab)) (active_tab_history (tm w))) as Hspec.
  destruct (reactivation_loop _ _ _) as [rest found]. simpl in Hspec.
  repeat mgr_step.
  all: repeat match goal with
       | Hx : tm ?w' = _ |- context [tm ?w'] => rewrite Hx
       end.
  all: simpl; rewrite ?Htm; simpl; split; [reflexivity |].
  all: unfold reactivated_idx; subst found.
  all: destruct (spec_reactivation_target _ _ _) as [i |] eqn:Et;
    [ pose proof (spec_target_bounds _ _ _ Et) as Hb; rewrite length_map in Hb;
      destruct (i <? 0) eqn:Ei; [apply Z.ltb_lt in Ei; lia | now apply clamp_id]
    | simpl; apply clamp_idem ].
Qed.
End Remove.

Section Reactivation.
Context {L : Type} `{LayoutStrategy L}.

Lemma wp_on_tab_relayout_borders (r : nat) (Q : unit -> World L -> Prop) E w :
  (forall w', tm w' = tm w -> same_ids w w' -> Q tt w') ->
  (forall w', tm w' = tm w -> same_ids w w' -> E w') ->
  wp (TabManager.on_tab r Tab.relayout_borders) Q E any_event w.
Proof.
  intros HQ HE.
  assert (Hput : tm (put_tab w r (tab_view w r)) = tm w /\
                 same_ids w (put_tab w r (tab_view w r))).
  { split; [reflexivity |]. intros r'. unfold put_tab, tab_view. simpl.
    destruct (Nat.eqb_spec r' r); [now subst | reflexivity]. }
  destruct Hput as [Ht Hs].
  eapply wp_on_tab with (Qt := fun _ tw => tw = tab_view w r)
                        (Et := fun tw => tw = tab_view w r).
  - apply wp_relayout_borders; auto.
  - intros [] tw ->. now apply HQ.
  - intros tw ->. now apply HE.
  - intros e _. exact I.
Qed.

Lemma same_ids_after_setter val (w : World L) : same_ids w (after_setter val w).
Proof. intros r. reflexivity. Qed.

Lemma same_ids_trans (w1 w2 w3 : World L) :
  same_ids w1 w2 -> same_ids w2 w3 -> same_ids w1 w3.
Proof. unfold same_ids. intros H12 H23 r. now rewrite H23. Qed.

(** [set_active_tab_idx] always leaves the manager object as the setter
    does, whether or not a later step raises. *)
Lemma set_active_tab_idx_tm (idx : Z) (w : World L) :
  wp (TabManager.set_active_tab_idx idx)
     (fun _ w' => tm w' = tm (after_setter idx w) /\ same_ids w w')
     (fun w' => tm w' = tm (after_setter idx w) /\ same_ids w w')
     any_event w.
Proof.
  unfold TabManager.set_active_tab_idx, TabManager.active_tab.
  repeat first
    [ lazymatch goal with
      | |- wp (TabManager.on_tab _ Tab.relayout_borders) _ _ _ _ =>
          apply wp_on_tab_relayout_borders; intros ? ? ?
      end
    | mgr_step ].
  all: try (split; [reflexivity | apply same_ids_after_setter]).
  all: split; [congruence |].
  all: eapply same_ids_trans; [apply same_ids_after_setter | eassumption].
Qed.


End Reactivation.

(** ** Further facts used by the claims *)

Lemma focus_calls_all (ev : list Event) :
  Forall focus_event ev -> focus_calls ev = ev.
Proof.
  unfold focus_calls. induction 1 as [| e r He Hr IH]; simpl; [reflexivity |].
  unfold focus_event in He. rewrite He, IH. reflexivity.
Qed.


Lemma active_window_of_In {L} (t : TabObj L) (x : nat) :
  active_window_of t = Ok (Some x) -> In x (windows t).
Proof.
  unfold active_window_of. destruct (windows t) as [| a r] eqn:E; [discriminate |].
  destruct (py_index (a :: r) (_active_window_idx t)) as [y |] eqn:Ey; [| discriminate].
  intros [= <-]. apply (py_index_In _ _ Ey).
Qed.

Section ManagerHistory.
Context {L : Type} `{LayoutStrategy L}.

Lemma history_bounded_after_setter val (w : World L) :
  history_bounded (tm w) -> history_bounded (tm (after_setter val w)).
Proof. intros Hh. now apply manager_inv_after_setter. Qed.

Lemma run_manager_op_history (op : ManagerOp) (w : World L) :
  history_bounded (tm w) ->
  wp (run_manager_op op) (fun _ w' => history_bounded (tm w'))
     (fun w' => history_bounded (tm w')) any_event w.
Proof.
  intros Hw. destruct op; simpl;
    unfold TabManager.set_active_tab, TabManager.next_tab, TabManager.goto_tab,
      TabManager.activate_tab_at, TabManager.set_active_tab_idx,
      TabManager.move_tab, TabManager.new_tab, TabManager.remove,
      TabManager._add_tab, TabManager._remove_tab, TabManager.active_tab,
      TabManager.tabs_get, TabManager.tabs_set;
    repeat mgr_step.
  all: repeat match goal with
       | Hx : tm ?w' = _ |- context [tm ?w'] => rewrite Hx
       end.
  all: try exact Hw.
  all: try (apply history_bounded_after_setter).
  all: repeat match goal with
       | Hx : tm ?w' = _ |- context [tm ?w'] => rewrite Hx
       end.
  all: try exact Hw.
  all: unfold history_bounded in *; simpl;
    rewrite length_rev;
    match goal with
    | Hp : reactivation_loop ?ids ?rm ?l0 = (?l, _) |- _ =>
        pose proof (reactivation_loop_length ids rm l0) as Hlen;
        rewrite Hp in Hlen; simpl in Hlen; rewrite ?length_rev in Hlen;
        repeat match goal with
               | Hx : tm ?w' = _ |- _ => rewrite Hx in Hlen
               end;
        simpl in Hlen; lia
    end.
Qed.

Lemma history_invariant (ops : list ManagerOp) (w : World L) :
  history_bounded (tm w) ->
  Forall (fun w' => history_bounded (tm w')) (states_after run_manager_op ops w).
Proof.
  revert w. induction ops as [| op r IH]; intros w Hw; simpl; constructor.
  - pose proof (run_manager_op_history op w Hw) as Hr. apply wp_run in Hr.
    destruct Hr as [Hr _]. destruct (result_of (run_manager_op op w)); exact Hr.
  - apply IH.
    pose proof (run_manager_op_history op w Hw) as Hr. apply wp_run in Hr.
    destruct Hr as [Hr _]. destruct (result_of (run_manager_op op w)); exact Hr.
Qed.

End ManagerHistory.

Lemma hundred_activations :
  active_tab_history
    (tm (last (states_after run_manager_op
                 (map (fun i => OpSetActiveTabIdx (Z.of_nat i)) (seq 1 100))
                 (demo_world 101)) (demo_world 101)))
  = map (fun r => Z.of_nat r + 1) (seq 36 64).
Proof. vm_compute. reflexivity. Qed.

(** ** Which history entry reactivation picks *)








Section ReactivationRuns.
Context {L : Type} `{LayoutStrategy L}.









End ReactivationRuns.

(** * The claims of the specification *)

(** C1. Index validity: along every sequence of window operations on a tab
    that starts from a state satisfying I1, every state reached satisfies
    [0 <= active_window_idx < len(windows)] or has no windows; and the setter
    of [active_window_idx] stores [max(0, min(val, len(windows) - 1))], which
    is a valid position whenever the tab has windows, whatever integer the
    layout strategy returned. *)
Theorem C1_active_window_index_valid :
  forall (L : Type) (H : LayoutStrategy L) (text : PyStr),
    (forall (s : TabWorld L) (ops : list TabOp),
        I1 (self s) ->
        Forall (fun s' => I1 (self s')) (states_after run_tab_op ops s)) /\
    (forall (s : TabWorld L) (val : Z),
        let s' := state_of (Tab.active_window_idx_setter val s) in
        windows (self s') = windows (self s) /\
        _active_window_idx (self s') = clamp val (length (windows (self s))) /\
        (windows (self s) <> [] ->
         0 <= _active_window_idx (self s') < Z.of_nat (length (windows (self s'))))).
Proof.
  intros L H text. split.
  - intros s ops Hs. exact (tab_index_validity ops Hs).
  - intros s val s'. destruct (setter_run val s) as (ev & Hrun & _).
    subst s'. rewrite Hrun. unfold state_of, clamped. simpl.
    split; [reflexivity | split; [reflexivity |]]. intros Hne.
    apply clamp_range. destruct (windows (self s)); [congruence | simpl; lia].
Qed.

Lemma C1_witness :
  Forall (fun s' => I1 (self s'))
    (states_after (run_tab_op (text := ascii_text))
       [OpNewWindow None 12; OpSetActiveWindowIdx 7; OpCloseWindow; OpMoveWindow (-3)]
       demo_tab_world) /\
  0 <= _active_window_idx
         (self (state_of (Tab.active_window_idx_setter (-5) demo_tab_world))) < 2.
Proof.
  destruct (C1_active_window_index_valid stack_layout ascii_text) as [Hops Hset]. split.
  - apply Hops. right. simpl. lia.
  - apply (Hset demo_tab_world (-5)). discriminate.
Defined.

(** C2. Notification exactness.  For the setter of a tab's
    [active_window_idx]: with [old] the window at the stored index and [new]
    the window at the clamped index, the [focus_changed] calls are
    [old.focus_changed(False)] (when [old] exists) followed by
    [new.focus_changed(True)] (when [new] exists) if the two are different
    objects, and there is none if they are the same or both absent.  For the
    setter of a manager's [active_tab_idx], in a manager whose tabs satisfy
    I1 and share no window, the same holds of the active windows of the
    outgoing and incoming tabs, and the setter returns normally. *)
Theorem C2_focus_notification_exactness :
  forall (L : Type) (H : LayoutStrategy L),
    (forall (s : TabWorld L) (val : Z),
       let old := py_index (windows (self s)) (_active_window_idx (self s)) in
       let new := py_index (windows (self s)) (clamp val (length (windows (self s)))) in
       let calls := focus_calls (events_of (Tab.active_window_idx_setter val s)) in
       (is_ old new = false -> calls = notify old false ++ notify new true) /\
       (is_ old new = true -> calls = [])) /\
    (forall (w : World L) (val : Z),
       tabs_wf w ->
       let old := tab_window w (py_index (tabs (tm w)) (_active_tab_idx (tm w))) in
       let new := tab_window w (py_index (tabs (tm w))
                                         (clamp val (length (tabs (tm w))))) in
       let calls := focus_calls (events_of (TabManager.active_tab_idx_setter val w)) in
       result_of (TabManager.active_tab_idx_setter val w) = Ok tt /\
       (is_ old new = false -> calls = notify old false ++ notify new true) /\
       (is_ old new = true -> calls = [])).
Proof.
  intros L H. split.
  - intros s val old new calls.
    destruct (setter_run val s) as (ev & Hrun & _ & Hcalls).
    subst calls. rewrite Hrun. unfold events_of. simpl. rewrite Hcalls.
    unfold spec_focus_calls. fold old new.
    split; intros E; rewrite E; reflexivity.
  - intros w val [HI Hdisj] old new calls.
    destruct (mgr_setter_run val w) as (res & ev & Hrun & Hev & Hok).
    simpl in Hok.
    assert (Hread : forall i t, py_index (tabs (tm w)) i = Some t ->
                                exists aw, active_window_of (tab_objs w t) = Ok aw).
    { intros i t Ht. apply I1_active_window, HI. exact (py_index_In _ _ Ht). }
    destruct Hok as [-> ->]; [intros t; apply Hread | intros t; apply Hread |].
    subst calls. rewrite Hrun. unfold result_of, events_of. simpl.
    split; [reflexivity |].
    destruct (py_index (tabs (tm w)) (_active_tab_idx (tm w))) as [o |] eqn:Eo;
      destruct (py_index (tabs (tm w)) (clamp val (length (tabs (tm w))))) as [n |] eqn:En;
      subst old new; simpl.
    + destruct (Nat.eqb_spec o n) as [-> | Hne].
      * rewrite is_refl. split; [discriminate | reflexivity].
      * destruct (Hread _ _ Eo) as [ao Hao]. destruct (Hread _ _ En) as [an Han].
        rewrite Hao, Han.
        assert (Hf : focus_calls (notify ao false ++ notify an true)
                     = notify ao false ++ notify an true)
          by (destruct ao, an; reflexivity).
        rewrite Hf. split; [reflexivity |].
        destruct ao as [x |], an as [y |]; simpl; try discriminate; [| reflexivity].
        intros Exy. apply Nat.eqb_eq in Exy. subst y. exfalso.
        apply (Hdisj o n x (py_index_In _ _ Eo) (py_index_In _ _ En) Hne).
        -- now apply active_window_of_In.
        -- now apply active_window_of_In.
    + destruct (Hread _ _ Eo) as [ao Hao]. rewrite Hao, app_nil_r.
      destruct ao; simpl; split; try discriminate; reflexivity.
    + destruct (Hread _ _ En) as [an Han]. rewrite Han.
      destruct an; simpl; split; try discriminate; reflexivity.
    + split; [discriminate | reflexivity].
Qed.

Lemma demo_world_wf : tabs_wf (demo_world 2).
Proof.
  split.
  - intros r _. right. simpl. lia.
  - simpl. intros r1 r2 x _ _ Hne [<- | []] [<- | []]. congruence.
Defined.

Lemma C2_witness :
  result_of (TabManager.active_tab_idx_setter 1 (demo_world 2)) = Ok tt /\
  focus_calls (events_of (TabManager.active_tab_idx_setter 1 (demo_world 2)))
  = [EFocusChanged 0 false; EFocusChanged 1 true].
Proof.
  destruct (C2_focus_notification_exactness stack_layout) as [_ Hm].
  destruct (Hm (demo_world 2) 1 demo_world_wf) as (Hres & Hdiff & _).
  split; [exact Hres | apply Hdiff; reflexivity].
Defined.



(** C4. Every assignment to [active_tab_idx] pushes the id of the tab at
    the old stored index onto the history, whatever the new index is (also
    when it equals the old one), and leaves the history alone when the old
    index resolves to no tab; the pushed id is the most recent entry, and
    the index stored afterwards is the clamped value. *)
Theorem C4_setter_pushes_outgoing_tab :
  forall (L : Type) (H : LayoutStrategy L) (w : World L) (val : Z),
    let w' := state_of (TabManager.active_tab_idx_setter val w) in
    active_tab_history (tm w') =
      match py_index (tabs (tm w)) (_active_tab_idx (tm w)) with
      | Some old => push_history (tab_id (tab_objs w old)) (active_tab_history (tm w))
      | None => active_tab_history (tm w)
      end /\
    _active_tab_idx (tm w') = clamp val (length (tabs (tm w))) /\
    match py_index (tabs (tm w)) (_active_tab_idx (tm w)) with
    | Some old => exists r, rev (active_tab_history (tm w')) = tab_id (tab_objs w old) :: r
    | None => True
    end.
Proof.
  intros L H w val w'.
  destruct (mgr_setter_run val w) as (res & ev & Hrun & _).
  subst w'. rewrite Hrun. unfold state_of, after_setter, outgoing_id. simpl.
  destruct (py_index (tabs (tm w)) (_active_tab_idx (tm w))) as [old |];
    repeat split; auto. apply push_history_rev.
Qed.

(** C5. Recency cap.  A history of at most 64 entries has at most 64
    entries after every operation of the manager; a push onto such a history
    keeps exactly the 64 most recent of the old entries and the new one, so
    the oldest is the one evicted; after 100 activations of distinct tabs the
    history holds the ids of the last 64 tabs left, oldest first. *)
Theorem C5_history_capacity :
  forall (L : Type) (H : LayoutStrategy L),
    (forall (w : World L) (ops : list ManagerOp),
       (length (active_tab_history (tm w)) <= 64)%nat ->
       Forall (fun w' => (length (active_tab_history (tm w')) <= 64)%nat)
              (states_after run_manager_op ops w)) /\
    (forall (x : Z) (h : list Z),
       (length h <= 64)%nat ->
       push_history x h = most_recent 64 (h ++ [x]) /\
       (length (push_history x h) <= 64)%nat) /\
    active_tab_history
      (tm (last (states_after run_manager_op
                   (map (fun i => OpSetActiveTabIdx (Z.of_nat i)) (seq 1 100))
                   (demo_world 101)) (demo_world 101)))
    = map (fun r => Z.of_nat r + 1) (seq 36 64).
Proof.
  intros L H. split; [| split].
  - intros w ops Hw. exact (history_invariant ops w Hw).
  - intros x h Hh. split; [now apply push_history_most_recent | now apply push_history_length].
  - exact hundred_activations.
Qed.

Lemma C5_witness :
  Forall (fun w' => (length (active_tab_history (tm w')) <= 64)%nat)
         (states_after run_manager_op
            [OpSetActiveTabIdx 1; OpMoveTab 1; OpRemove 0%nat] (demo_world 3)) /\
  push_history 9 [1; 2; 3] = most_recent 64 ([1; 2; 3] ++ [9]).
Proof.
  destruct (C5_history_capacity stack_layout) as (Hinv & Hpush & _). split.
  - apply Hinv. simpl. lia.
  - apply Hpush. simpl. lia.
Defined.

(** C6. Tab-bar boundary.  [_add_tab] calls [tab_bar.layout()] exactly when
    the manager had one tab, and then it is [tabbar_visibility_changed] run
    on the extended list; [_remove_tab] does so exactly when the tab is in
    the list and the manager had two tabs, and then it is
    [tabbar_visibility_changed] run on the shortened list.
    [tabbar_visibility_changed] lays the tab bar out once, runs a full
    relayout of every tab and nothing else, posts a wake-up, and returns. *)
Theorem C6_tab_bar_boundary :
  forall (L : Type) (H : LayoutStrategy L) (w : World L) (tab : nat),
    (In ETabBarLayout (events_of (TabManager._add_tab tab w))
       <-> length (tabs (tm w)) = 1%nat) /\
    (In ETabBarLayout (events_of (TabManager._remove_tab tab w))
       <-> In tab (tabs (tm w)) /\ length (tabs (tm w)) = 2%nat) /\
    (length (tabs (tm w)) = 1%nat ->
       TabManager._add_tab tab w = TabManager.tabbar_visibility_changed (appended tab w)) /\
    (In tab (tabs (tm w)) -> length (tabs (tm w)) = 2%nat ->
       TabManager._remove_tab tab w
       = match TabManager.tabbar_visibility_changed (removed tab w) with
         | (r, w', ev) => (r, w', ERemoveTab (tab_id (tab_objs w tab)) :: ev)
         end) /\
    (exists w' ev,
       TabManager.tabbar_visibility_changed w
         = (Ok tt, w', ETabBarLayout :: ev ++ [EPostEmptyEvent]) /\
       for_each (tabs (tm w)) (fun t => TabManager.on_tab t Tab.relayout) w
         = (Ok tt, w', ev) /\
       Forall tab_event ev /\ ~ In ETabBarLayout ev).
Proof.
  intros L H w tab. split; [| split; [| split; [| split]]].
  - split.
    + intros Hin. destruct (Nat.eq_dec (length (tabs (tm w))) 1) as [E | E]; [exact E |].
      rewrite (add_tab_quiet tab w E) in Hin. destruct Hin.
    + intros E. rewrite (add_tab_crossing tab w E).
      destruct (tabbar_visibility_changed_run (appended tab w)) as (w' & ev & -> & _).
      left. reflexivity.
  - split.
    + intros Hev. destruct (in_dec Nat.eq_dec tab (tabs (tm w))) as [Hin | Hin].
      * split; [exact Hin |].
        destruct (Nat.eq_dec (length (tabs (tm w))) 2) as [E | E]; [exact E |].
        rewrite (remove_tab_quiet tab w Hin E) in Hev.
        destruct Hev as [Hev | []]. discriminate.
      * rewrite (remove_tab_absent tab w Hin) in Hev.
        destruct Hev as [Hev | []]. discriminate.
    + intros [Hin E]. rewrite (remove_tab_crossing tab w Hin E).
      destruct (tabbar_visibility_changed_run (removed tab w)) as (w' & ev & -> & _).
      right. left. reflexivity.
  - apply add_tab_crossing.
  - apply remove_tab_crossing.
  - destruct (tabbar_visibility_changed_run w) as (w' & ev & Hrun & Hfor & Hev & _).
    exists w', ev. repeat split; try assumption.
    now apply tab_event_not_tab_bar_layout.
Qed.

Lemma C6_witness :
  TabManager._add_tab 1%nat (demo_world 1)
  = TabManager.tabbar_visibility_changed (appended 1%nat (demo_world 1)).
Proof.
  destruct (C6_tab_bar_boundary stack_layout (demo_world 1) 1%nat)
    as (_ & _ & Hadd & _).
  apply Hadd. reflexivity.
Defined.

(** C7. Moving the active tab.  With more than one tab and a valid active
    index [idx], [move_tab(delta)] exchanges the tabs at [idx] and
    [nidx = (idx + len + delta) mod len], calls [swap_tabs] once, with
    [idx] and [nidx], and stores [nidx] as the active index, where the tab
    that was active now is.  With at most one tab it does nothing. *)
Theorem C7_move_tab_preserves_identity :
  forall (L : Type) (H : LayoutStrategy L) (w : World L) (delta : Z),
    let n := Z.of_nat (length (tabs (tm w))) in
    let idx := _active_tab_idx (tm w) in
    let nidx := (idx + n + delta) mod n in
    (1 < n -> 0 <= idx < n ->
       exists active other ev,
         let w' := state_of (TabManager.move_tab delta w) in
         py_index (tabs (tm w)) idx = Some active /\
         py_index (tabs (tm w)) nidx = Some other /\
         tabs (tm w') = list_set (list_set (tabs (tm w)) (Z.to_nat idx) other)
                                 (Z.to_nat nidx) active /\
         _active_tab_idx (tm w') = nidx /\
         py_index (tabs (tm w')) (_active_tab_idx (tm w')) = Some active /\
         (idx <> nidx -> py_index (tabs (tm w')) idx = Some other) /\
         events_of (TabManager.move_tab delta w) = ESwapTabs idx nidx :: ev /\
         Forall not_swap ev) /\
    (n <= 1 -> TabManager.move_tab delta w = (Ok tt, w, [])).
Proof.
  intros L H w delta n idx nidx. split.
  - intros Hn Hidx.
    destruct (move_tab_run delta w Hn Hidx)
      as (a & b & res & ev & Ha & Hb & Hnidx & Hrun & Hev).
    fold n idx nidx in Ha, Hb, Hnidx, Hrun.
    exists b, a, ev. cbv zeta. rewrite Hrun. unfold state_of, events_of. simpl.
    unfold swapped. rewrite Ha, Hb. simpl.
    assert (Hlen : length (list_set (list_set (tabs (tm w)) (Z.to_nat idx) a)
                                    (Z.to_nat nidx) b) = length (tabs (tm w)))
      by (now rewrite !list_set_length).
    rewrite Hlen. rewrite (@clamp_id nidx (length (tabs (tm w))) Hnidx).
    repeat split; try assumption.
    + rewrite py_index_in_range by (rewrite Hlen; exact Hnidx).
      apply nth_error_list_set_eq. rewrite list_set_length. lia.
    + intros Hne. rewrite py_index_in_range by (rewrite Hlen; exact Hidx).
      rewrite nth_error_list_set_neq by lia.
      apply nth_error_list_set_eq. lia.
  - intros Hn. apply move_tab_single. lia.
Qed.

Lemma C7_witness :
  exists ev,
    events_of (TabManager.move_tab 1 (demo_world 3)) = ESwapTabs 0 1 :: ev /\
    py_index (tabs (tm (state_of (TabManager.move_tab 1 (demo_world 3)))))
             (_active_tab_idx (tm (state_of (TabManager.move_tab 1 (demo_world 3)))))
    = Some 0%nat.
Proof.
  destruct (C7_move_tab_preserves_identity stack_layout (demo_world 3) 1) as [Hmove _].
  destruct Hmove as (active & other & ev & Ha & _ & _ & _ & Hact & _ & Hev & _).
  - simpl. lia.
  - simpl. lia.
  - exists ev. split; [exact Hev |]. rewrite Hact, <- Ha. reflexivity.
Defined.

(** C8. [goto_layout] looks at the lower-cased name only, so two names with
    the same lower-cased form behave alike; for ASCII names these are the
    names that are equal up to the case of their letters, as ["TALL"] and
    ["tall"] are.  A name whose lower-cased form is not among the enabled
    layouts logs an error and leaves the tab as it was; for an ASCII name
    this happens whenever no enabled layout equals it up to case.  An ASCII
    name that equals an enabled lower-case layout up to case makes the tab
    create that layout.  No call raises.  With the enabled layouts as
    [__init__] stores them, an ASCII name is accepted exactly when it equals
    one of the configured ASCII names up to case. *)
Theorem C8_goto_layout_case_and_unknown :
  forall (L : Type) (H : LayoutStrategy L) (text : PyStr) (s : TabWorld L),
    (forall n1 n2 : string,
       str_lower n1 = str_lower n2 -> Tab.goto_layout n1 s = Tab.goto_layout n2 s) /\
    (forall n1 n2 : string,
       is_ascii n1 = true -> is_ascii n2 = true ->
       equal_ignoring_case n1 n2 = true ->
       Tab.goto_layout n1 s = Tab.goto_layout n2 s) /\
    Tab.goto_layout "TALL" s = Tab.goto_layout "tall" s /\
    (forall name : string,
       str_in (str_lower name) (enabled_layouts (self s)) = false ->
       Tab.goto_layout name s
       = (Ok tt, s,
          [ELogError ("Unknown or disabled layout: " ++ str_lower name)%string])) /\
    (forall name : string,
       is_ascii name = true ->
       (forall l, In l (enabled_layouts (self s)) -> equal_ignoring_case name l = false) ->
       exists small,
         equal_ignoring_case name small = true /\ has_no_capital small = true /\
         Tab.goto_layout name s
         = (Ok tt, s, [ELogError ("Unknown or disabled layout: " ++ small)%string])) /\
    (forall name l : string,
       is_ascii name = true ->
       In l (enabled_layouts (self s)) -> has_no_capital l = true ->
       equal_ignoring_case name l = true ->
       exists s' ev, Tab.goto_layout name s = (Ok tt, s', ECreateLayout l :: ev)) /\
    (forall name : string, result_of (Tab.goto_layout name s) = Ok tt) /\
    (forall (session opts : list string) (name : string),
       let configured := match session with [] => opts | _ => session end in
       is_ascii name = true ->
       Forall (fun n => is_ascii n = true) configured ->
       (str_in (str_lower name) (init_enabled_layouts session opts) = true
        <-> exists n, In n configured /\ equal_ignoring_case name n = true)).
Proof.
  intros L H text s. repeat apply conj.
  - intros n1 n2. apply goto_layout_case.
  - intros n1 n2 H1 H2 E. apply goto_layout_case. now apply str_lower_ignoring_case.
  - apply goto_layout_case. now apply str_lower_ignoring_case.
  - intros name. apply goto_layout_unknown.
  - intros name Hname Hno. exists (ascii_lower name).
    split; [apply equal_ignoring_case_lower |].
    split; [apply ascii_lower_has_no_capital |].
    rewrite <- (str_lower_ascii name Hname). apply goto_layout_unknown.
    destruct (str_in (str_lower name) (enabled_layouts (self s))) eqn:E; [| reflexivity].
    apply str_in_In in E. apply Hno in E.
    rewrite (str_lower_ascii name Hname), equal_ignoring_case_lower in E. discriminate.
  - intros name l Hname Hin Hl E.
    rewrite <- (str_lower_small name l Hname Hl E). apply goto_layout_known.
    rewrite (str_lower_small name l Hname Hl E). now apply str_in_In.
  - intros name. pose proof (goto_layout_never_raises name s) as Hw.
    apply wp_run in Hw. destruct Hw as [Hw _].
    destruct (result_of (Tab.goto_layout name s)) as [[] | x]; [reflexivity | destruct Hw].
  - intros session opts name configured Hname Hconf.
    unfold init_enabled_layouts. fold configured.
    rewrite str_in_In, in_map_iff. rewrite Forall_forall in Hconf. split.
    + intros (n & E & Hn). exists n. split; [exact Hn |].
      apply str_lower_ignoring_case; auto.
    + intros (n & Hn & E). exists n. split; [| exact Hn].
      symmetry. apply str_lower_ignoring_case; auto.
Qed.

Lemma C8_witness :
  (exists small,
     equal_ignoring_case "Grid" small = true /\ has_no_capital small = true /\
     Tab.goto_layout (text := ascii_text) "Grid" demo_tab_world
     = (Ok tt, demo_tab_world,
        [ELogError ("Unknown or disabled layout: " ++ small)%string])) /\
  (exists s' ev,
     Tab.goto_layout (text := ascii_text) "TALL" demo_tab_world
     = (Ok tt, s', ECreateLayout "tall" :: ev)) /\
  (str_in (str_lower (PyStr := ascii_text) "Tall")
          (init_enabled_layouts (text := ascii_text) [] ["Stack"; "TALL"]%string) = true
   <-> exists n, In n ["Stack"; "TALL"]%string /\ equal_ignoring_case "Tall" n = true).
Proof.
  destruct (C8_goto_layout_case_and_unknown stack_layout ascii_text demo_tab_world)
    as (_ & _ & _ & _ & Hunknown & Hknown & _ & Hinit).
  split; [| split].
  - apply (Hunknown "Grid"%string); [reflexivity |].
    intros l [<- | [<- | []]]; reflexivity.
  - apply (Hknown "TALL"%string "tall"%string); try reflexivity. simpl. auto.
  - apply (Hinit [] ["Stack"; "TALL"]%string "Tall"%string); [reflexivity |].
    repeat constructor.
Defined.

(** C9. Overlay linkage.  In a tab whose windows are allocated objects:
    when [overlay_for] is the id of a window [W1] of the tab and no other
    window of the tab has that id, [new_window] returns a new window [W2]
    with [W2.overlay_for == W1.id] and [W1.overlay_window_id == W2.id]; when
    no window of the tab has that id, [new_window] raises (the failed lookup
    propagates) after launching the child, leaves the tab unchanged, and
    hands no window to the boss or to the layout. *)
Theorem C9_overlay_linkage :
  forall (L : Type) (H : LayoutStrategy L) (s : TabWorld L) (ov new_id : Z),
    heap_wf s ->
    (forall W1 : nat,
       In W1 (windows (self s)) ->
       win_id (objs (heap s) W1) = ov ->
       (forall r, In r (windows (self s)) -> win_id (objs (heap s) r) = ov -> r = W1) ->
       exists W2 s' ev,
         Tab.new_window (Some ov) new_id s = (Ok W2, s', ev) /\
         win_id (objs (heap s') W2) = new_id /\
         overlay_for (objs (heap s') W2) = Some (win_id (objs (heap s') W1)) /\
         overlay_window_id (objs (heap s') W1) = Some (win_id (objs (heap s') W2))) /\
    ((forall r, In r (windows (self s)) -> win_id (objs (heap s) r) <> ov) ->
       exists h',
         Tab.new_window (Some ov) new_id s
         = (Raise StopIteration, mkTabWorld (self s) h' (tab_manager_ref s),
            [ELaunchChild])).
Proof.
  intros L H s ov new_id Hwf. split.
  - intros W1 Hin Hid Huniq.
    pose proof (new_window_overlay_wp new_id Hwf Hin Hid Huniq) as Hw.
    unfold wp in Hw.
    destruct (Tab.new_window (Some ov) new_id s) as [[[W2 | x] s'] ev];
      [| destruct Hw as [[] _]].
    destruct Hw as [(_ & Hnew & Hov & Hid1 & Hovw) _].
    exists W2, s', ev. rewrite Hid1, Hnew. auto.
  - intros Hno. now apply new_window_missing_overlay.
Qed.

Lemma demo_tab_world_heap_wf : heap_wf demo_tab_world.
Proof. intros r [<- | [<- | []]]; simpl; lia. Defined.

Lemma C9_witness :
  exists W2 s' ev,
    Tab.new_window (Some 11) 12 demo_tab_world = (Ok W2, s', ev) /\
    win_id (objs (heap s') W2) = 12 /\
    overlay_for (objs (heap s') W2) = Some (win_id (objs (heap s') 1%nat)) /\
    overlay_window_id (objs (heap s') 1%nat) = Some (win_id (objs (heap s') W2)).
Proof.
  destruct (C9_overlay_linkage stack_layout 11 12 demo_tab_world_heap_wf) as [Hlink _].
  apply (Hlink 1%nat).
  - simpl. auto.
  - reflexivity.
  - intros r [<- | [<- | []]]; simpl; intros E; [lia | reflexivity].
Defined.

(** C10. [set_active_window_idx] with the index already stored does
    nothing: it returns at once, with the state unchanged and without any
    call to the layout strategy, to a window, to the borders or to the
    event loop. *)
Theorem C10_set_active_window_idx_same_is_noop :
  forall (L : Type) (H : LayoutStrategy L) (s : TabWorld L),
    Tab.set_active_window_idx (_active_window_idx (self s)) s = (Ok tt, s, []).
Proof. intros L H s. apply set_active_window_idx_same. Qed.

(** ** Window operations: totality and calls to the chrome *)

Section TabTotality.
Context {L : Type} `{LayoutStrategy L} {text : PyStr}.

Lemma I1w_index (s : TabWorld L) a r :
  I1w s -> windows (self s) = a :: r ->
  exists x, py_index (a :: r) (_active_window_idx (self s)) = Some x.
Proof.
  intros [He | Hr] Hw; [congruence |]. rewrite Hw in Hr. now apply py_index_some.
Qed.

Lemma next_layout_index (names : list string) (i : Z) :
  (1 < Z.of_nat (length names)) ->
  exists x, py_index names ((i + 1) mod Z.of_nat (length names)) = Some x.
Proof. intros Hn. apply py_index_some. apply Z.mod_pos_bound. lia. Qed.

Lemma run_tab_op_total (op : TabOp) (s : TabWorld L) :
  I1w s -> has_overlay_target op = false ->
  wp (run_tab_op op) (fun _ => I1w) (fun _ => False) tab_event s.
Proof.
  intros Hs Hop. destruct op as [[ov |] ? | | | | | | | | | | | | | | | | |];
    try discriminate Hop; simpl;
    unfold Tab.new_window, Tab.new_Window, Tab.remove_window, Tab.close_window,
      Tab.set_active_window, Tab.set_active_window_idx, Tab.nth_window,
      Tab.next_window, Tab.previous_window, Tab._next_window,
      Tab.move_window_to_top, Tab.move_window_forward, Tab.move_window_backward,
      Tab.move_window, Tab.next_layout, Tab.goto_layout, Tab.create_layout_object,
      Tab.resize_window_by, Tab.reset_window_sizes, Tab.destroy, Tab.remove_window, when;
    repeat tab_step; try i1_done.
  - destruct (I1w_index Hs Heql) as [x Hx]. congruence.
  - apply Z.ltb_lt in Heqb.
    destruct (next_layout_index (enabled_layouts (self s))
                (Tab.layout_position (enabled_layouts (self s))
                   (full_name (current_layout (self s))) 0) Heqb) as [x Hx].
    congruence.
  - eapply wp_mono with (Q := fun _ => I1w) (E := fun _ => False) (V := tab_event).
    + apply wp_for_each.
      * intros x s' _ Hi. apply wp_emit; [reflexivity | exact Hi].
      * exact Hs.
    + intros _ s' _. apply wp_modify. now apply I1w_empty.
    + auto.
    + auto.
Qed.

(** From a state satisfying I1, no window operation raises, except
    [new_window] with an overlay target. *)
Lemma tab_ops_never_raise (op : TabOp) (s : TabWorld L) :
  I1 (self s) -> has_overlay_target op = false ->
  result_of (run_tab_op op s) = Ok tt /\ I1 (self (state_of (run_tab_op op s))).
Proof.
  intros Hs Hop. pose proof (run_tab_op_total op Hs Hop) as Hw.
  apply wp_run in Hw. destruct Hw as [Hw _].
  destruct (result_of (run_tab_op op s)) as [[] | x]; [split; [reflexivity | exact Hw] | destruct Hw].
Qed.
End TabTotality.

Section TabChrome.
Context {L : Type} `{LayoutStrategy L}.
Variable tm0 : option nat.

Lemma setter_chrome val (s : TabWorld L) :
  manager_is tm0 s -> Forall (chrome tm0) (events_of (Tab.active_window_idx_setter val s)).
Proof.
  unfold manager_is, chrome. intros <-.
  unfold Tab.active_window_idx_setter, bind, gets, Tab.set_self, modify, events_of.
  simpl.
  destruct (is_ _ _); simpl; [constructor |].
  rewrite !focus_changed_run.
  destruct (tab_manager_ref s) as [n |] eqn:Etm.
  - unfold Tab.relayout_borders, Tab.active_window, bind, gets. simpl.
    rewrite active_window_of_clamped. simpl.
    unfold Tab.tm_mark_tab_bar_dirty, when.
    destruct (py_index (windows (self s)) (clamp val _)) as [b |];
      destruct (py_index (windows (self s)) (_active_window_idx (self s))) as [a |];
      destruct (1 <? Z.of_nat n) eqn:En; simpl;
      repeat constructor; simpl; assumption.
  - destruct (py_index (windows (self s)) (clamp val _)) as [b |];
      destruct (py_index (windows (self s)) (_active_window_idx (self s))) as [a |];
      simpl; repeat constructor.
Qed.

Lemma wp_setter_chrome val (Q : unit -> TabWorld L -> Prop) E s :
  manager_is tm0 s -> Q tt (clamped val s) -> wp (Tab.active_window_idx_setter val) Q E (chrome tm0) s.
Proof.
  intros HJ HQ. pose proof (setter_chrome val HJ) as Hev.
  destruct (setter_run val s) as (ev & Hrun & _).
  unfold wp. rewrite Hrun in *. auto.
Qed.

Lemma wp_relayout_borders_chrome (Q : unit -> TabWorld L -> Prop) E s :
  manager_is tm0 s -> Q tt s -> (forall x, active_window_of (self s) = Raise x -> E s) ->
  wp Tab.relayout_borders Q E (chrome tm0) s.
Proof.
  unfold manager_is, chrome. intros <- HQ HE.
  unfold wp, Tab.relayout_borders, Tab.active_window, bind, gets. simpl.
  destruct (tab_manager_ref s); simpl; [| auto].
  destruct (active_window_of (self s)) as [[r |] | x] eqn:Eaw; simpl;
    try (split; [assumption | repeat constructor]).
  split; [eauto | constructor].
Qed.

Lemma wp_call_layout_chrome op f (Q : Z -> TabWorld L -> Prop) E s :
  (forall l' ws' i,
     Q i (mkTabWorld (Tab.with_windows ws' (Tab.with_layout l' (self s)))
                     (heap s) (tab_manager_ref s))) ->
  wp (Tab.call_layout op f) Q E (chrome tm0) s.
Proof.
  intros HQ. unfold wp, Tab.call_layout, bind, get. simpl.
  destruct (f _ _ _) as [[l' ws'] i]. simpl.
  split; [apply HQ | repeat constructor].
Qed.

Lemma wp_relayout_chrome (Q : unit -> TabWorld L -> Prop) E s :
  manager_is tm0 s -> (forall s', manager_is tm0 s' -> Q tt s') -> (forall s', manager_is tm0 s' -> E s') ->
  wp Tab.relayout Q E (chrome tm0) s.
Proof.
  intros HJ HQ HE. unfold Tab.relayout.
  apply wp_bind, wp_gets. apply wp_bind.
  destruct (windows (self s)).
  - apply wp_ret. apply wp_relayout_borders_chrome; auto.
  - apply wp_bind, wp_call_layout_chrome. intros l' ws' i.
    apply wp_setter_chrome; [exact HJ |].
    apply wp_relayout_borders_chrome; [exact HJ | apply HQ; exact HJ | intros; apply HE; exact HJ].
Qed.

End TabChrome.

Ltac chrome_step :=
  lazymatch goal with
  | |- wp (Tab.active_window_idx_setter _) _ _ _ _ =>
      apply wp_setter_chrome; [assumption |]
  | |- wp (Tab.call_layout _ _) _ _ _ _ => apply wp_call_layout_chrome; intros ? ? ?
  | |- wp Tab.relayout_borders _ _ _ _ =>
      apply wp_relayout_borders_chrome; [assumption | | intros ? ?]
  | |- wp Tab.relayout _ _ _ _ =>
      apply wp_relayout_chrome; [assumption | intros ? ? | intros ? ?]
  | _ => wp_step
  end; cbv beta.

Section TabChromeOps.
Context {L : Type} `{LayoutStrategy L} {text : PyStr}.

Lemma run_tab_op_chrome (op : TabOp) (tm0 : option nat) (s : TabWorld L) :
  manager_is tm0 s ->
  wp (run_tab_op op) (fun _ _ => True) (fun _ => True) (chrome tm0) s.
Proof.
  intros HJ.
  destruct op; simpl;
    unfold Tab.new_window, Tab.new_Window, Tab.remove_window, Tab.close_window,
      Tab.set_active_window, Tab.set_active_window_idx, Tab.nth_window,
      Tab.next_window, Tab.previous_window, Tab._next_window,
      Tab.move_window_to_top, Tab.move_window_forward, Tab.move_window_backward,
      Tab.move_window, Tab.next_layout, Tab.goto_layout, Tab.create_layout_object,
      Tab.resize_window_by, Tab.reset_window_sizes, Tab.destroy, Tab.remove_window, when;
    repeat chrome_step; try exact I.
  eapply wp_mono with (Q := fun _ _ => True) (E := fun _ => True) (V := chrome tm0).
  - apply wp_for_each; [| exact I].
    intros x s' _ _. apply wp_emit; [reflexivity | exact I].
  - intros _ s' _. now apply wp_modify.
  - auto.
  - auto.
Qed.

(** Whatever a window operation does, it touches the borders and title
    bars only while the manager is alive and marks the tab bar dirty only
    when the manager has more than one tab. *)
Lemma tab_ops_chrome (op : TabOp) (s : TabWorld L) :
  Forall (chrome (tab_manager_ref s)) (events_of (run_tab_op op s)).
Proof.
  pose proof (@run_tab_op_chrome op (tab_manager_ref s) s eq_refl) as Hw.
  apply wp_run in Hw. apply Hw.
Qed.
End TabChromeOps.

Section TabNotifications.
Context {L : Type} `{LayoutStrategy L}.

Lemma on_bell_chrome (window : nat) (s : TabWorld L) :
  Forall (chrome (tab_manager_ref s)) (events_of (Tab.on_bell window s)).
Proof.
  assert (Hw : wp (Tab.on_bell window) (fun _ _ => True) (fun _ => True)
                  (chrome (tab_manager_ref s)) s).
  { assert (HJ : manager_is (tab_manager_ref s) s) by reflexivity.
    unfold Tab.on_bell. apply wp_bind, wp_gets.
    destruct (tab_manager_ref s) as [n |] eqn:En; [| now apply wp_ret].
    apply wp_bind. apply wp_relayout_borders_chrome; [exact HJ | | auto].
    unfold Tab.tm_mark_tab_bar_dirty. apply wp_when; [| auto].
    intros E1. apply wp_emit; [exact E1 | exact I]. }
  apply wp_run in Hw. apply Hw.
Qed.

Lemma title_changed_chrome (window : nat) (s : TabWorld L) :
  Forall (chrome (tab_manager_ref s)) (events_of (Tab.title_changed window s)).
Proof.
  assert (Hw : wp (Tab.title_changed window) (fun _ _ => True) (fun _ => True)
                  (chrome (tab_manager_ref s)) s).
  { unfold Tab.title_changed, Tab.active_window.
    apply wp_bind, wp_bind, wp_gets. apply wp_lift_result.
    destruct (active_window_of (self s)) as [aw | x]; [| exact I].
    destruct (is_ (Some window) aw); [| now apply wp_ret].
    apply wp_bind, wp_gets.
    destruct (tab_manager_ref s) as [n |] eqn:En; [| now apply wp_ret].
    unfold Tab.tm_mark_tab_bar_dirty. apply wp_when; [| auto].
    intros E1. apply wp_emit; [exact E1 | exact I]. }
  apply wp_run in Hw. apply Hw.
Qed.

(** A title change of a window that is not the active one reaches nobody. *)
Lemma title_changed_inactive (window : nat) (s : TabWorld L) (aw : option nat) :
  active_window_of (self s) = Ok aw -> aw <> Some window ->
  Tab.title_changed window s = (Ok tt, s, []).
Proof.
  intros Haw Hne. unfold Tab.title_changed, Tab.active_window, bind, gets. simpl.
  rewrite Haw. simpl.
  destruct aw as [y |]; [| reflexivity].
  destruct (Nat.eqb_spec window y) as [-> | Hwy]; [congruence | reflexivity].
Qed.
End TabNotifications.

(** ** Navigation between tabs *)

Lemma mod_round_trip (idx n d : Z) :
  0 <= idx < n -> ((idx + n + d) mod n + n + - d) mod n = idx.
Proof.
  intros Hi. rewrite <- Z.add_assoc. rewrite Z.add_mod_idemp_l by lia.
  replace (idx + n + d + (n + - d)) with (idx + 2 * n) by lia.
  rewrite Z.mod_add by lia. apply Z.mod_small. lia.
Qed.

Section ManagerNavigation.
Context {L : Type} `{LayoutStrategy L}.

Lemma state_of_set_active_tab_idx (idx : Z) (w : World L) :
  let w' := state_of (TabManager.set_active_tab_idx idx w) in
  tm w' = tm (after_setter idx w) /\ same_ids w w'.
Proof.
  intros w'. pose proof (set_active_tab_idx_tm idx w) as Hw. apply wp_run in Hw.
  destruct Hw as [Hw _]. fold w' in Hw.
  destruct (result_of (TabManager.set_active_tab_idx idx w)); exact Hw.
Qed.

Lemma active_tab_total (w : World L) :
  idx_clamped (tm w) ->
  TabManager.active_tab w
  = (Ok (py_index (tabs (tm w)) (_active_tab_idx (tm w))), w, []) /\
  (py_index (tabs (tm w)) (_active_tab_idx (tm w)) = None <-> tabs (tm w) = []).
Proof.
  intros Hc. apply idx_clamped_I1' in Hc. unfold I1' in Hc.
  unfold TabManager.active_tab, bind, get. simpl.
  destruct (tabs (tm w)) as [| a r] eqn:Et.
  - rewrite py_index_nil. split; [reflexivity | split; reflexivity].
  - destruct Hc as [Hc | Hc]; [discriminate |].
    destruct (py_index_some (a :: r) Hc) as [x Hx]. rewrite Hx.
    split; [reflexivity | split; discriminate].
Qed.

Lemma goto_tab_out_of_range (tab_num : Z) (w : World L) :
  ~ (0 <= tab_num < Z.of_nat (length (tabs (tm w)))) ->
  TabManager.goto_tab tab_num w = (Ok tt, w, []).
Proof.
  intros Hn. unfold TabManager.goto_tab, bind, get. simpl.
  destruct ((tab_num <? Z.of_nat (length (tabs (tm w)))) && (0 <=? tab_num)) eqn:E;
    [| reflexivity].
  apply andb_true_iff in E. destruct E as [E1 E2].
  apply Z.ltb_lt in E1. apply Z.leb_le in E2. lia.
Qed.

Lemma goto_tab_in_range (tab_num : Z) (w : World L) :
  0 <= tab_num < Z.of_nat (length (tabs (tm w))) ->
  let w' := state_of (TabManager.goto_tab tab_num w) in
  tabs (tm w') = tabs (tm w) /\
  _active_tab_idx (tm w') = tab_num /\
  exists t, py_index (tabs (tm w')) (_active_tab_idx (tm w')) = Some t /\
            py_index (tabs (tm w)) tab_num = Some t.
Proof.
  intros Hr w'.
  assert (Ew : w' = state_of (TabManager.set_active_tab_idx tab_num w)).
  { subst w'. unfold TabManager.goto_tab, bind, get, state_of. simpl.
    replace ((tab_num <? Z.of_nat (length (tabs (tm w)))) && (0 <=? tab_num)) with true.
    - destruct (TabManager.set_active_tab_idx tab_num w) as [[r s] e]. reflexivity.
    - symmetry. apply andb_true_iff. split; [apply Z.ltb_lt | apply Z.leb_le]; lia. }
  destruct (state_of_set_active_tab_idx tab_num w) as [Htm _].
  rewrite <- Ew in Htm. rewrite Htm. simpl. rewrite (@clamp_id tab_num _ Hr).
  split; [reflexivity | split; [reflexivity |]].
  destruct (py_index_some (tabs (tm w)) Hr) as [t Ht]. eauto.
Qed.

Lemma next_tab_state (delta : Z) (w : World L) :
  let n := Z.of_nat (length (tabs (tm w))) in
  1 < n ->
  let w' := state_of (TabManager.next_tab delta w) in
  tabs (tm w') = tabs (tm w) /\
  _active_tab_idx (tm w') = (_active_tab_idx (tm w) + n + delta) mod n.
Proof.
  intros n Hn w'.
  assert (Ew : w' = state_of (TabManager.set_active_tab_idx
                                ((_active_tab_idx (tm w) + n + delta) mod n) w)).
  { subst w'. unfold TabManager.next_tab, bind, get, state_of. simpl. fold n.
    apply Z.ltb_lt in Hn. rewrite Hn.
    destruct (TabManager.set_active_tab_idx _ w) as [[r s] e]. reflexivity. }
  destruct (state_of_set_active_tab_idx ((_active_tab_idx (tm w) + n + delta) mod n) w)
    as [Htm _].
  rewrite <- Ew in Htm. rewrite Htm. simpl. split; [reflexivity |].
  apply clamp_id. apply Z.mod_pos_bound. lia.
Qed.

Lemma next_tab_single (delta : Z) (w : World L) :
  (length (tabs (tm w)) <= 1)%nat -> TabManager.next_tab delta w = (Ok tt, w, []).
Proof.
  intros Hn. unfold TabManager.next_tab, bind, get. simpl.
  destruct (1 <? Z.of_nat (length (tabs (tm w)))) eqn:E; [| reflexivity].
  apply Z.ltb_lt in E. lia.
Qed.

Lemma next_tab_round_trip (delta : Z) (w : World L) :
  1 < Z.of_nat (length (tabs (tm w))) ->
  0 <= _active_tab_idx (tm w) < Z.of_nat (length (tabs (tm w))) ->
  let w' := state_of (TabManager.next_tab (- delta)
                        (state_of (TabManager.next_tab delta w))) in
  tabs (tm w') = tabs (tm w) /\ _active_tab_idx (tm w') = _active_tab_idx (tm w).
Proof.
  intros Hn Hi w'.
  destruct (next_tab_state delta w Hn) as [Ht1 Hi1].
  set (w1 := state_of (TabManager.next_tab delta w)) in *.
  assert (Hn1 : 1 < Z.of_nat (length (tabs (tm w1)))) by (rewrite Ht1; exact Hn).
  destruct (next_tab_state (- delta) w1 Hn1) as [Ht2 Hi2].
  fold w' in Ht2, Hi2. rewrite Ht2, Hi2, Ht1, Hi1. split; [reflexivity |].
  now apply mod_round_trip.
Qed.

Lemma remove_absent (tab : nat) (w : World L) :
  ~ In tab (tabs (tm w)) ->
  TabManager.remove tab w
  = (Raise ValueError, w, [ERemoveTab (tab_id (tab_objs w tab))]).
Proof.
  intros Hn. unfold TabManager.remove. unfold bind at 1.
  rewrite (remove_tab_absent tab w Hn). reflexivity.
Qed.

End ManagerNavigation.

(** ** Moving a tab there and back *)

Lemma nth_error_list_set {A} (l : list A) (k j : nat) (x : A) :
  nth_error (list_set l k x) j
  = if Nat.eqb k j then (if Nat.ltb k (length l) then Some x else None)
    else nth_error l j.
Proof.
  destruct (Nat.eqb_spec k j) as [<- | Hne].
  - destruct (Nat.ltb_spec k (length l)) as [Hlt | Hge].
    + now apply nth_error_list_set_eq.
    + apply nth_error_None. rewrite list_set_length. lia.
  - now apply nth_error_list_set_neq.
Qed.

(** Exchanging two positions twice gives the list back. *)
Lemma swap_twice {A} (l : list A) (i j : nat) (x y x1 y1 : A) :
  nth_error l i = Some y -> nth_error l j = Some x ->
  let l1 := list_set (list_set l i x) j y in
  nth_error l1 i = Some x1 -> nth_error l1 j = Some y1 ->
  list_set (list_set l1 j x1) i y1 = l.
Proof.
  intros Hi Hj l1 Hx1 Hy1.
  assert (Hil : (i < length l)%nat) by (apply nth_error_Some; congruence).
  assert (Hjl : (j < length l)%nat) by (apply nth_error_Some; congruence).
  apply Nat.ltb_lt in Hil as Hil', Hjl as Hjl'.
  subst l1. rewrite !nth_error_list_set, ?list_set_length in Hx1, Hy1.
  rewrite Nat.eqb_refl, Hjl' in Hy1. injection Hy1 as <-.
  apply nth_error_ext. intros k.
  rewrite !nth_error_list_set, ?list_set_length. rewrite Hil', Hjl'.
  destruct (Nat.eqb_spec i k) as [<- | Hik].
  - congruence.
  - destruct (Nat.eqb_spec j k) as [<- | Hjk]; [| reflexivity].
    apply Nat.eqb_neq in Hik as Hik'. rewrite (Nat.eqb_sym j i), Hik' in Hx1.
    rewrite Nat.eqb_refl, Hil' in Hx1. congruence.
Qed.

Section MoveRoundTrip.
Context {L : Type} `{LayoutStrategy L}.

Lemma move_tab_state (delta : Z) (w : World L) :
  let n := Z.of_nat (length (tabs (tm w))) in
  let idx := _active_tab_idx (tm w) in
  let nidx := (idx + n + delta) mod n in
  1 < n -> 0 <= idx < n ->
  exists a b,
    nth_error (tabs (tm w)) (Z.to_nat nidx) = Some a /\
    nth_error (tabs (tm w)) (Z.to_nat idx) = Some b /\
    let w' := state_of (TabManager.move_tab delta w) in
    tabs (tm w') = list_set (list_set (tabs (tm w)) (Z.to_nat idx) a) (Z.to_nat nidx) b /\
    _active_tab_idx (tm w') = nidx.
Proof.
  intros n idx nidx Hn Hidx.
  destruct (move_tab_run delta w Hn Hidx)
    as (a & b & res & ev & Ha & Hb & Hnidx & Hrun & _).
  fold n idx nidx in Ha, Hb, Hnidx, Hrun.
  exists a, b. cbv zeta. rewrite Hrun. unfold state_of. simpl.
  unfold swapped. rewrite Ha, Hb. simpl.
  rewrite !list_set_length. rewrite (@clamp_id nidx _ Hnidx).
  rewrite <- (py_index_in_range _ Hnidx), <- (py_index_in_range _ Hidx).
  auto.
Qed.

Lemma move_tab_round_trip (delta : Z) (w : World L) :
  1 < Z.of_nat (length (tabs (tm w))) ->
  0 <= _active_tab_idx (tm w) < Z.of_nat (length (tabs (tm w))) ->
  let w' := state_of (TabManager.move_tab (- delta)
                        (state_of (TabManager.move_tab delta w))) in
  tabs (tm w') = tabs (tm w) /\ _active_tab_idx (tm w') = _active_tab_idx (tm w).
Proof.
  intros Hn Hi w'.
  set (n := Z.of_nat (length (tabs (tm w)))) in *.
  set (idx := _active_tab_idx (tm w)) in *.
  set (nidx := (idx + n + delta) mod n).
  assert (Hnidx : 0 <= nidx < n) by (apply Z.mod_pos_bound; lia).
  destruct (move_tab_state delta w Hn Hi) as (a & b & Ha & Hb & Ht1 & Hi1).
  fold n idx nidx in Ha, Hb, Ht1, Hi1.
  set (w1 := state_of (TabManager.move_tab delta w)) in *.
  assert (Hlen1 : Z.of_nat (length (tabs (tm w1))) = n).
  { rewrite Ht1, !list_set_length. reflexivity. }
  assert (Hn1 : 1 < Z.of_nat (length (tabs (tm w1)))) by (rewrite Hlen1; exact Hn).
  assert (Hidx1 : 0 <= _active_tab_idx (tm w1) < Z.of_nat (length (tabs (tm w1))))
    by (rewrite Hlen1, Hi1; exact Hnidx).
  destruct (move_tab_state (- delta) w1 Hn1 Hidx1) as (a1 & b1 & Ha1 & Hb1 & Ht2 & Hi2).
  fold w' in Ht2, Hi2.
  rewrite Hi1 in Ha1, Hb1, Ht2, Hi2.
  rewrite !Hlen1 in Ha1, Ht2, Hi2.
  assert (Eback : (nidx + n + - delta) mod n = idx) by (apply mod_round_trip; exact Hi).
  rewrite Eback in Ha1, Ht2, Hi2.
  split; [| exact Hi2].
  rewrite Ht2. rewrite Ht1 in *.
  exact (swap_twice _ _ _ Hb Ha Ha1 Hb1).
Qed.
End MoveRoundTrip.

(** ** Closing a tab *)

Lemma In_remove_first (x y : nat) (l : list nat) :
  In x l -> x <> y -> In x (remove_first y l).
Proof.
  induction l as [| a r IH]; simpl; [auto |].
  intros [-> | Hin] Hne.
  - destruct (Nat.eqb_spec x y); [contradiction | now left].
  - destruct (Nat.eqb_spec a y); [assumption | right; auto].
Qed.

Lemma remove_first_In (x y : nat) (l : list nat) :
  In x (remove_first y l) -> In x l.
Proof.
  induction l as [| a r IH]; simpl; [auto |].
  destruct (Nat.eqb_spec a y); [auto |]. intros [-> | Hin]; auto.
Qed.

Lemma NoDup_map_injective {A B} (f : A -> B) (l : list A) (a b : A) :
  NoDup (map f l) -> In a l -> In b l -> f a = f b -> a = b.
Proof.
  induction l as [| x r IH]; simpl; [intros _ [] |].
  intros Hnd Ha Hb Hf. inversion Hnd as [| ? ? Hnotin Hnd']; subst.
  destruct Ha as [-> | Ha], Hb as [-> | Hb]; auto.
  - exfalso. apply Hnotin. rewrite Hf. now apply in_map.
  - exfalso. apply Hnotin. rewrite <- Hf. now apply in_map.
Qed.

Section ClosingATab.
Context {L : Type} `{LayoutStrategy L}.

Lemma state_of_remove (tab : nat) (w : World L) :
  In tab (tabs (tm w)) ->
  let w' := state_of (TabManager.remove tab w) in
  tabs (tm w') = remove_first tab (tabs (tm w)) /\
  _active_tab_idx (tm w') = reactivated_idx tab w.
Proof.
  intros Hin w'. pose proof (remove_selects tab w Hin) as Hw. apply wp_run in Hw.
  destruct Hw as [Hw _]. fold w' in Hw.
  destruct (result_of (TabManager.remove tab w)); exact Hw.
Qed.

(** Leaving tab [Ti] for any index and then removing any other tab makes
    [Ti] the active tab again. *)
Lemma closing_returns_to_previous (w : World L) (j : Z) (Ti Tk : nat) :
  NoDup (map (fun r => tab_id (tab_objs w r)) (tabs (tm w))) ->
  py_index (tabs (tm w)) (_active_tab_idx (tm w)) = Some Ti ->
  In Tk (tabs (tm w)) -> Tk <> Ti ->
  let w1 := state_of (TabManager.set_active_tab_idx j w) in
  let w2 := state_of (TabManager.remove Tk w1) in
  tabs (tm w2) = remove_first Tk (tabs (tm w)) /\
  py_index (tabs (tm w2)) (_active_tab_idx (tm w2)) = Some Ti.
Proof.
  intros Hnd Hact Hk Hne w1 w2.
  pose proof (py_index_In _ _ Hact) as Hi.
  destruct (state_of_set_active_tab_idx j w) as [Htm1 Hid1]. fold w1 in Htm1, Hid1.
  assert (Ht1 : tabs (tm w1) = tabs (tm w)) by (rewrite Htm1; reflexivity).
  assert (Hh1 : exists r, rev (active_tab_history (tm w1)) = tab_id (tab_objs w Ti) :: r).
  { rewrite Htm1. unfold after_setter, outgoing_id. simpl. rewrite Hact.
    apply push_history_rev. }
  destruct Hh1 as [r Hr].
  assert (Hk1 : In Tk (tabs (tm w1))) by (rewrite Ht1; exact Hk).
  destruct (state_of_remove Tk w1 Hk1) as [Ht2 Hi2]. fold w2 in Ht2, Hi2.
  rewrite Ht1 in Ht2. split; [exact Ht2 |].
  set (tabs' := remove_first Tk (tabs (tm w))) in *.
  set (ids := map (fun t => tab_id (tab_objs w t)) tabs').
  assert (Hi' : In Ti tabs') by (apply In_remove_first; auto).
  assert (Hidk : tab_id (tab_objs w Ti) <> tab_id (tab_objs w Tk)).
  { intros E. apply Hne. symmetry.
    exact (NoDup_map_injective (fun t => tab_id (tab_objs w t)) _ _ _ Hnd Hi Hk E). }
  assert (Hex : existsb (Z.eqb (tab_id (tab_objs w Ti))) ids = true).
  { apply existsb_exists. exists (tab_id (tab_objs w Ti)).
    split; [| apply Z.eqb_refl]. unfold ids. now apply (in_map (fun t => tab_id (tab_objs w t))). }
  destruct (proj1 (position_of_id_found _ ids 0) Hex) as [p Hp].
  assert (Hidx : reactivated_idx Tk w1 = p).
  { unfold reactivated_idx, spec_reactivation_target. rewrite Ht1. fold tabs'.
    replace (map (fun t => tab_id (tab_objs w1 t)) tabs') with ids
      by (apply map_ext; intros t; symmetry; apply Hid1).
    rewrite Hr, (Hid1 Tk). simpl. unfold survives at 1.
    apply Z.eqb_neq in Hidk. rewrite Hidk, Hex. simpl. now rewrite Hp. }
  rewrite Hi2, Hidx, Ht2.
  pose proof (position_of_id_bounds _ _ _ Hp) as Hb. unfold ids in Hb.
  rewrite length_map in Hb.
  rewrite py_index_in_range by lia.
  apply position_of_id_nth in Hp. rewrite Z.sub_0_r in Hp. unfold ids in Hp.
  rewrite nth_error_map in Hp.
  destruct (nth_error tabs' (Z.to_nat p)) as [t |] eqn:Et; [| discriminate].
  simpl in Hp. injection Hp as Hp. f_equal.
  apply nth_error_In in Et. apply remove_first_In in Et.
  exact (NoDup_map_injective (fun t => tab_id (tab_objs w t)) _ _ _ Hnd Et Hi Hp).
Qed.

End ClosingATab.

(** ** Constructing a manager, new tabs and lookup by id *)

Lemma tab_bar_layouts_app (e1 e2 : list Event) :
  tab_bar_layouts (e1 ++ e2) = (tab_bar_layouts e1 + tab_bar_layouts e2)%nat.
Proof. unfold tab_bar_layouts. now rewrite filter_app, length_app. Qed.

Lemma tab_bar_layouts_tab_events (ev : list Event) :
  Forall tab_event ev -> tab_bar_layouts ev = 0%nat.
Proof.
  unfold tab_bar_layouts. induction 1 as [| e r He Hr IH]; simpl; [reflexivity |].
  destruct e; simpl; try exact IH. discriminate He.
Qed.

Section ManagerConstruction.
Context {L : Type} `{LayoutStrategy L}.

(** One [_add_tab]: the tab is appended, nothing else of the manager
    changes, and the tab bar is laid out once exactly when there was one
    tab before. *)
Lemma add_tab_run (tab : nat) (w : World L) :
  exists w' ev,
    TabManager._add_tab tab w = (Ok tt, w', ev) /\
    mgr_frame (appended tab w) w' /\
    tab_bar_layouts ev = (if Nat.eqb (length (tabs (tm w))) 1 then 1 else 0)%nat.
Proof.
  destruct (Nat.eqb_spec (length (tabs (tm w))) 1) as [E | E].
  - rewrite (add_tab_crossing tab w E).
    destruct (tabbar_visibility_changed_run (appended tab w))
      as (w' & ev & -> & _ & Hev & Hf).
    exists w', (ETabBarLayout :: ev ++ [EPostEmptyEvent]).
    split; [reflexivity | split; [exact Hf |]].
    change (ETabBarLayout :: ev ++ [EPostEmptyEvent])
      with ([ETabBarLayout] ++ ev ++ [EPostEmptyEvent]).
    rewrite !tab_bar_layouts_app, (tab_bar_layouts_tab_events Hev). reflexivity.
  - rewrite (add_tab_quiet tab w E). exists (appended tab w), [].
    split; [reflexivity | split; [apply mgr_frame_refl | reflexivity]].
Qed.

Lemma add_tabs_run (ts : list nat) (w : World L) :
  exists w' ev,
    for_each ts TabManager._add_tab w = (Ok tt, w', ev) /\
    tm w' = TabManager.with_tabs (tabs (tm w) ++ ts) (tm w) /\
    same_ids w w' /\
    tab_bar_layouts ev
    = (if Nat.leb (length (tabs (tm w))) 1 && Nat.leb 2 (length (tabs (tm w)) + length ts)
       then 1 else 0)%nat.
Proof.
  revert w. induction ts as [| t r IH]; intros w.
  - exists w, []. rewrite app_nil_r. change (length (@nil nat)) with 0%nat.
    rewrite Nat.add_0_r.
    split; [reflexivity | split; [destruct (tm w); reflexivity | split; [intros x; reflexivity |]]].
    destruct (Nat.leb_spec (length (tabs (tm w))) 1), (Nat.leb_spec 2 (length (tabs (tm w))));
      try reflexivity; lia.
  - destruct (add_tab_run t w) as (w1 & e1 & Hrun1 & (Htm1 & Hid1 & _) & Hc1).
    destruct (IH w1) as (w' & e2 & Hrun2 & Htm2 & Hid2 & Hc2).
    exists w', (e1 ++ e2).
    change (for_each (t :: r) TabManager._add_tab w)
      with (bind (TabManager._add_tab t) (fun _ => for_each r TabManager._add_tab) w).
    unfold bind. rewrite Hrun1, Hrun2.
    split; [reflexivity |].
    split; [rewrite Htm2, Htm1; simpl; now rewrite <- app_assoc |].
    split; [eapply same_ids_trans; [exact Hid1 | exact Hid2] |].
    rewrite tab_bar_layouts_app, Hc1, Hc2, Htm1.
    change (tabs (tm (appended t w))) with (tabs (tm w) ++ [t]).
    rewrite length_app. change (length [t]) with 1%nat.
    change (length (t :: r)) with (S (length r)).
    destruct (Nat.eqb_spec (length (tabs (tm w))) 1);
      destruct (Nat.leb_spec (length (tabs (tm w))) 1);
      destruct (Nat.leb_spec (length (tabs (tm w)) + 1) 1);
      destruct (Nat.leb_spec 2 (length (tabs (tm w)) + 1 + length r));
      destruct (Nat.leb_spec 2 (length (tabs (tm w)) + S (length r)));
      try reflexivity; lia.
Qed.

Lemma set_active_tab_run (idx : Z) (w : World L) :
  exists res ev,
    TabManager._set_active_tab idx w = (res, after_setter idx w, ev) /\
    tab_bar_layouts ev = 0%nat.
Proof.
  pose proof (@wp_set_active_tab_ L idx
                (fun _ w' => w' = after_setter idx w)
                (fun w' => w' = after_setter idx w)
                (fun e => is_tab_bar_layout e = false) w) as Hw.
  unfold wp in Hw.
  destruct (TabManager._set_active_tab idx w) as [[res w'] ev].
  assert (Hres : w' = after_setter idx w /\ Forall (fun e => is_tab_bar_layout e = false) ev).
  { destruct res; apply Hw; try reflexivity;
      intros e' He'; destruct e'; try discriminate He'; reflexivity. }
  destruct Hres as [-> Hev]. clear Hw. exists res, ev. split; [reflexivity |].
  unfold tab_bar_layouts. induction Hev as [| e r He Hr IH]; [reflexivity |].
  cbn [filter]. rewrite He. exact IH.
Qed.

(** Constructing a manager from a session. *)
Lemma init_run (ts : list nat) (a : Z) (w : World L) :
  let w' := state_of (TabManager.__init__ ts a w) in
  tabs (tm w') = ts /\
  _active_tab_idx (tm w') = clamp a (length ts) /\
  active_tab_history (tm w')
    = match ts with [] => [] | t :: _ => [tab_id (tab_objs w t)] end /\
  tab_bar_layouts (events_of (TabManager.__init__ ts a w))
    = (if Nat.leb 2 (length ts) then 1 else 0)%nat.
Proof.
  set (w0 := mkWorld (mkTabManager [] [] 0) (tab_objs w) (wheap w)).
  destruct (add_tabs_run ts w0) as (w1 & e1 & Hrun1 & Htm1 & Hid1 & Hc1).
  destruct (set_active_tab_run (clamp a (length (tabs (tm w1)))) w1)
    as (res & e2 & Hrun2 & Hc2).
  assert (Hrun : TabManager.__init__ ts a w
                 = (res, after_setter (clamp a (length (tabs (tm w1)))) w1, e1 ++ e2)).
  { unfold TabManager.__init__, bind, TabManager.set_tm, modify, get. simpl.
    fold w0. rewrite Hrun1. simpl. rewrite Hrun2. reflexivity. }
  cbv zeta. rewrite Hrun. unfold state_of, events_of. simpl fst. simpl snd.
  assert (Ht1 : tabs (tm w1) = ts) by (rewrite Htm1; reflexivity).
  unfold after_setter, outgoing_id. cbn [tm tabs _active_tab_idx active_tab_history].
  rewrite !Ht1. rewrite Htm1.
  cbn [TabManager.with_tabs tm tabs _active_tab_idx active_tab_history w0 app].
  split; [reflexivity |]. split; [apply clamp_idem |]. split.
  - destruct ts as [| t r]; [now rewrite py_index_nil |].
    change (py_index (t :: r) 0) with (Some t). cbv beta iota.
    rewrite (Hid1 t). reflexivity.
  - rewrite tab_bar_layouts_app, Hc1, Hc2. simpl. now rewrite Nat.add_0_r.
Qed.

(** [new_tab]: the tab is appended, becomes the active one and is the
    value returned. *)
Lemma new_tab_state (tab : nat) (w : World L) :
  let w' := state_of (TabManager.new_tab tab w) in
  tabs (tm w') = tabs (tm w) ++ [tab] /\
  _active_tab_idx (tm w') = Z.of_nat (length (tabs (tm w))) /\
  py_index (tabs (tm w')) (_active_tab_idx (tm w')) = Some tab /\
  (forall t, result_of (TabManager.new_tab tab w) = Ok t -> t = tab).
Proof.
  set (n := Z.of_nat (length (tabs (tm w)))).
  destruct (add_tab_run tab w) as (w1 & e1 & Hrun1 & (Htm1 & _ & _) & _).
  destruct (set_active_tab_run n w1) as (res & e2 & Hrun2 & _).
  assert (Ht1 : tabs (tm w1) = tabs (tm w) ++ [tab]) by (rewrite Htm1; reflexivity).
  assert (Hn : 0 <= n < Z.of_nat (length (tabs (tm w) ++ [tab]))).
  { rewrite length_app. simpl. unfold n. lia. }
  assert (Hget : py_index (tabs (tm w) ++ [tab]) n = Some tab).
  { rewrite (py_index_in_range _ Hn). unfold n. rewrite Nat2Z.id.
    rewrite nth_error_app2 by lia. now rewrite Nat.sub_diag. }
  assert (Hst : tabs (tm (after_setter n w1)) = tabs (tm w) ++ [tab] /\
                _active_tab_idx (tm (after_setter n w1)) = n).
  { unfold after_setter. simpl. rewrite Ht1. split; [reflexivity | now apply clamp_id]. }
  destruct Hst as [Hs1 Hs2].
  assert (Hrun : exists r e, TabManager.new_tab tab w = (r, after_setter n w1, e) /\
                             (forall t, r = Ok t -> t = tab)).
  { unfold TabManager.new_tab. unfold bind at 1. unfold get at 1. cbv beta iota.
    unfold bind at 1. rewrite Hrun1. fold n. unfold bind at 1. rewrite Hrun2.
    destruct res as [[] | x].
    - unfold TabManager.mark_tab_bar_dirty, TabManager.tabs_get, when, bind, get.
      simpl.
      match goal with |- context [if ?c then _ else _] => destruct c end;
        unfold emit, ret; simpl; rewrite Ht1; fold n; rewrite Hget; simpl;
        do 2 eexists; (split; [reflexivity | intros t [= <-]; reflexivity]).
    - do 2 eexists. split; [reflexivity | discriminate]. }
  destruct Hrun as (r & e & Hrun & Hres).
  cbv zeta. rewrite Hrun. unfold state_of, result_of. simpl fst. simpl snd.
  rewrite Hs1, Hs2. fold n. auto.
Qed.

Lemma tab_for_id_find (wanted : Z) (w : World L) :
  TabManager.tab_for_id wanted w
  = (Ok (find (fun t => tab_id (tab_objs w t) =? wanted) (tabs (tm w))), w, []).
Proof. reflexivity. Qed.

(** Looking a tab up by id: a hit is a tab of the manager with that id, a
    miss means no tab has it, and with distinct ids every tab is found under
    its own id. *)
Lemma tab_for_id_spec (wanted : Z) (w : World L) :
  match result_of (TabManager.tab_for_id wanted w) with
  | Ok (Some t) => In t (tabs (tm w)) /\ tab_id (tab_objs w t) = wanted
  | Ok None => forall t, In t (tabs (tm w)) -> tab_id (tab_objs w t) <> wanted
  | Raise _ => False
  end.
Proof.
  rewrite tab_for_id_find. unfold result_of. simpl.
  destruct (find _ _) as [t |] eqn:Ef.
  - apply find_some in Ef. destruct Ef as [Hin Hid]. apply Z.eqb_eq in Hid. auto.
  - intros t Hin. apply (find_none _ _ Ef) in Hin. now apply Z.eqb_neq in Hin.
Qed.

Lemma tab_for_id_own (t : nat) (w : World L) :
  NoDup (map (fun r => tab_id (tab_objs w r)) (tabs (tm w))) ->
  In t (tabs (tm w)) ->
  result_of (TabManager.tab_for_id (tab_id (tab_objs w t)) w) = Ok (Some t).
Proof.
  intros Hnd Hin. pose proof (tab_for_id_spec (tab_id (tab_objs w t)) w) as Hs.
  destruct (result_of _) as [[t' |] | x]; [| | destruct Hs].
  - destruct Hs as [Hin' Hid]. do 2 f_equal.
    exact (NoDup_map_injective (fun r => tab_id (tab_objs w r)) _ _ _ Hnd Hin' Hin Hid).
  - exfalso. exact (Hs t Hin eq_refl).
Qed.

End ManagerConstruction.

(** ** The summary for the tab bar *)

Lemma is_some_iff (t : nat) (o : option nat) : is_ (Some t) o = true <-> o = Some t.
Proof.
  destruct o as [y |]; simpl; [| split; discriminate].
  rewrite Nat.eqb_eq. split; [intros ->; reflexivity | intros [= ->]; reflexivity].
Qed.

Section TabBarData.
Context {L : Type} {text : PyStr}.
Variable lb : Labels.

Lemma tab_bar_entries_Forall2 (w : World L) (at_ : option nat) (ts : list nat)
    (ds : list TabBarData) :
  tab_bar_entries lb w at_ ts = Ok ds ->
  Forall2 (fun t d => tab_bar_entry lb w at_ t = Ok d) ts ds.
Proof.
  revert ds. induction ts as [| t r IH]; intros ds; simpl.
  - intros [= <-]. constructor.
  - destruct (tab_bar_entry lb w at_ t) as [d | x] eqn:Ed; [| discriminate].
    destruct (tab_bar_entries lb w at_ r) as [ds' | x]; [| discriminate].
    intros [= <-]. constructor; auto.
Qed.

(** The title of an entry is what [strip] makes of the tab's name, or of
    the title of its active window, or of [appname]. *)
Lemma tab_bar_title_source (w : World L) (t : nat) (title : string) :
  tab_bar_title lb w t = Ok title ->
  exists src,
    title_source lb w t src /\ title = str_strip src /\
    (is_ascii src = true -> stripped_of src title).
Proof.
  assert (Hstrip : forall src, is_ascii src = true -> stripped_of src (str_strip src)).
  { intros src Hsrc. rewrite (str_strip_ascii src Hsrc). apply ascii_strip_spec. }
  unfold tab_bar_title, tab_title, active_window_of, title_source.
  destruct (tab_name lb t) as [| c r] eqn:En.
  - destruct (windows (tab_objs w t)) as [| a ws] eqn:Ew.
    + replace (str_or (appname lb) (appname lb)) with (appname lb)
        by (destruct (appname lb); reflexivity).
      intros [= <-]. exists (appname lb).
      split; [| split; [reflexivity | apply Hstrip]].
      repeat split; congruence.
    + destruct (py_index (a :: ws) (_active_window_idx (tab_objs w t))) as [aw |] eqn:Eaw;
        [| discriminate].
      intros [= <-]. exists (str_or (window_title lb aw) (appname lb)).
      split; [| split; [reflexivity | apply Hstrip]].
      repeat split; try congruence. intros _ _. exists aw. split; [reflexivity |].
      unfold str_or. destruct (window_title lb aw); reflexivity.
  - intros [= <-]. exists (String c r).
    split; [| split; [reflexivity | apply Hstrip]].
    repeat split; congruence.
Qed.

Lemma tab_bar_entry_fields (w : World L) (at_ : option nat) (t : nat) (d : TabBarData) :
  tab_bar_entry lb w at_ t = Ok d ->
  (tbd_needs_attention d = true <->
     exists x, In x (windows (tab_objs w t)) /\ window_needs_attention lb x = true) /\
  (tbd_is_active d = true <-> at_ = Some t) /\
  (tbd_is_last d = true <-> py_index (tabs (tm w)) (-1) = Some t) /\
  (exists src,
     title_source lb w t src /\ tbd_title d = str_strip src /\
     (is_ascii src = true -> stripped_of src (tbd_title d))).
Proof.
  unfold tab_bar_entry.
  destruct (tab_bar_title lb w t) as [title | x] eqn:Et; [| discriminate].
  intros [= <-]. simpl. repeat apply conj; try apply is_some_iff;
    try (apply existsb_exists); try (intros E; apply is_some_iff; exact E).
  now apply tab_bar_title_source.
Qed.

Lemma tab_bar_title_total (w : World L) (t : nat) :
  (tab_name lb t = EmptyString -> I1 (tab_objs w t)) ->
  exists title, tab_bar_title lb w t = Ok title.
Proof.
  intros Hi. unfold tab_bar_title, tab_title.
  destruct (tab_name lb t) as [| c r]; [| eauto].
  destruct (I1_active_window (Hi eq_refl)) as [aw Haw]. rewrite Haw.
  destruct aw; eauto.
Qed.

Lemma tab_bar_entries_total (w : World L) (at_ : option nat) (ts : list nat) :
  (forall t, In t ts -> tab_name lb t = EmptyString -> I1 (tab_objs w t)) ->
  exists ds, tab_bar_entries lb w at_ ts = Ok ds.
Proof.
  induction ts as [| t r IH]; intros Hi; simpl; [eauto |].
  unfold tab_bar_entry.
  destruct (tab_bar_title_total w t (Hi t (or_introl eq_refl))) as [title ->].
  destruct IH as [ds ->]; [intros t' Ht'; apply Hi; now right |]. eauto.
Qed.

(** The summary for the tab bar has one entry per tab, in order; an entry
    asks for attention exactly when a window of its tab does, is active
    exactly for the active tab and last exactly for the last tab, and its
    title is the stripped name or title. *)
Lemma tab_bar_data_entries (w : World L) (ds : list TabBarData) :
  tab_bar_data lb w = Ok ds ->
  Forall2
    (fun t d =>
       (tbd_needs_attention d = true <->
          exists x, In x (windows (tab_objs w t)) /\ window_needs_attention lb x = true) /\
       (tbd_is_active d = true <->
          py_index (tabs (tm w)) (_active_tab_idx (tm w)) = Some t) /\
       (tbd_is_last d = true <-> py_index (tabs (tm w)) (-1) = Some t) /\
       (exists src,
          title_source lb w t src /\ tbd_title d = str_strip src /\
          (is_ascii src = true -> stripped_of src (tbd_title d))))
    (tabs (tm w)) ds.
Proof.
  unfold tab_bar_data. destruct (tabs (tm w)) as [| a r] eqn:Et.
  - intros [= <-]. constructor.
  - destruct (py_index (a :: r) (_active_tab_idx (tm w))) as [at_ |] eqn:Eat;
      [| discriminate].
    intros Hds. apply tab_bar_entries_Forall2 in Hds.
    eapply Forall2_impl; [| exact Hds]. intros t d Hd.
    apply tab_bar_entry_fields in Hd. rewrite Et in Hd. exact Hd.
Qed.

Lemma tab_bar_data_total (w : World L) :
  idx_clamped (tm w) ->
  (forall t, In t (tabs (tm w)) -> tab_name lb t = EmptyString -> I1 (tab_objs w t)) ->
  exists ds, tab_bar_data lb w = Ok ds /\ length ds = length (tabs (tm w)).
Proof.
  intros Hc Hi. apply idx_clamped_I1' in Hc.
  assert (Hex : exists ds, tab_bar_data lb w = Ok ds).
  { unfold tab_bar_data. destruct (tabs (tm w)) as [| a r] eqn:Et; [eauto |].
    destruct Hc as [Hc | Hc]; [congruence |]. rewrite Et in Hc.
    destruct (py_index_some (a :: r) Hc) as [at_ ->].
    now apply tab_bar_entries_total. }
  destruct Hex as [ds Hds]. exists ds. split; [exact Hds |].
  apply tab_bar_data_entries in Hds. symmetry. exact (Forall2_length Hds).
Qed.

End TabBarData.

(** ** The manager's index, activation by object and the next layout *)

Section ManagerIndex.
Context {L : Type} `{LayoutStrategy L}.

Lemma idx_clamped_after_setter val (w : World L) : idx_clamped (tm (after_setter val w)).
Proof. unfold idx_clamped, after_setter. simpl. apply clamp_idem. Qed.

Lemma run_manager_op_idx (op : ManagerOp) (w : World L) :
  idx_clamped (tm w) ->
  wp (run_manager_op op) (fun _ w' => idx_clamped (tm w'))
     (fun w' => idx_clamped (tm w')) any_event w.
Proof.
  intros Hw. destruct op; simpl;
    unfold TabManager.set_active_tab, TabManager.next_tab, TabManager.goto_tab,
      TabManager.activate_tab_at, TabManager.set_active_tab_idx,
      TabManager.move_tab, TabManager.new_tab, TabManager.remove,
      TabManager._add_tab, TabManager._remove_tab, TabManager.active_tab,
      TabManager.tabs_get, TabManager.tabs_set;
    repeat mgr_step.
  all: repeat match goal with
       | Hx : tm ?w' = _ |- context [tm ?w'] => rewrite Hx
       end.
  all: try exact Hw.
  all: try (apply idx_clamped_after_setter).
  unfold idx_clamped in *. simpl. now rewrite list_set_length.
Qed.

Lemma index_invariant (ops : list ManagerOp) (w : World L) :
  idx_clamped (tm w) ->
  Forall (fun w' => idx_clamped (tm w')) (states_after run_manager_op ops w).
Proof.
  revert w. induction ops as [| op r IH]; intros w Hw; simpl; constructor.
  - pose proof (run_manager_op_idx op w Hw) as Hr. apply wp_run in Hr.
    destruct Hr as [Hr _]. destruct (result_of (run_manager_op op w)); exact Hr.
  - apply IH.
    pose proof (run_manager_op_idx op w Hw) as Hr. apply wp_run in Hr.
    destruct Hr as [Hr _]. destruct (result_of (run_manager_op op w)); exact Hr.
Qed.

Lemma index_of_nth (x : nat) (l : list nat) (k : nat) :
  index_of x l = Some k -> nth_error l k = Some x.
Proof.
  revert k. induction l as [| y r IH]; intros k; simpl; [discriminate |].
  destruct (Nat.eqb_spec y x) as [-> | Hne].
  - intros [= <-]. reflexivity.
  - destruct (index_of x r) as [k' |]; [| discriminate].
    intros [= <-]. simpl. now apply IH.
Qed.

Lemma set_active_tab_absent (tab : nat) (w : World L) :
  ~ In tab (tabs (tm w)) -> TabManager.set_active_tab tab w = (Ok tt, w, []).
Proof.
  intros Hn. unfold TabManager.set_active_tab, bind, get. simpl.
  now rewrite (index_of_not_In _ _ Hn).
Qed.

Lemma set_active_tab_present (tab : nat) (w : World L) :
  In tab (tabs (tm w)) ->
  let w' := state_of (TabManager.set_active_tab tab w) in
  tabs (tm w') = tabs (tm w) /\
  py_index (tabs (tm w')) (_active_tab_idx (tm w')) = Some tab.
Proof.
  intros Hin w'. apply index_of_In in Hin. destruct Hin as [k Hk].
  assert (Ew : w' = state_of (TabManager.set_active_tab_idx (Z.of_nat k) w)).
  { subst w'. unfold TabManager.set_active_tab, bind, get, state_of. simpl. rewrite Hk.
    destruct (TabManager.set_active_tab_idx (Z.of_nat k) w) as [[r s] e]. reflexivity. }
  destruct (state_of_set_active_tab_idx (Z.of_nat k) w) as [Htm _].
  rewrite <- Ew in Htm. rewrite Htm. simpl. split; [reflexivity |].
  apply index_of_nth in Hk as Hnth.
  assert (Hr : 0 <= Z.of_nat k < Z.of_nat (length (tabs (tm w)))).
  { assert (k < length (tabs (tm w)))%nat by (apply nth_error_Some; congruence). lia. }
  rewrite (@clamp_id _ _ Hr), (py_index_in_range _ Hr), Nat2Z.id. exact Hnth.
Qed.

End ManagerIndex.

Section NextLayout.
Context {L : Type} `{LayoutStrategy L}.

Lemma layout_position_absent (names : list string) (cur : string) (k : Z) :
  ~ In cur names -> Tab.layout_position names cur k = -1.
Proof.
  revert k. induction names as [| n r IH]; intros k Hn; simpl; [reflexivity |].
  destruct (String.eqb_spec n cur) as [-> | Hne]; [exfalso; apply Hn; now left |].
  apply IH. intros Hin. apply Hn. now right.
Qed.

Lemma layout_position_found (pre post : list string) (cur : string) (k : Z) :
  ~ In cur pre ->
  Tab.layout_position (pre ++ cur :: post) cur k = k + Z.of_nat (length pre).
Proof.
  revert k. induction pre as [| n r IH]; intros k Hn; simpl.
  - rewrite String.eqb_refl. lia.
  - destruct (String.eqb_spec n cur) as [-> | Hne]; [exfalso; apply Hn; now left |].
    rewrite IH by (intros Hin; apply Hn; now right). lia.
Qed.

(** [next_layout] asks for the layout named after the current one in
    [enabled_layouts]. *)
Lemma next_layout_run (s : TabWorld L) :
  let names := enabled_layouts (self s) in
  let pos := Tab.layout_position names (full_name (current_layout (self s))) 0 in
  (1 < length names)%nat ->
  exists nl s' ev,
    py_index names ((pos + 1) mod Z.of_nat (length names)) = Some nl /\
    Tab.next_layout s = (Ok tt, s', ECreateLayout nl :: ev).
Proof.
  intros names pos Hn.
  assert (Hn' : 1 < Z.of_nat (length names)) by lia.
  destruct (next_layout_index names pos Hn') as [nl Hnl].
  exists nl.
  pose proof (@wp_relayout L _ (fun _ _ => True) (fun _ => False)
                (mkTabWorld (Tab.with_layout (create_layout_object_for nl (tab_id (self s)))
                               (self s)) (heap s) (tab_manager_ref s))
                (fun _ _ _ => I)) as Hw.
  unfold wp in Hw.
  unfold Tab.next_layout, Tab.create_layout_object, Tab.set_self, bind, gets, modify, emit, ret.
  simpl. fold names. apply Z.ltb_lt in Hn'. rewrite Hn'. fold pos. rewrite Hnl. simpl.
  destruct (Tab.relayout _) as [[[[] | x] s'] ev]; [| destruct Hw as [[] _]].
  exists s', ev. split; reflexivity.
Qed.

Lemma next_layout_few (s : TabWorld L) :
  (length (enabled_layouts (self s)) <= 1)%nat -> Tab.next_layout s = (Ok tt, s, []).
Proof.
  intros Hn. unfold Tab.next_layout, bind, gets. simpl.
  destruct (1 <? Z.of_nat (length (enabled_layouts (self s)))) eqn:E; [| reflexivity].
  apply Z.ltb_lt in E. lia.
Qed.

End NextLayout.

(** * Further properties of the code *)

Lemma demo_ids_NoDup :
  NoDup (map (fun r => tab_id (tab_objs (demo_world 3) r)) (tabs (tm (demo_world 3)))).
Proof.
  simpl. repeat constructor; simpl; intros Hin;
    repeat (destruct Hin as [Hin | Hin]; [discriminate Hin |]); exact Hin.
Qed.

(** X1. The manager's active index: when the stored index is 0 for a
    manager without tabs and a valid position otherwise, it stays so after
    every operation of the manager (also one that raises), so that
    [active_tab] never raises and is [None] exactly when there is no tab. *)
Theorem X1_active_tab_index_invariant :
  forall (L : Type) (H : LayoutStrategy L) (w : World L) (ops : list ManagerOp),
    idx_clamped (tm w) ->
    Forall (fun w' =>
              I1' (tm w') /\
              0 <= _active_tab_idx (tm w') /\
              TabManager.active_tab w'
                = (Ok (py_index (tabs (tm w')) (_active_tab_idx (tm w'))), w', []) /\
              (py_index (tabs (tm w')) (_active_tab_idx (tm w')) = None
                 <-> tabs (tm w') = []))
           (states_after run_manager_op ops w).
Proof.
  intros L H w ops Hw. eapply Forall_impl; [| exact (index_invariant ops w Hw)].
  intros w' Hc. split; [now apply idx_clamped_I1' |].
  split; [unfold idx_clamped, clamp in Hc; lia |].
  now apply active_tab_total.
Qed.

Lemma X1_witness :
  Forall (fun w' => I1' (tm w'))
         (states_after run_manager_op
            [OpNewTab 3%nat; OpRemove 0%nat; OpMoveTab (-1); OpRemove 9%nat; OpGotoTab 7]
            (demo_world 3)).
Proof.
  eapply Forall_impl;
    [| apply (X1_active_tab_index_invariant stack_layout (demo_world 3)); reflexivity].
  intros w' Hw'. apply Hw'.
Defined.

(** X2. From a state satisfying I1 no window operation raises, except
    [new_window] with an overlay target; the state it leaves satisfies I1. *)
Theorem X2_window_operations_never_raise :
  forall (L : Type) (H : LayoutStrategy L) (text : PyStr) (op : TabOp) (s : TabWorld L),
    I1 (self s) -> has_overlay_target op = false ->
    result_of (run_tab_op op s) = Ok tt /\ I1 (self (state_of (run_tab_op op s))).
Proof. intros L H text op s. apply tab_ops_never_raise. Qed.

Lemma X2_witness :
  result_of (run_tab_op (text := ascii_text) OpCloseWindow demo_tab_world) = Ok tt /\
  I1 (self (state_of (run_tab_op (text := ascii_text) OpCloseWindow demo_tab_world))).
Proof.
  apply (X2_window_operations_never_raise stack_layout ascii_text OpCloseWindow
           demo_tab_world).
  - right. simpl. lia.
  - reflexivity.
Defined.

(** X3. Every call a window operation, [on_bell] or [title_changed] makes
    to the borders or to a title bar happens while the manager behind the
    weak reference is alive, and every [mark_tab_bar_dirty] reaches the
    native layer only when that manager has more than one tab. *)
Theorem X3_chrome_calls_need_live_manager :
  forall (L : Type) (H : LayoutStrategy L) (text : PyStr) (s : TabWorld L),
    (forall op : TabOp,
       Forall (fun e => chrome_ok (tab_manager_ref s) e = true)
              (events_of (run_tab_op op s))) /\
    (forall window : nat,
       Forall (fun e => chrome_ok (tab_manager_ref s) e = true)
              (events_of (Tab.on_bell window s)) /\
       Forall (fun e => chrome_ok (tab_manager_ref s) e = true)
              (events_of (Tab.title_changed window s))).
Proof.
  intros L H text s. split.
  - intros op. apply tab_ops_chrome.
  - intros window. split; [apply on_bell_chrome | apply title_changed_chrome].
Qed.

(** X4. [goto_tab] is bounds-checked: a number outside [0, len(tabs))
    changes nothing and calls nobody; a number inside makes the tab at that
    position the active one. *)
Theorem X4_goto_tab_bounds_checked :
  forall (L : Type) (H : LayoutStrategy L) (w : World L) (tab_num : Z),
    (~ (0 <= tab_num < Z.of_nat (length (tabs (tm w)))) ->
       TabManager.goto_tab tab_num w = (Ok tt, w, [])) /\
    (0 <= tab_num < Z.of_nat (length (tabs (tm w))) ->
       let w' := state_of (TabManager.goto_tab tab_num w) in
       tabs (tm w') = tabs (tm w) /\
       _active_tab_idx (tm w') = tab_num /\
       exists t, py_index (tabs (tm w')) (_active_tab_idx (tm w')) = Some t /\
                 py_index (tabs (tm w)) tab_num = Some t).
Proof.
  intros L H w tab_num. split;
    [apply goto_tab_out_of_range | apply goto_tab_in_range].
Qed.

Lemma X4_witness :
  TabManager.goto_tab 3 (demo_world 3) = (Ok tt, demo_world 3, []) /\
  _active_tab_idx (tm (state_of (TabManager.goto_tab 2 (demo_world 3)))) = 2.
Proof.
  split.
  - apply (X4_goto_tab_bounds_checked stack_layout (demo_world 3) 3). simpl. lia.
  - apply (X4_goto_tab_bounds_checked stack_layout (demo_world 3) 2). simpl. lia.
Defined.

(** X5. [next_tab(delta)] with more than one tab stores
    [(idx + len + delta) mod len] and keeps the tabs; with at most one tab
    it does nothing; from a valid index, [next_tab(delta)] followed by
    [next_tab(-delta)] is back at the index it started from. *)
Theorem X5_next_tab_cycles_and_returns :
  forall (L : Type) (H : LayoutStrategy L) (w : World L) (delta : Z),
    let n := Z.of_nat (length (tabs (tm w))) in
    (1 < n ->
       let w' := state_of (TabManager.next_tab delta w) in
       tabs (tm w') = tabs (tm w) /\
       _active_tab_idx (tm w') = (_active_tab_idx (tm w) + n + delta) mod n) /\
    (n <= 1 -> TabManager.next_tab delta w = (Ok tt, w, [])) /\
    (1 < n -> 0 <= _active_tab_idx (tm w) < n ->
       let w' := state_of (TabManager.next_tab (- delta)
                             (state_of (TabManager.next_tab delta w))) in
       tabs (tm w') = tabs (tm w) /\ _active_tab_idx (tm w') = _active_tab_idx (tm w)).
Proof.
  intros L H w delta n. split; [| split].
  - apply next_tab_state.
  - intros Hn. apply next_tab_single. lia.
  - apply next_tab_round_trip.
Qed.

Lemma X5_witness :
  _active_tab_idx (tm (state_of (TabManager.next_tab (-1) (demo_world 3)))) = 2.
Proof.
  destruct (X5_next_tab_cycles_and_returns stack_layout (demo_world 3) (-1)) as [Hn _].
  apply Hn. simpl. lia.
Defined.

(** X6. From a valid active index and with more than one tab,
    [move_tab(delta)] followed by [move_tab(-delta)] restores the order of
    the tabs and the active index. *)
Theorem X6_move_tab_there_and_back :
  forall (L : Type) (H : LayoutStrategy L) (w : World L) (delta : Z),
    1 < Z.of_nat (length (tabs (tm w))) ->
    0 <= _active_tab_idx (tm w) < Z.of_nat (length (tabs (tm w))) ->
    let w' := state_of (TabManager.move_tab (- delta)
                          (state_of (TabManager.move_tab delta w))) in
    tabs (tm w') = tabs (tm w) /\ _active_tab_idx (tm w') = _active_tab_idx (tm w).
Proof. intros L H w delta. apply move_tab_round_trip. Qed.

Lemma X6_witness :
  tabs (tm (state_of (TabManager.move_tab (- 2)
                        (state_of (TabManager.move_tab 2 (demo_world 3))))))
  = [0%nat; 1%nat; 2%nat].
Proof.
  apply (X6_move_tab_there_and_back stack_layout (demo_world 3) 2); simpl; lia.
Defined.

(** X7. With distinct tab ids: after an assignment of the active tab made
    while tab [Ti] was active, removing any other tab of the manager -
    the newly active one or a third one - makes [Ti] the active tab. *)
Theorem X7_closing_returns_to_previous_tab :
  forall (L : Type) (H : LayoutStrategy L) (w : World L) (j : Z) (Ti Tk : nat),
    NoDup (map (fun r => tab_id (tab_objs w r)) (tabs (tm w))) ->
    py_index (tabs (tm w)) (_active_tab_idx (tm w)) = Some Ti ->
    In Tk (tabs (tm w)) -> Tk <> Ti ->
    let w1 := state_of (TabManager.set_active_tab_idx j w) in
    let w2 := state_of (TabManager.remove Tk w1) in
    tabs (tm w2) = remove_first Tk (tabs (tm w)) /\
    py_index (tabs (tm w2)) (_active_tab_idx (tm w2)) = Some Ti.
Proof. intros L H w j Ti Tk. apply closing_returns_to_previous. Qed.

Lemma X7_witness :
  py_index
    (tabs (tm (state_of (TabManager.remove 1%nat
                           (state_of (TabManager.set_active_tab_idx 2 (demo_world 3)))))))
    (_active_tab_idx
       (tm (state_of (TabManager.remove 1%nat
                        (state_of (TabManager.set_active_tab_idx 2 (demo_world 3)))))))
  = Some 0%nat.
Proof.
  apply (X7_closing_returns_to_previous_tab stack_layout (demo_world 3) 2 (Ti := 0%nat)).
  - exact demo_ids_NoDup.
  - reflexivity.
  - simpl. auto.
  - discriminate.
Defined.

(** X8. [remove] of a tab that is not in the manager tells the native layer
    to remove it, then raises [ValueError] and leaves the manager, its
    history included, as it was. *)
Theorem X8_remove_unknown_tab_raises :
  forall (L : Type) (H : LayoutStrategy L) (w : World L) (tab : nat),
    ~ In tab (tabs (tm w)) ->
    TabManager.remove tab w
    = (Raise ValueError, w, [ERemoveTab (tab_id (tab_objs w tab))]).
Proof. intros L H w tab. apply remove_absent. Qed.

Lemma X8_witness :
  TabManager.remove 5%nat (demo_world 2) = (Raise ValueError, demo_world 2, [ERemoveTab 6]).
Proof.
  apply (X8_remove_unknown_tab_raises stack_layout (demo_world 2) 5%nat).
  simpl. intros [E | [E | []]]; discriminate E.
Defined.

(** X9. [TabManager.__init__]: the tabs of the session are the manager's
    tabs, in order; the active index is the session's, clamped; the history
    starts with the id of the first tab when there is one; and
    [tab_bar.layout()] is called once when the session has two or more tabs
    and not at all otherwise. *)
Theorem X9_manager_construction :
  forall (L : Type) (H : LayoutStrategy L) (w : World L) (session_tabs : list nat)
         (session_active_tab_idx : Z),
    let w' := state_of (TabManager.__init__ session_tabs session_active_tab_idx w) in
    tabs (tm w') = session_tabs /\
    _active_tab_idx (tm w') = clamp session_active_tab_idx (length session_tabs) /\
    active_tab_history (tm w')
      = match session_tabs with [] => [] | t :: _ => [tab_id (tab_objs w t)] end /\
    tab_bar_layouts (events_of (TabManager.__init__ session_tabs session_active_tab_idx w))
      = (if Nat.leb 2 (length session_tabs) then 1 else 0)%nat.
Proof. intros L H w ts a. apply init_run. Qed.

(** X10. [tab_bar_data]: when it returns, it has one entry per tab, in
    order, and the entry of a tab asks for attention exactly when one of the
    tab's windows does, is marked active exactly when the tab is the active
    tab and last exactly when it is [tabs[-1]].  Its title is [strip]
    applied to the tab's name, or, for a tab without a name, to the title of
    its active window, or to [appname] when that title is empty or the tab
    has no window; when that text is ASCII, the title is the text without
    its leading and trailing white space.  [tab_bar_data] returns whenever
    the active index is valid and the tabs without a name satisfy I1. *)
Theorem X10_tab_bar_data :
  forall (L : Type) (text : PyStr) (lb : Labels) (w : World L),
    (forall ds,
       tab_bar_data lb w = Ok ds ->
       Forall2
         (fun t d =>
            (tbd_needs_attention d = true <->
               exists x, In x (windows (tab_objs w t)) /\
                         window_needs_attention lb x = true) /\
            (tbd_is_active d = true <->
               py_index (tabs (tm w)) (_active_tab_idx (tm w)) = Some t) /\
            (tbd_is_last d = true <-> py_index (tabs (tm w)) (-1) = Some t) /\
            (exists src,
               title_source lb w t src /\ tbd_title d = str_strip src /\
               (is_ascii src = true -> stripped_of src (tbd_title d))))
         (tabs (tm w)) ds) /\
    (idx_clamped (tm w) ->
     (forall t, In t (tabs (tm w)) -> tab_name lb t = EmptyString -> I1 (tab_objs w t)) ->
     exists ds, tab_bar_data lb w = Ok ds /\ length ds = length (tabs (tm w))).
Proof.
  intros L text lb w. split; [apply tab_bar_data_entries | apply tab_bar_data_total].
Qed.

Lemma X10_witness :
  exists ds,
    tab_bar_data (text := ascii_text) demo_labels (demo_world 3) = Ok ds /\
    length ds = 3%nat /\
    map tbd_title ds = ["vim"; "logs"; "kitty"]%string.
Proof.
  destruct (X10_tab_bar_data ascii_text demo_labels (demo_world 3)) as [_ Htotal].
  destruct Htotal as (ds & Hds & Hlen).
  - reflexivity.
  - intros t _ _. right. simpl. lia.
  - exists ds. split; [exact Hds | split; [exact Hlen |]].
    vm_compute in Hds. injection Hds as <-. reflexivity.
Defined.

(** X11. [tab_for_id] never raises; a tab it returns is a tab of the manager
    with the id asked for; it returns [None] only when no tab has that id;
    and when the ids are distinct every tab is found under its own id. *)
Theorem X11_tab_for_id :
  forall (L : Type) (H : LayoutStrategy L) (w : World L),
    (forall wanted : Z,
       match result_of (TabManager.tab_for_id wanted w) with
       | Ok (Some t) => In t (tabs (tm w)) /\ tab_id (tab_objs w t) = wanted
       | Ok None => forall t, In t (tabs (tm w)) -> tab_id (tab_objs w t) <> wanted
       | Raise _ => False
       end) /\
    (NoDup (map (fun r => tab_id (tab_objs w r)) (tabs (tm w))) ->
     forall t, In t (tabs (tm w)) ->
       result_of (TabManager.tab_for_id (tab_id (tab_objs w t)) w) = Ok (Some t)).
Proof.
  intros L H w. split.
  - intros wanted. apply tab_for_id_spec.
  - intros Hnd t Hin. now apply tab_for_id_own.
Qed.

Lemma X11_witness :
  result_of (TabManager.tab_for_id 3 (demo_world 3)) = Ok (Some 2%nat).
Proof.
  destruct (X11_tab_for_id stack_layout (demo_world 3)) as [_ Hown].
  apply (Hown demo_ids_NoDup 2%nat). simpl. auto.
Defined.

(** X12. [new_tab] appends the tab, stores its position as the active
    index, so that it is the active tab, and when it returns, it returns
    that tab. *)
Theorem X12_new_tab_is_active_and_returned :
  forall (L : Type) (H : LayoutStrategy L) (w : World L) (tab : nat),
    let w' := state_of (TabManager.new_tab tab w) in
    tabs (tm w') = tabs (tm w) ++ [tab] /\
    _active_tab_idx (tm w') = Z.of_nat (length (tabs (tm w))) /\
    py_index (tabs (tm w')) (_active_tab_idx (tm w')) = Some tab /\
    (forall t, result_of (TabManager.new_tab tab w) = Ok t -> t = tab).
Proof. intros L H w tab. apply new_tab_state. Qed.

(** X13. [set_active_tab(tab)]: for a tab that is not in the manager nothing
    happens; for a tab of the manager, that tab becomes the active one. *)
Theorem X13_set_active_tab_by_object :
  forall (L : Type) (H : LayoutStrategy L) (w : World L) (tab : nat),
    (~ In tab (tabs (tm w)) -> TabManager.set_active_tab tab w = (Ok tt, w, [])) /\
    (In tab (tabs (tm w)) ->
       let w' := state_of (TabManager.set_active_tab tab w) in
       tabs (tm w') = tabs (tm w) /\
       py_index (tabs (tm w')) (_active_tab_idx (tm w')) = Some tab).
Proof.
  intros L H w tab. split; [apply set_active_tab_absent | apply set_active_tab_present].
Qed.

Lemma X13_witness :
  py_index (tabs (tm (state_of (TabManager.set_active_tab 2%nat (demo_world 3)))))
           (_active_tab_idx (tm (state_of (TabManager.set_active_tab 2%nat (demo_world 3)))))
  = Some 2%nat.
Proof.
  apply (X13_set_active_tab_by_object stack_layout (demo_world 3) 2%nat). simpl. auto.
Defined.

(** X14. [next_layout] with at least two enabled layouts never raises and
    first creates the layout whose name follows the current layout's name in
    [enabled_layouts], wrapping around; the position it starts from is that
    of the first occurrence of the current name, and [-1] when the name is
    not enabled, so that the first enabled layout is chosen then; with fewer
    than two enabled layouts it does nothing. *)
Theorem X14_next_layout_successor :
  forall (L : Type) (H : LayoutStrategy L) (s : TabWorld L),
    let names := enabled_layouts (self s) in
    let cur := full_name (current_layout (self s)) in
    let pos := Tab.layout_position names cur 0 in
    ((1 < length names)%nat ->
       exists nl s' ev,
         py_index names ((pos + 1) mod Z.of_nat (length names)) = Some nl /\
         Tab.next_layout s = (Ok tt, s', ECreateLayout nl :: ev)) /\
    (~ In cur names -> pos = -1) /\
    (forall pre post, names = pre ++ cur :: post -> ~ In cur pre ->
       pos = Z.of_nat (length pre)) /\
    ((length names <= 1)%nat -> Tab.next_layout s = (Ok tt, s, [])).
Proof.
  intros L H s names cur pos. split; [| split; [| split]].
  - apply next_layout_run.
  - apply layout_position_absent.
  - intros pre post E Hn. subst pos. rewrite E.
    now rewrite layout_position_found.
  - apply next_layout_few.
Qed.

Lemma X14_witness :
  exists s' ev, Tab.next_layout demo_tab_world = (Ok tt, s', ECreateLayout "tall" :: ev).
Proof.
  destruct (X14_next_layout_successor stack_layout demo_tab_world) as [Hrun _].
  destruct Hrun as (nl & s' & ev & Hnl & Hrun).
  - simpl. lia.
  - exists s', ev. rewrite Hrun. injection Hnl as <-. reflexivity.
Defined.

(** ** Sessions, resizing and destruction *)

Section Startup.
Context {L : Type} `{LayoutStrategy L}.

Lemma wp_new_window_I1 (ov : option Z) (new_id : Z) (s : TabWorld L) :
  I1w s ->
  wp (Tab.new_window ov new_id) (fun _ => I1w)
     (fun s' => I1w s' /\ ov <> None) tab_event s.
Proof.
  intros Hs. unfold Tab.new_window, Tab.new_Window.
  repeat tab_step; try i1_done.
  split; [i1_done | discriminate].
Qed.

Lemma startup_I1 (ws : list (option Z * Z)) (a : Z) (s : TabWorld L) :
  I1w s ->
  wp (Tab.startup ws a) (fun _ => I1w)
     (fun s' => I1w s' /\ exists c, In c ws /\ fst c <> None) tab_event s.
Proof.
  intros Hs. unfold Tab.startup. apply wp_bind.
  eapply wp_mono with (Q := fun _ => I1w)
                      (E := fun s' => I1w s' /\ exists c, In c ws /\ fst c <> None)
                      (V := tab_event); [| | auto | auto].
  - assert (Hgen : forall l s0, (forall c, In c l -> In c ws) -> I1w s0 ->
              wp (for_each l (fun c => _ <- Tab.new_window (fst c) (snd c);; ret tt)%monad)
                 (fun _ => I1w)
                 (fun s' => I1w s' /\ exists c, In c ws /\ fst c <> None) tab_event s0).
    { induction l as [| c r IH]; intros s0 Hsub Hs0; simpl.
      - now apply wp_ret.
      - apply wp_bind, wp_bind.
        eapply wp_mono; [apply (wp_new_window_I1 (fst c) (snd c) Hs0) | | | auto].
        + intros w2 s1 Hs1. apply wp_ret. apply IH; [intros c' Hc'; apply Hsub; now right | exact Hs1].
        + intros s1 [Hs1 Hov]. split; [exact Hs1 |]. exists c. split; [apply Hsub; now left | exact Hov]. }
    apply Hgen; auto.
  - intros [] s1 Hs1. unfold Tab.set_active_window_idx.
    repeat tab_step; try i1_done.
Qed.

End Startup.


Section Resize.
Context {L : Type} `{LayoutStrategy L}.

Lemma relaid_refl (w : World L) : relaid w w.
Proof. split; [apply mgr_frame_refl | auto]. Qed.

Lemma relaid_trans (w1 w2 w3 : World L) : relaid w1 w2 -> relaid w2 w3 -> relaid w1 w3.
Proof.
  intros [F1 P1] [F2 P2]. split; [eapply mgr_frame_trans; eauto | auto].
Qed.

(** A relayout of the tab object [r] leaves it with I1. *)
Lemma wp_on_tab_relayout_I1 (r : nat) (Q : unit -> World L -> Prop) E V w :
  (forall e, tab_event e -> V e) ->
  (forall w', relaid w w' -> I1 (tab_objs w' r) -> Q tt w') ->
  wp (TabManager.on_tab r Tab.relayout) Q E V w.
Proof.
  intros HV HQ.
  eapply wp_on_tab with (Qt := fun _ tw => I1w tw /\ tab_frame (tab_view w r) tw)
                        (Et := fun _ => False); [| | | exact HV].
  - apply wp_relayout. auto.
  - intros [] tw [Hi Hf]. apply HQ.
    + split; [now apply mgr_frame_put_tab |].
      intros t Ht. unfold put_tab. simpl.
      destruct (Nat.eqb_spec t r); [exact Hi | exact Ht].
    + unfold put_tab. simpl. rewrite Nat.eqb_refl. exact Hi.
  - intros tw [].
Qed.

Lemma relayout_all_I1 (ts : list nat) (w : World L) :
  wp (for_each ts (fun tab => TabManager.on_tab tab Tab.relayout))
     (fun _ w' => relaid w w' /\ forall t, In t ts -> I1 (tab_objs w' t))
     (fun _ => False) tab_event w.
Proof.
  revert w. induction ts as [| t r IH]; intros w; simpl.
  - apply wp_ret. split; [apply relaid_refl | intros t []].
  - apply wp_bind, wp_on_tab_relayout_I1; [auto |]. intros w1 Hr1 Ht1.
    eapply wp_mono; [apply IH | | auto | auto].
    intros [] w2 [Hr2 Hall]. split; [eapply relaid_trans; eauto |].
    intros t' [<- | Hin]; [apply Hr2; exact Ht1 | now apply Hall].
Qed.

(** [resize] never raises, lays the tab bar out exactly when asked to resize
    more than the tabs, keeps the manager object and leaves every tab of
    the manager with I1. *)
Lemma resize_run (only_tabs : bool) (w : World L) :
  exists w' ev,
    TabManager.resize only_tabs w = (Ok tt, w', ev) /\
    tm w' = tm w /\
    (forall t, In t (tabs (tm w)) -> I1 (tab_objs w' t)) /\
    tab_bar_layouts ev = (if only_tabs then 0 else 1)%nat.
Proof.
  pose proof (relayout_all_I1 (tabs (tm w)) w) as Hw. unfold wp in Hw.
  destruct (for_each _ _ w) as [[[[] | x] w'] ev] eqn:Hrun; [| destruct Hw as [[] _]].
  destruct Hw as [[[(Htm & _) _] Hall] Hev].
  unfold TabManager.resize, TabManager.mark_tab_bar_dirty, when, bind, get, emit, ret.
  destruct only_tabs; simpl.
  - rewrite Hrun. exists w', ev. repeat split; auto.
    now apply tab_bar_layouts_tab_events.
  - destruct (1 <? Z.of_nat (length (tabs (tm w)))); simpl; rewrite Hrun;
      eexists w', _; (repeat split; [exact Htm | exact Hall |]);
      unfold tab_bar_layouts in *; simpl;
      pose proof (tab_bar_layouts_tab_events Hev) as H0; unfold tab_bar_layouts in H0;
      now rewrite H0.
Qed.

(** When [remove] returns, the removed tab holds no window any more. *)
Lemma remove_empties_tab (tab : nat) (w : World L) :
  wp (TabManager.remove tab)
     (fun _ w' => windows (tab_objs w' tab) = [])
     (fun _ => True) any_event w.
Proof.
  unfold TabManager.remove. apply wp_bind.
  eapply wp_mono with (Q := fun _ _ => True) (E := fun _ => True) (V := any_event);
    [| | auto | auto].
  - unfold wp. destruct (TabManager._remove_tab tab w) as [[[[] | x] w1] ev];
      (split; [exact I | apply Forall_forall; intros; exact I]).
  - intros [] w1 _. apply wp_bind, wp_get.
    destruct (reactivation_loop _ _ _) as [rest found].
    apply wp_bind, wp_modify. apply wp_bind.
    apply wp_set_active_tab_; [intros; exact I | exact I | | exact I].
    apply wp_bind, wp_mark_tab_bar_dirty; [exact I |].
    eapply wp_on_tab with (Qt := fun _ tw => windows (self tw) = [])
                          (Et := fun _ => False); [| | | intros; exact I].
    + unfold Tab.destroy. apply wp_bind, wp_gets. apply wp_bind, wp_emit; [reflexivity |].
      apply wp_bind.
      eapply wp_mono with (Q := fun _ _ => True) (E := fun _ => False) (V := tab_event);
        [| | auto | auto].
      * apply wp_for_each; [| exact I]. intros x s' _ _. apply wp_emit; [reflexivity | exact I].
      * intros [] s' _. apply wp_modify. reflexivity.
    + intros [] tw Hw. unfold put_tab. simpl. now rewrite Nat.eqb_refl.
    + intros tw [].
Qed.

(** The manager's [active_window]. *)
Lemma manager_active_window (w : World L) :
  idx_clamped (tm w) ->
  (forall t, In t (tabs (tm w)) -> I1 (tab_objs w t)) ->
  exists aw,
    TabManager.active_window w = (Ok aw, w, []) /\
    match aw with
    | Some x => exists t, py_index (tabs (tm w)) (_active_tab_idx (tm w)) = Some t /\
                          In x (windows (tab_objs w t))
    | None => tabs (tm w) = [] \/
              exists t, py_index (tabs (tm w)) (_active_tab_idx (tm w)) = Some t /\
                        windows (tab_objs w t) = []
    end.
Proof.
  intros Hc Hi. destruct (active_tab_total w Hc) as [Hrun Hnone].
  unfold TabManager.active_window, bind. rewrite Hrun.
  destruct (py_index (tabs (tm w)) (_active_tab_idx (tm w))) as [t |] eqn:Et.
  - unfold get, lift_result. simpl.
    destruct (I1_active_window (Hi t (py_index_In _ _ Et))) as [aw Haw]. rewrite Haw. simpl.
    exists aw. split; [reflexivity |]. destruct aw as [x |].
    + exists t. split; [reflexivity | now apply active_window_of_In].
    + right. exists t. split; [reflexivity |].
      unfold active_window_of in Haw.
      destruct (windows (tab_objs w t)) as [| a r]; [reflexivity |].
      destruct (py_index (a :: r) (_active_window_idx (tab_objs w t))); discriminate Haw.
  - exists None. split; [reflexivity |]. left. now apply Hnone.
Qed.

End Resize.

(** X15. [resize] never raises; it lays the tab bar out once when more than
    the tabs are resized and not at all otherwise; it leaves the manager's
    tabs, index and history alone; and afterwards every tab of the manager
    satisfies I1, whatever its index was before. *)
Theorem X15_resize_relayouts_every_tab :
  forall (L : Type) (H : LayoutStrategy L) (only_tabs : bool) (w : World L),
    exists w' ev,
      TabManager.resize only_tabs w = (Ok tt, w', ev) /\
      tm w' = tm w /\
      (forall t, In t (tabs (tm w)) -> I1 (tab_objs w' t)) /\
      tab_bar_layouts ev = (if only_tabs then 0 else 1)%nat.
Proof. intros L H only_tabs w. apply resize_run. Qed.

(** X16. [startup]: a tab that satisfies I1 (as a new tab without windows
    does) satisfies it after the session's windows were created and the
    session's active window index was applied, whatever that index is; and
    when no window of the session is an overlay, [startup] does not raise. *)
Theorem X16_startup_keeps_index_valid :
  forall (L : Type) (H : LayoutStrategy L) (s : TabWorld L)
         (session_windows : list (option Z * Z)) (session_active_window_idx : Z),
    I1 (self s) ->
    I1 (self (state_of (Tab.startup session_windows session_active_window_idx s))) /\
    ((forall c, In c session_windows -> fst c = None) ->
     result_of (Tab.startup session_windows session_active_window_idx s) = Ok tt).
Proof.
  intros L H s ws a Hs. pose proof (startup_I1 ws a Hs) as Hw.
  apply wp_run in Hw. destruct Hw as [Hw _].
  destruct (result_of (Tab.startup ws a s)) as [[] | x].
  - split; [exact Hw | reflexivity].
  - destruct Hw as [Hi (c & Hc & Hov)]. split; [exact Hi |].
    intros Hnone. exfalso. apply Hov. now apply Hnone.
Qed.

Lemma X16_witness :
  I1 (self (state_of (Tab.startup [(None, 12); (Some 12, 13)] 9 demo_tab_world))).
Proof.
  apply (X16_startup_keeps_index_valid stack_layout demo_tab_world
           [(None, 12); (Some 12, 13)] 9).
  right. simpl. lia.
Defined.

(** X17. When [remove] returns, the removed tab has been destroyed: it
    holds no window any more. *)
Theorem X17_remove_destroys_the_tab :
  forall (L : Type) (H : LayoutStrategy L) (w : World L) (tab : nat),
    result_of (TabManager.remove tab w) = Ok tt ->
    windows (tab_objs (state_of (TabManager.remove tab w)) tab) = [].
Proof.
  intros L H w tab Hres. pose proof (remove_empties_tab tab w) as Hw.
  apply wp_run in Hw. destruct Hw as [Hw _]. rewrite Hres in Hw. exact Hw.
Qed.

Lemma X17_witness :
  windows (tab_objs (state_of (TabManager.remove 2%nat (demo_world 3))) 2%nat) = [].
Proof.
  apply (X17_remove_destroys_the_tab stack_layout (demo_world 3) 2%nat). reflexivity.
Defined.

(** X18. The manager's [active_window]: with a valid active index and tabs
    that satisfy I1 it never raises and changes nothing; a window it returns
    is a window of the active tab; it returns [None] only when there is no
    tab or the active tab has no window. *)
Theorem X18_manager_active_window :
  forall (L : Type) (H : LayoutStrategy L) (w : World L),
    idx_clamped (tm w) ->
    (forall t, In t (tabs (tm w)) -> I1 (tab_objs w t)) ->
    exists aw,
      TabManager.active_window w = (Ok aw, w, []) /\
      match aw with
      | Some x => exists t, py_index (tabs (tm w)) (_active_tab_idx (tm w)) = Some t /\
                            In x (windows (tab_objs w t))
      | None => tabs (tm w) = [] \/
                exists t, py_index (tabs (tm w)) (_active_tab_idx (tm w)) = Some t /\
                          windows (tab_objs w t) = []
      end.
Proof. intros L H w. apply manager_active_window. Qed.

Lemma X18_witness :
  exists aw, TabManager.active_window (demo_world 3) = (Ok aw, demo_world 3, []).
Proof.
  destruct (X18_manager_active_window stack_layout (demo_world 3)) as (aw & Hrun & _).
  - reflexivity.
  - intros t _. right. simpl. lia.
  - exists aw. exact Hrun.
Defined.
